(** * EduTech ChatBot: data migration and backup/restore

    A shallow embedding of [scripts/migrate-mongo-to-sqlite.ts] (module
    [Migrator]) and of [scripts/backup-restore.sh] (module [BackupRestore]),
    with the properties of the two scripts proved over the embedding. *)

From Stdlib Require Import ZArith Ascii String OrderedTypeEx.
From stdpp Require Import gmap strings list sorting pretty.

Open Scope string_scope.
Open Scope list_scope.

(** ** Text helpers shared by the two parts *)

Module Text.

(** [contains needle hay]: [needle] occurs in [hay] (what [grep -q needle]
    decides for a fixed string on a line of input). *)
Fixpoint contains (needle hay : string) : bool :=
  String.prefix needle hay ||
  match hay with
  | EmptyString => false
  | String _ hay' => contains needle hay'
  end.

Definition LF : ascii := ascii_of_nat 10.
Definition TAB : ascii := ascii_of_nat 9.
Definition SPACE : ascii := ascii_of_nat 32.
Definition ESC : ascii := ascii_of_nat 27.

(** The characters of the default [IFS]. *)
Definition is_ifs (c : ascii) : bool :=
  bool_decide (c = SPACE) || bool_decide (c = TAB) || bool_decide (c = LF).

(** Field splitting of an unquoted expansion: maximal runs of non-[IFS]
    characters.  [cur] is the field being read, in reverse. *)
Fixpoint words_go (cur : list ascii) (s : string) : list string :=
  match s with
  | EmptyString =>
      match cur with [] => [] | _ => [string_of_list_ascii (rev cur)] end
  | String c s' =>
      if is_ifs c then
        match cur with
        | [] => words_go [] s'
        | _ => string_of_list_ascii (rev cur) :: words_go [] s'
        end
      else words_go (c :: cur) s'
  end.
Definition words (s : string) : list string := words_go [] s.

(** Lines joined as a command substitution returns them. *)
Definition unlines (lines : list string) : string :=
  String.concat (String LF EmptyString) lines.

(** [strip_prefix p s]: the rest of [s] after the prefix [p], if it has it. *)
Fixpoint strip_prefix (p s : string) : option string :=
  match p, s with
  | EmptyString, _ => Some s
  | String a p', String b s' =>
      if bool_decide (a = b) then strip_prefix p' s' else None
  | String _ _, EmptyString => None
  end.

End Text.

(** ** Part I: the MongoDB to SQLite migrator *)

Module Migrator.

(** [ObjectId.toString()] and [Date] values are carried as they are read. *)
Abbreviation ObjectId := string.
Abbreviation Date := Z.

(** *** Source documents (the [Mongo*] interfaces) *)

Module MongoTextbook.
Record t := mk {
  _id : ObjectId; title : string; publisher : string; subject : string;
  level : string; grade : string; createdAt : Date; updatedAt : Date }.
End MongoTextbook.

Module MongoPassageSet.
Record t := mk {
  _id : ObjectId; title : string; passage : string; passageComment : string;
  qrCode : string; textbooks : list ObjectId;
  createdAt : Date; updatedAt : Date }.
End MongoPassageSet.

Module MongoQuestion.
Record t := mk {
  _id : ObjectId; setId : ObjectId; questionNumber : Z; questionText : string;
  options : list string; correctAnswer : string; explanation : string;
  createdAt : Date; updatedAt : Date }.
End MongoQuestion.

Module MongoSystemPrompt.
Record t := mk {
  _id : ObjectId; key : string; name : string; description : string;
  content : string; isActive : bool; version : Z;
  createdAt : Date; updatedAt : Date }.
End MongoSystemPrompt.

Module MongoSystemPromptVersion.
Record t := mk {
  _id : ObjectId; promptKey : string; content : string; version : Z;
  description : string; createdBy : string; createdAt : Date }.
End MongoSystemPromptVersion.

(** The collections the script reads, under the names it reads them by
    (the last one is spelled as in the script). *)
Record MongoDb := mkMongoDb {
  textbooks : list MongoTextbook.t;
  passagesets : list MongoPassageSet.t;
  questions : list MongoQuestion.t;
  systemprompts : list MongoSystemPrompt.t;
  systemprompversions : list MongoSystemPromptVersion.t }.

(** *** Target rows (the [data] objects handed to Prisma's [create]) *)

Module Textbook.
Record t := mk {
  id : string; title : string; publisher : string; subject : string;
  level : string; grade : string; createdAt : Date; updatedAt : Date }.
End Textbook.

Module PassageSet.
Record t := mk {
  id : string; title : string; passage : string; passageComment : string;
  qrCode : string; createdAt : Date; updatedAt : Date }.
End PassageSet.

Module Question.
Record t := mk {
  id : string; setId : string; questionNumber : Z; questionText : string;
  optionsJson : string; correctAnswer : string; explanation : string;
  createdAt : Date; updatedAt : Date }.
End Question.

Module SystemPrompt.
Record t := mk {
  id : string; key : string; name : string; description : string;
  content : string; isActive : bool; version : Z;
  createdAt : Date; updatedAt : Date }.
End SystemPrompt.

Module SystemPromptVersion.
Record t := mk {
  id : string; promptKey : string; content : string; version : Z;
  description : string; createdBy : string; createdAt : Date }.
End SystemPromptVersion.

Module PassageSetTextbook.
Record t := mk { textbookId : string; passageSetId : string }.
#[global] Instance eq_dec : EqDecision t.
Proof. solve_decision. Defined.
End PassageSetTextbook.

(** The SQLite store behind the Prisma client: one table per model, rows in
    insertion order, and the connection's [foreign_keys] pragma. *)
Record Prisma := mkPrisma {
  textbook : list Textbook.t;
  passageSet : list PassageSet.t;
  question : list Question.t;
  systemPrompt : list SystemPrompt.t;
  systemPromptVersion : list SystemPromptVersion.t;
  passageSetTextbook : list PassageSetTextbook.t;
  foreign_keys : bool }.

(** The five entity kinds of the glossary. *)
Inductive EntityKind :=
  KTextbook | KPassageSet | KQuestion | KSystemPrompt | KSystemPromptVersion.

#[global] Instance EntityKind_eq_dec : EqDecision EntityKind.
Proof. solve_decision. Defined.

(** What a rejected promise carries. *)
Inductive Error :=
| JsError (message : string)
| MongoConnectError
| PrismaConnectError
| UniqueConstraintFailed (model : string) (fields : list string)
| ForeignKeyConstraintFailed (model : string) (field : string).

Inductive Result (A : Type) :=
| Ok (a : A)
| Throw (e : Error).
Arguments Ok {A} a.
Arguments Throw {A} e.

(** Ghost history of a run; no model code reads it.  [Assigned s t] is
    appended by [idMapping.set(s, t)], [Created k s t] once the [create] for
    the source document [s] of kind [k] has resolved with row id [t]. *)
Inductive Event :=
| Assigned (sourceId targetId : string)
| Created (kind : EntityKind) (sourceId targetId : string).

(** [console.log], [console.warn] and [console.error] lines. *)
Inductive Level := LOG | WARN | ERROR.

(** The migrator object together with what it acts upon: the two private
    fields that change, the number of identifiers [uuidv4] has handed out,
    the console, and the ghost history. *)
Record Migrator := mkMigrator {
  idMapping : gmap string string;
  prisma : Prisma;
  uuid_calls : nat;
  console : list (Level * string);
  journal : list Event }.

Definition set_idMapping (f : gmap string string → gmap string string)
    (m : Migrator) : Migrator :=
  mkMigrator (f (idMapping m)) (prisma m) (uuid_calls m) (console m) (journal m).
Definition set_prisma (f : Prisma → Prisma) (m : Migrator) : Migrator :=
  mkMigrator (idMapping m) (f (prisma m)) (uuid_calls m) (console m) (journal m).
Definition set_uuid_calls (f : nat → nat) (m : Migrator) : Migrator :=
  mkMigrator (idMapping m) (prisma m) (f (uuid_calls m)) (console m) (journal m).
Definition set_console (f : list (Level * string) → list (Level * string))
    (m : Migrator) : Migrator :=
  mkMigrator (idMapping m) (prisma m) (uuid_calls m) (f (console m)) (journal m).
Definition set_journal (f : list Event → list Event) (m : Migrator) : Migrator :=
  mkMigrator (idMapping m) (prisma m) (uuid_calls m) (console m) (f (journal m)).

(** *** The monad of [async] methods: state, and promise rejection *)

Definition M (A : Type) : Type := Migrator → Result A * Migrator.

Definition ret {A} (a : A) : M A := λ m, (Ok a, m).
Definition throw {A} (e : Error) : M A := λ m, (Throw e, m).
Definition bind {A B} (c : M A) (k : A → M B) : M B :=
  λ m, match c m with
       | (Ok a, m') => k a m'
       | (Throw e, m') => (Throw e, m')
       end.

Notation "'let*' x := c 'in' k" := (bind c (λ x, k))
  (at level 10, x name, c at level 99, k at level 200).
Notation "c ;; k" := (bind c (λ _, k))
  (at level 100, k at level 200, right associativity).

(** [try { c } catch (error) { h error }] *)
Definition try_catch {A} (c : M A) (h : Error → M A) : M A :=
  λ m, match c m with
       | (Ok a, m') => (Ok a, m')
       | (Throw e, m') => h e m'
       end.

(** [try { c } finally { f }] where [f] does not itself throw. *)
Definition try_finally {A} (c : M A) (f : Migrator → Migrator) : M A :=
  λ m, let '(r, m') := c m in (r, f m').

Definition modify (f : Migrator → Migrator) : M unit := λ m, (Ok tt, f m).
Definition gets {A} (f : Migrator → A) : M A := λ m, (Ok (f m), m).

(** [for (const x of xs) { acc = body(x, acc) }]: the loops of the script
    carry a local counter, threaded here as [acc]. *)
Fixpoint for_of {A S} (xs : list A) (body : A → S → M S) (acc : S) : M S :=
  match xs with
  | [] => ret acc
  | x :: xs' => let* acc' := body x acc in for_of xs' body acc'
  end.

Definition console_log (line : string) : M unit :=
  modify (set_console (λ c, c ++ [(LOG, line)])).
Definition console_warn (line : string) : M unit :=
  modify (set_console (λ c, c ++ [(WARN, line)])).
Definition console_error (line : string) : M unit :=
  modify (set_console (λ c, c ++ [(ERROR, line)])).
Definition ghost (e : Event) : M unit :=
  modify (set_journal (λ j, j ++ [e])).

(** [when c body]: an [if] without [else]. *)
Definition when (c : bool) (body : M unit) : M unit :=
  if c then body else ret tt.

(** *** Prisma's [create], per model *)

Definition update_textbook f (p : Prisma) : Prisma :=
  mkPrisma (f (textbook p)) (passageSet p) (question p) (systemPrompt p)
    (systemPromptVersion p) (passageSetTextbook p) (foreign_keys p).
Definition update_passageSet f (p : Prisma) : Prisma :=
  mkPrisma (textbook p) (f (passageSet p)) (question p) (systemPrompt p)
    (systemPromptVersion p) (passageSetTextbook p) (foreign_keys p).
Definition update_question f (p : Prisma) : Prisma :=
  mkPrisma (textbook p) (passageSet p) (f (question p)) (systemPrompt p)
    (systemPromptVersion p) (passageSetTextbook p) (foreign_keys p).
Definition update_systemPrompt f (p : Prisma) : Prisma :=
  mkPrisma (textbook p) (passageSet p) (question p) (f (systemPrompt p))
    (systemPromptVersion p) (passageSetTextbook p) (foreign_keys p).
Definition update_systemPromptVersion f (p : Prisma) : Prisma :=
  mkPrisma (textbook p) (passageSet p) (question p) (systemPrompt p)
    (f (systemPromptVersion p)) (passageSetTextbook p) (foreign_keys p).
Definition update_passageSetTextbook f (p : Prisma) : Prisma :=
  mkPrisma (textbook p) (passageSet p) (question p) (systemPrompt p)
    (systemPromptVersion p) (f (passageSetTextbook p)) (foreign_keys p).
Definition update_foreign_keys f (p : Prisma) : Prisma :=
  mkPrisma (textbook p) (passageSet p) (question p) (systemPrompt p)
    (systemPromptVersion p) (passageSetTextbook p) (f (foreign_keys p)).

(** Modelled from the spec: [prisma/schema.prisma], which declares the
    constraints of the six tables, is not among the sources.  The model
    takes what the spec and the database layer say of them: [id] is the
    primary key of every entity table; the access code [qrCode] of a
    PassageSet and the [key] of a SystemPrompt are unique (both are looked
    up with [findUnique]); a Question's [setId] is a foreign key to
    PassageSet; a junction row is identified by the pair of its two foreign
    keys ([textbookId_passageSetId]).  A violated constraint rejects the
    [create] and leaves the table as it was; foreign keys are enforced while
    the [foreign_keys] pragma is on. *)
Definition constraint_violation (model : string) (p : Prisma)
    (unique : list (string * bool)) (foreign : list (string * bool))
  : option Error :=
  match filter (λ c, c.2 = true) unique with
  | (field, _) :: _ => Some (UniqueConstraintFailed model [field])
  | [] =>
    match filter (λ c, c.2 = true) foreign with
    | (field, _) :: _ =>
        if foreign_keys p then Some (ForeignKeyConstraintFailed model field)
        else None
    | [] => None
    end
  end.

(** [prisma.<model>.create({ data })]: reject on a violated constraint,
    append the row otherwise. *)
Definition create (violation : Prisma → option Error)
    (insert_row : Prisma → Prisma) : M unit :=
  λ m, match violation (prisma m) with
       | Some e => (Throw e, m)
       | None => (Ok tt, set_prisma insert_row m)
       end.

Definition textbook_create (data : Textbook.t) : M unit :=
  create
    (λ p, constraint_violation "Textbook" p
       [("id", bool_decide (Textbook.id data ∈ Textbook.id <$> textbook p))] [])
    (update_textbook (λ rows, rows ++ [data])).

Definition passageSet_create (data : PassageSet.t) : M unit :=
  create
    (λ p, constraint_violation "PassageSet" p
       [("id", bool_decide (PassageSet.id data ∈ PassageSet.id <$> passageSet p));
        ("qrCode",
         bool_decide (PassageSet.qrCode data ∈ PassageSet.qrCode <$> passageSet p))]
       [])
    (update_passageSet (λ rows, rows ++ [data])).

Definition question_create (data : Question.t) : M unit :=
  create
    (λ p, constraint_violation "Question" p
       [("id", bool_decide (Question.id data ∈ Question.id <$> question p))]
       [("setId",
         bool_decide (Question.setId data ∉ PassageSet.id <$> passageSet p))])
    (update_question (λ rows, rows ++ [data])).

Definition systemPrompt_create (data : SystemPrompt.t) : M unit :=
  create
    (λ p, constraint_violation "SystemPrompt" p
       [("id", bool_decide (SystemPrompt.id data ∈ SystemPrompt.id <$> systemPrompt p));
        ("key",
         bool_decide (SystemPrompt.key data ∈ SystemPrompt.key <$> systemPrompt p))]
       [])
    (update_systemPrompt (λ rows, rows ++ [data])).

Definition systemPromptVersion_create (data : SystemPromptVersion.t) : M unit :=
  create
    (λ p, constraint_violation "SystemPromptVersion" p
       [("id", bool_decide (SystemPromptVersion.id data
                              ∈ SystemPromptVersion.id <$> systemPromptVersion p))]
       [])
    (update_systemPromptVersion (λ rows, rows ++ [data])).

Definition passageSetTextbook_create (data : PassageSetTextbook.t) : M unit :=
  create
    (λ p, constraint_violation "PassageSetTextbook" p
       [("textbookId_passageSetId", bool_decide (data ∈ passageSetTextbook p))]
       [("textbookId",
         bool_decide (PassageSetTextbook.textbookId data
                        ∉ Textbook.id <$> textbook p));
        ("passageSetId",
         bool_decide (PassageSetTextbook.passageSetId data
                        ∉ PassageSet.id <$> passageSet p))])
    (update_passageSetTextbook (λ rows, rows ++ [data])).

(** *** The class [MongoToSQLiteMigrator] *)

Record MigrationConfig := mkConfig {
  mongodb_uri : string; mongodb_database : string;
  sqlite_path : string;
  backup_enabled : bool; backup_path : string }.

(** [new MongoToSQLiteMigrator(config)] over the SQLite file it is pointed to. *)
Definition new_migrator (target : Prisma) : Migrator :=
  mkMigrator ∅ target 0 [] [].

(** How an error prints after [console.error]'s label. *)
Definition error_message (e : Error) : string :=
  match e with
  | JsError message => "Error: " +:+ message
  | MongoConnectError => "MongoServerSelectionError"
  | PrismaConnectError => "PrismaClientInitializationError"
  | UniqueConstraintFailed model fields =>
      "Unique constraint failed on the fields: (" +:+ String.concat "," fields
      +:+ ") of " +:+ model
  | ForeignKeyConstraintFailed model field =>
      "Foreign key constraint failed on the field: " +:+ field +:+ " of " +:+ model
  end.

Section Methods.

(** The two library functions the script imports are parameters: [uuidv4 n]
    is the identifier returned by the [n]-th call of [uuidv4()] in the run,
    and [JSON_stringify] is [JSON.stringify] on an array of strings. *)
Variable uuidv4 : nat → string.
Variable JSON_stringify : list string → string.

Definition uuid : M string :=
  λ m, (Ok (uuidv4 (uuid_calls m)), set_uuid_calls S m).

(** [this.idMapping.set(sourceId, targetId)] *)
Definition idMapping_set (sourceId targetId : string) : M unit :=
  modify (set_idMapping (insert sourceId targetId));;
  ghost (Assigned sourceId targetId).

(** [this.idMapping.get(sourceId)] *)
Definition idMapping_get (sourceId : string) : M (option string) :=
  gets (λ m, idMapping m !! sourceId).

(** The Identifier Mapper's [assign], as the import loops inline it:
    [const newId = uuidv4(); this.idMapping.set(sourceId, newId);]. *)
Definition assign (sourceId : string) : M string :=
  let* newId := uuid in
  idMapping_set sourceId newId;;
  ret newId.

(** [!value] for a [string | undefined]. *)
Definition not_ (value : option string) : bool :=
  match value with
  | None => true
  | Some s => bool_decide (s = "")
  end.

Definition setupConnections (mongo : option MongoDb) (sqlite_up : bool)
  : M MongoDb :=
  console_log "🔗 데이터베이스 연결 설정...";;
  match mongo with
  | None => throw MongoConnectError
  | Some db =>
      if sqlite_up then
        (* the four PRAGMAs; only [foreign_keys = ON] is visible here *)
        modify (set_prisma (update_foreign_keys (λ _, true)));;
        ret db
      else throw PrismaConnectError
  end.

(** Dumps every source collection to a JSON file under [config.backup.path].
    Those files are outside the state modelled here, and so is the
    rejection of a dump that cannot be written: the step is its console
    line. *)
Definition backupExistingData : M unit :=
  console_log "💾 기존 데이터 백업 중...".

Definition initializeSQLite : M unit :=
  console_log "🗄️ SQLite 데이터베이스 초기화...";;
  console_log "Prisma 스키마를 먼저 적용해주세요: npx prisma db push".

Definition migrateTextbooks (db : MongoDb) : M unit :=
  console_log "📚 교재 데이터 마이그레이션...";;
  let textbooks := textbooks db in
  let* count :=
    for_of textbooks (λ textbook count,
      let* newId := assign (MongoTextbook._id textbook) in
      textbook_create
        (Textbook.mk newId (MongoTextbook.title textbook)
           (MongoTextbook.publisher textbook) (MongoTextbook.subject textbook)
           (MongoTextbook.level textbook) (MongoTextbook.grade textbook)
           (MongoTextbook.createdAt textbook) (MongoTextbook.updatedAt textbook));;
      ghost (Created KTextbook (MongoTextbook._id textbook) newId);;
      let count := S count in
      when (count mod 10 =? 0)%nat
        (console_log ("  📚 교재 " +:+ pretty count +:+ "/"
                      +:+ pretty (length textbooks) +:+ " 완료"));;
      ret count) 0 in
  console_log ("✅ 교재 마이그레이션 완료: " +:+ pretty count +:+ "개").

Definition migratePassageSets (db : MongoDb) : M unit :=
  console_log "📄 지문세트 데이터 마이그레이션...";;
  let passageSets := passagesets db in
  let* count :=
    for_of passageSets (λ passageSet count,
      let* newId := assign (MongoPassageSet._id passageSet) in
      passageSet_create
        (PassageSet.mk newId (MongoPassageSet.title passageSet)
           (MongoPassageSet.passage passageSet)
           (MongoPassageSet.passageComment passageSet)
           (MongoPassageSet.qrCode passageSet)
           (MongoPassageSet.createdAt passageSet)
           (MongoPassageSet.updatedAt passageSet));;
      ghost (Created KPassageSet (MongoPassageSet._id passageSet) newId);;
      let count := S count in
      when (count mod 10 =? 0)%nat
        (console_log ("  📄 지문세트 " +:+ pretty count +:+ "/"
                      +:+ pretty (length passageSets) +:+ " 완료"));;
      ret count) 0 in
  console_log ("✅ 지문세트 마이그레이션 완료: " +:+ pretty count +:+ "개").

Definition migrateQuestions (db : MongoDb) : M unit :=
  console_log "❓ 문제 데이터 마이그레이션...";;
  let questions := questions db in
  let* count :=
    for_of questions (λ question count,
      let* newId := uuid in
      let* passageSetId := idMapping_get (MongoQuestion.setId question) in
      if not_ passageSetId then
        console_warn ("⚠️ 지문세트 ID를 찾을 수 없음: "
                      +:+ MongoQuestion.setId question);;
        ret count (* continue *)
      else
        question_create
          (Question.mk newId (default "" passageSetId) (* defined here *)
             (MongoQuestion.questionNumber question)
             (MongoQuestion.questionText question)
             (JSON_stringify (MongoQuestion.options question))
             (MongoQuestion.correctAnswer question)
             (MongoQuestion.explanation question)
             (MongoQuestion.createdAt question)
             (MongoQuestion.updatedAt question));;
        ghost (Created KQuestion (MongoQuestion._id question) newId);;
        let count := S count in
        when (count mod 50 =? 0)%nat
          (console_log ("  ❓ 문제 " +:+ pretty count +:+ "/"
                        +:+ pretty (length questions) +:+ " 완료"));;
        ret count) 0 in
  console_log ("✅ 문제 마이그레이션 완료: " +:+ pretty count +:+ "개").

Definition migrateSystemPrompts (db : MongoDb) : M unit :=
  console_log "🤖 시스템 프롬프트 데이터 마이그레이션...";;
  let prompts := systemprompts db in
  let* count :=
    for_of prompts (λ prompt count,
      let* newId := uuid in
      systemPrompt_create
        (SystemPrompt.mk newId (MongoSystemPrompt.key prompt)
           (MongoSystemPrompt.name prompt) (MongoSystemPrompt.description prompt)
           (MongoSystemPrompt.content prompt) (MongoSystemPrompt.isActive prompt)
           (MongoSystemPrompt.version prompt)
           (MongoSystemPrompt.createdAt prompt)
           (MongoSystemPrompt.updatedAt prompt));;
      ghost (Created KSystemPrompt (MongoSystemPrompt._id prompt) newId);;
      ret (S count)) 0 in
  console_log ("✅ 시스템 프롬프트 마이그레이션 완료: " +:+ pretty count +:+ "개").

Definition migrateSystemPromptVersions (db : MongoDb) : M unit :=
  console_log "📝 프롬프트 버전 히스토리 마이그레이션...";;
  let versions := systemprompversions db in
  let* count :=
    for_of versions (λ version count,
      let* newId := uuid in
      systemPromptVersion_create
        (SystemPromptVersion.mk newId (MongoSystemPromptVersion.promptKey version)
           (MongoSystemPromptVersion.content version)
           (MongoSystemPromptVersion.version version)
           (MongoSystemPromptVersion.description version)
           (MongoSystemPromptVersion.createdBy version)
           (MongoSystemPromptVersion.createdAt version));;
      ghost (Created KSystemPromptVersion
               (MongoSystemPromptVersion._id version) newId);;
      ret (S count)) 0 in
  console_log ("✅ 프롬프트 버전 마이그레이션 완료: " +:+ pretty count +:+ "개").

(** The body of the inner loop of [establishRelationships]: one textbook
    reference of a passage set whose own identifier resolved. *)
Definition link_textbook (passageSetId : option string)
    (textbookObjectId : ObjectId) (relationCount : nat) : M nat :=
  let* textbookId := idMapping_get textbookObjectId in
  if not_ textbookId then
    console_warn ("⚠️ 교재 ID를 찾을 수 없음: " +:+ textbookObjectId);;
    ret relationCount (* continue *)
  else
    try_catch
      (passageSetTextbook_create
         (PassageSetTextbook.mk (default "" textbookId) (* defined here *)
            (default "" passageSetId));;
       ret (S relationCount))
      (λ error,
         console_log ("중복 관계 스킵: " +:+ default "" textbookId
                      +:+ " - " +:+ default "" passageSetId);;
         ret relationCount).

(** The body of the outer loop: one passage set. *)
Definition link_passageSet (passageSet : MongoPassageSet.t)
    (relationCount : nat) : M nat :=
  let* passageSetId := idMapping_get (MongoPassageSet._id passageSet) in
  if not_ passageSetId then ret relationCount (* continue *)
  else
    for_of (MongoPassageSet.textbooks passageSet) (link_textbook passageSetId)
      relationCount.

Definition establishRelationships (db : MongoDb) : M unit :=
  console_log "🔗 관계 설정 중...";;
  let passageSets := passagesets db in
  let* relationCount := for_of passageSets link_passageSet 0 in
  console_log ("✅ 관계 설정 완료: " +:+ pretty relationCount +:+ "개").

(** The four counters of [mongoStats] and of [sqliteStats]. *)
Record Stats := mkStats {
  stats_textbooks : nat; stats_passagesets : nat;
  stats_questions : nat; stats_systemprompts : nat }.

Definition mongoStats (db : MongoDb) : Stats :=
  mkStats (length (textbooks db)) (length (passagesets db))
    (length (questions db)) (length (systemprompts db)).

Definition sqliteStats (p : Prisma) : Stats :=
  mkStats (length (textbook p)) (length (passageSet p))
    (length (question p)) (length (systemPrompt p)).

Definition count_mismatch_message : string :=
  "❌ 데이터 카운트 불일치! 마이그레이션 검토 필요".

Definition verifyMigration (db : MongoDb) : M unit :=
  console_log "🔍 데이터 무결성 검증...";;
  let mongoStats := mongoStats db in
  let* sqliteStats := gets (λ m, sqliteStats (prisma m)) in
  console_log "📊 마이그레이션 결과 비교:";;
  console_log "MongoDB → SQLite";;
  console_log ("교재: " +:+ pretty (stats_textbooks mongoStats) +:+ " → "
               +:+ pretty (stats_textbooks sqliteStats));;
  console_log ("지문세트: " +:+ pretty (stats_passagesets mongoStats) +:+ " → "
               +:+ pretty (stats_passagesets sqliteStats));;
  console_log ("문제: " +:+ pretty (stats_questions mongoStats) +:+ " → "
               +:+ pretty (stats_questions sqliteStats));;
  console_log ("프롬프트: " +:+ pretty (stats_systemprompts mongoStats) +:+ " → "
               +:+ pretty (stats_systemprompts sqliteStats));;
  if negb (stats_textbooks mongoStats =? stats_textbooks sqliteStats)%nat
     || negb (stats_passagesets mongoStats =? stats_passagesets sqliteStats)%nat
     || negb (stats_questions mongoStats =? stats_questions sqliteStats)%nat
     || negb (stats_systemprompts mongoStats =? stats_systemprompts sqliteStats)%nat
  then throw (JsError count_mismatch_message)
  else console_log "✅ 데이터 무결성 검증 완료".

(** Closes both connections; nothing of the modelled state changes. *)
Definition cleanup (m : Migrator) : Migrator := m.

(** Steps 1 to 5 of the [try] block of [migrate], up to the verification;
    the value is the connected source database. *)
Definition steps_1_to_5 (config : MigrationConfig) (mongo : option MongoDb)
    (sqlite_up : bool) : M MongoDb :=
  let* db := setupConnections mongo sqlite_up in
  when (backup_enabled config) backupExistingData;;
  initializeSQLite;;
  migrateTextbooks db;;
  migratePassageSets db;;
  migrateQuestions db;;
  migrateSystemPrompts db;;
  migrateSystemPromptVersions db;;
  establishRelationships db;;
  ret db.

Definition migrate (config : MigrationConfig) (mongo : option MongoDb)
    (sqlite_up : bool) : M unit :=
  console_log "🚀 MongoDB to SQLite 마이그레이션 시작...";;
  try_finally
    (try_catch
       (let* db := steps_1_to_5 config mongo sqlite_up in
        verifyMigration db;;
        console_log "✅ 마이그레이션 완료!")
       (λ error,
          console_error ("❌ 마이그레이션 실패: " +:+ error_message error);;
          throw error))
    cleanup.

(** The process: [main().catch(console.error)].  [main] builds the
    configuration (backup enabled), prints it (four lines, left out here)
    and awaits [migrate]; a rejection is handed to [console.error], and the
    event loop then drains.  The first component is the exit status of the
    process: nothing sets [process.exitCode] and the rejection is handled,
    so it is 0 on either path. *)
Definition main (mongo : option MongoDb) (sqlite_up : bool) (target : Prisma)
  : nat * Migrator :=
  let config :=
    mkConfig "mongodb+srv://your-mongo-uri" "your-database"
      "./data/edutech.db" true "./backups" in
  match migrate config mongo sqlite_up (new_migrator target) with
  | (Ok _, m) => (0, m)
  | (Throw error, m) => (0, set_console (λ c, c ++ [(ERROR, error_message error)]) m)
  end.

End Methods.

End Migrator.

(** ** Part II: the backup and restore script *)

Module BackupRestore.
Import Text.

(** *** The machine the script runs on *)

Record File := mkFile { content : string; mtime : nat }.

(** Regular files and directories by path, the objects of the S3 bucket
    with their modification times ([None] when [aws] cannot be used), the
    clock, whether pm2 has [edutech-api] online, and what the script has
    written to standard output.  [calls] is ghost: the functions of the
    script entered so far, oldest first; no model code reads it. *)
Record World := mkWorld {
  files : gmap string File;
  dirs : gset string;
  bucket : option (gmap string nat);
  clock : nat;
  api_online : bool;
  stdout : list string;
  calls : list string }.

Definition set_files (f : gmap string File → gmap string File) (w : World) :=
  mkWorld (f (files w)) (dirs w) (bucket w) (clock w) (api_online w)
    (stdout w) (calls w).
Definition set_dirs (f : gset string → gset string) (w : World) :=
  mkWorld (files w) (f (dirs w)) (bucket w) (clock w) (api_online w)
    (stdout w) (calls w).
Definition set_bucket (f : option (gmap string nat) → option (gmap string nat))
    (w : World) :=
  mkWorld (files w) (dirs w) (f (bucket w)) (clock w) (api_online w)
    (stdout w) (calls w).
Definition set_api_online (f : bool → bool) (w : World) :=
  mkWorld (files w) (dirs w) (bucket w) (clock w) (f (api_online w))
    (stdout w) (calls w).
Definition set_stdout (f : list string → list string) (w : World) :=
  mkWorld (files w) (dirs w) (bucket w) (clock w) (api_online w)
    (f (stdout w)) (calls w).
Definition set_calls (f : list string → list string) (w : World) :=
  mkWorld (files w) (dirs w) (bucket w) (clock w) (api_online w)
    (stdout w) (f (calls w)).

(** How a command ends: with an exit status, by [return] out of the
    enclosing function, or by leaving the shell ([exit], or [set -e]). *)
Inductive Status :=
| Done (rc : nat)
| Return (rc : nat)
| Exit (rc : nat).

Definition Sh : Type := World → Status * World.

Definition status_code (s : Status) : nat :=
  match s with Done rc | Return rc | Exit rc => rc end.

(** [c1; c2] under [set -e] (line 7 of the script): a command that fails
    where its status is not tested makes the shell exit with that status. *)
Definition seq (c1 c2 : Sh) : Sh :=
  λ w, match c1 w with
       | (Done 0, w') => c2 w'
       | (Done (S rc), w') => (Exit (S rc), w')
       | stop => stop
       end.

Declare Scope sh_scope.
Delimit Scope sh_scope with sh.
Bind Scope sh_scope with Sh.
Notation "c1 ;; c2" := (seq c1 c2)
  (at level 100, c2 at level 200, right associativity) : sh_scope.
Open Scope sh_scope.

Definition true_ : Sh := λ w, (Done 0, w).
Definition return_ (rc : nat) : Sh := λ w, (Return rc, w).
Definition exit_ (rc : nat) : Sh := λ w, (Exit rc, w).

(** [if cond; then c1; else c2; fi], for a condition that only reads. *)
Definition if_ (cond : World → bool) (c1 c2 : Sh) : Sh :=
  λ w, if cond w then c1 w else c2 w.

(** [c || true] *)
Definition or_true (c : Sh) : Sh :=
  λ w, match c w with
       | (Done _, w') => (Done 0, w')
       | stop => stop
       end.

(** [c1 || c2] *)
Definition or_ (c1 c2 : Sh) : Sh :=
  λ w, match c1 w with
       | (Done (S _), w') => c2 w'
       | other => other
       end.

(** A call of a function of the script: [return] ends the call. *)
Definition call (name : string) (body : Sh) : Sh :=
  λ w, match body (set_calls (λ l, l ++ [name]) w) with
       | (Return rc, w') => (Done rc, w')
       | other => other
       end.

(** [$(c)]: [c] runs in a subshell whose standard output is collected;
    [exit] leaves the subshell only. *)
Definition capture (c : Sh) (w : World) : nat * string * World :=
  let '(st, w') := c (set_stdout (λ _, []) w) in
  (status_code st, unlines (stdout w'), set_stdout (λ _, stdout w) w').

(** [var=$(c)] followed by [k var]: the assignment has the status of [c]. *)
Definition assign_capture (c : Sh) (k : string → Sh) : Sh :=
  λ w, let '(rc, out, w') := capture c w in
       match rc with
       | 0 => k out w'
       | S _ => (Exit rc, w')
       end.

(** [local var=$(c)] followed by [k var]: the status is that of [local]. *)
Definition local_capture (c : Sh) (k : string → Sh) : Sh :=
  λ w, let '(_, out, w') := capture c w in k out w'.

(** [for x in items; do body; done] *)
Fixpoint for_in (items : list string) (body : string → Sh) : Sh :=
  match items with
  | [] => true_
  | x :: rest => body x ;; for_in rest body
  end.

Definition echo (line : string) : Sh :=
  λ w, (Done 0, set_stdout (λ out, out ++ [line]) w).

(** [cp src dst] between regular files. *)
Definition cp (src dst : string) : Sh :=
  λ w, match files w !! src with
       | Some f => (Done 0, set_files (insert dst (mkFile (content f) (clock w))) w)
       | None => (Done 1, w)
       end.

Definition mkdir_p (path : string) : Sh :=
  λ w, (Done 0, set_dirs (λ d, {[path]} ∪ d) w).

(** [[[ -f path ]]] and [[[ -d path ]]] *)
Definition is_file (path : string) (w : World) : bool :=
  bool_decide (is_Some (files w !! path)).
Definition is_dir (path : string) (w : World) : bool :=
  bool_decide (path ∈ dirs w).

(** [rm -f path]: a path that is not there is no error, a directory is
    one and is left in place. *)
Definition rm_f (path : string) : Sh :=
  λ w, if is_dir path w then (Done 1, w)
       else (Done 0, set_files (delete path) w).

Definition pm2_stop : Sh := λ w, (Done 0, set_api_online (λ _, false) w).
Definition pm2_start : Sh := λ w, (Done 0, set_api_online (λ _, true) w).

(** What the script only calls: programs whose results it reads, and the
    functions of the script that are not embedded here. *)
Record Externals := mkExternals {
  (** [date +%Y%m%d_%H%M%S] at a given time *)
  strftime : nat → string;
  (** standard output of [sqlite3 FILE "PRAGMA integrity_check;"] *)
  integrity_check : string → string;
  (** the database file after [PRAGMA wal_checkpoint(FULL)] *)
  wal_checkpoint : string → string;
  (** standard output of [sqlite3 FILE "PRAGMA wal_checkpoint(FULL);"]: the
      result row of the pragma *)
  checkpoint_row : string → string;
  (** what [.backup] writes for the live database file, if there is one *)
  backup_image : option string → string;
  (** the database file after [npx prisma db push --accept-data-loss],
      [None] when the command fails *)
  prisma_db_push : string → option string;
  (** [tar -czf]: the archive of a directory, from its members by path
      relative to the directory given to [-C] *)
  tar_czf : list (string * File) → string;
  (** [tar -xzf]: the directories and the members of an archive *)
  tar_xzf : string → option (list string * list (string * File));
  check_dependencies : list string → Sh;
  backup_full : string → Sh;
  upload_to_cloud : string → Sh;
  list_backups : string → Sh;
  show_status : Sh;
  manage_schedule : string → Sh;
  print_usage : Sh }.

(** *** Configuration (lines 10-24) *)

Definition color (code : string) : string :=
  String ESC EmptyString +:+ code.
Definition RED := color "[0;31m".
Definition GREEN := color "[0;32m".
Definition YELLOW := color "[1;33m".
Definition BLUE := color "[0;34m".
Definition NC := color "[0m".

Definition PROJECT_NAME := "edutech-chatbot".
Definition PROJECT_PATH := "/var/www/" +:+ PROJECT_NAME.
Definition BACKUP_BASE_PATH := "/var/backups/" +:+ PROJECT_NAME.
Definition CLOUD_BACKUP_PATH := "s3://your-backup-bucket/edutech-backups".
Definition DATABASE_PATH := PROJECT_PATH +:+ "/data/edutech.db".
Definition FILES_PATH := PROJECT_PATH +:+ "/data/files".
Definition MAX_LOCAL_BACKUPS := 30.
Definition MAX_CLOUD_BACKUPS := 90.

(** The four log functions print with [echo -e].  The colours are held
    here as [echo -e] prints them; a backslash in the message would be
    interpreted too, which is not modelled: what is proved of a printed
    log line is proved for messages without backslash. *)
Definition log_info (msg : string) : Sh :=
  echo (BLUE +:+ "[INFO]" +:+ NC +:+ " " +:+ msg).
Definition log_success (msg : string) : Sh :=
  echo (GREEN +:+ "[SUCCESS]" +:+ NC +:+ " " +:+ msg).
Definition log_warning (msg : string) : Sh :=
  echo (YELLOW +:+ "[WARNING]" +:+ NC +:+ " " +:+ msg).
Definition log_error (msg : string) : Sh :=
  echo (RED +:+ "[ERROR]" +:+ NC +:+ " " +:+ msg).

(** [$(dirname $FILES_PATH)] and [$(basename $FILES_PATH)] *)
Definition FILES_DIRNAME := PROJECT_PATH +:+ "/data".
Definition FILES_BASENAME := "files".

(** *** Directory listings *)

(** The name under which [path] is an entry of [dir] that [ls] shows:
    names that start with a dot are hidden. *)
Definition entry_name (dir path : string) : option string :=
  match strip_prefix (dir +:+ "/") path with
  | Some name =>
      if bool_decide (name = "") || contains "/" name || String.prefix "." name
      then None else Some name
  | None => None
  end.

(** The regular files of [dir] that [ls] shows, with their names.  [ls]
    shows sub-directories too, which this listing does not: what is proved
    of a listing is proved for directories without sub-directories. *)
Definition ls (dir : string) (w : World) : list (string * File) :=
  omap (λ e, name ← entry_name dir e.1; Some (name, e.2))
       (map_to_list (files w)).

(** The order of [ls -t]: newest first, by name among equal times. *)
Definition newer_first (a b : string * File) : Prop :=
  mtime b.2 < mtime a.2 ∨ (mtime a.2 = mtime b.2 ∧ String.le a.1 b.1).

#[global] Instance newer_first_dec a b : Decision (newer_first a b).
Proof. unfold newer_first. apply _. Defined.

(** [ls -t dir]: one name per line. *)
Definition ls_t (dir : string) (w : World) : list string :=
  (merge_sort newer_first (ls dir w)).*1.

(** [tail -n +K] *)
Definition tail_from (K : nat) (lines : list string) : list string :=
  drop (K - 1) lines.

(** [head -n -K] *)
Definition head_but_last (K : nat) (lines : list string) : list string :=
  take (length lines - K) lines.

(** The members of the tree below [dir ++ "/" ++ base], by their path
    relative to [dir]. *)
Definition members (dir base : string) (w : World) : list (string * File) :=
  omap (λ e, rel ← strip_prefix (dir +:+ "/") e.1;
             if String.prefix (base +:+ "/") rel then Some (rel, e.2) else None)
       (map_to_list (files w)).

Section Script.

Variable E : Externals.

(** [$(date +%Y%m%d_%H%M%S)] *)
Definition date (w : World) : string := strftime E (clock w).

(** [sqlite3 "$path" "PRAGMA integrity_check;" | grep -q "ok"].  Both uses
    come right after the file at [path] was written. *)
Definition integrity_ok (path : string) (w : World) : bool :=
  match files w !! path with
  | Some f => contains "ok" (integrity_check E (content f))
  | None => false
  end.

(** [sqlite3 "$DATABASE_PATH" "PRAGMA wal_checkpoint(FULL);"]: the result
    row of the pragma goes to standard output, and a database file that
    is not there is created, empty. *)
Definition sqlite3_wal_checkpoint (path : string) : Sh :=
  λ w, let f := default (mkFile "" (clock w)) (files w !! path) in
       (Done 0,
        set_stdout (λ out, out ++ [checkpoint_row E (content f)])
          (set_files
             (insert path (mkFile (wal_checkpoint E (content f)) (mtime f))) w)).

(** [sqlite3 "$DATABASE_PATH" ".backup '${backup_path}'"] *)
Definition sqlite3_backup (path backup_path : string) : Sh :=
  λ w, (Done 0,
        set_files
          (insert backup_path
             (mkFile (backup_image E (content <$> files w !! path)) (clock w)))
          w).

Definition ensure_backup_dirs : Sh :=
  call "ensure_backup_dirs"
    (mkdir_p (BACKUP_BASE_PATH +:+ "/database");;
     mkdir_p (BACKUP_BASE_PATH +:+ "/files");;
     mkdir_p (BACKUP_BASE_PATH +:+ "/full");;
     mkdir_p (BACKUP_BASE_PATH +:+ "/logs")).

Definition generate_backup_name (prefix : string) : Sh :=
  call "generate_backup_name" (λ w, echo (prefix +:+ "_" +:+ date w) w).

(** Only ever called inside [$(...)], where bash does not apply [set -e];
    the one command of the body that can fail here, [rm -f], is followed
    by [exit 1], so [;;] reads the same. *)
Definition backup_database (backup_name : string) : Sh :=
  call "backup_database"
    (let backup_path :=
       BACKUP_BASE_PATH +:+ "/database/" +:+ backup_name +:+ ".db" in
     log_info ("Creating database backup: " +:+ backup_name);;
     sqlite3_wal_checkpoint DATABASE_PATH;;
     sqlite3_backup DATABASE_PATH backup_path;;
     if_ (integrity_ok backup_path)
       (log_success ("Database backup verified: " +:+ backup_name +:+ ".db");;
        echo backup_path)
       (log_error "Database backup integrity check failed";;
        rm_f backup_path;;
        exit_ 1)).

Definition backup_files (backup_name : string) : Sh :=
  call "backup_files"
    (let backup_path :=
       BACKUP_BASE_PATH +:+ "/files/" +:+ backup_name +:+ ".tar.gz" in
     log_info ("Creating files backup: " +:+ backup_name);;
     if_ (is_dir FILES_PATH)
       ((λ w, (Done 0,
               set_files
                 (insert backup_path
                    (mkFile (tar_czf E (members FILES_DIRNAME FILES_BASENAME w))
                       (clock w))) w));;
        log_success ("Files backup created: " +:+ backup_name +:+ ".tar.gz");;
        echo backup_path)
       (log_warning ("Files directory not found: " +:+ FILES_PATH);;
        return_ 1)).

Definition restore_database (backup_name : string) : Sh :=
  call "restore_database"
    (let backup_path :=
       BACKUP_BASE_PATH +:+ "/database/" +:+ backup_name +:+ ".db" in
     if_ (λ w, negb (is_file backup_path w))
       (log_error ("Database backup not found: " +:+ backup_path);;
        return_ 1)
       true_;;
     log_info ("Restoring database from: " +:+ backup_name);;
     or_true pm2_stop;;
     (λ w,
        let current_backup := DATABASE_PATH +:+ ".pre-restore-" +:+ date w in
        (cp DATABASE_PATH current_backup;;
         log_info ("Current database backed up to: " +:+ current_backup);;
         cp backup_path DATABASE_PATH;;
         if_ (integrity_ok DATABASE_PATH)
           (log_success "Database restored successfully";;
            or_true pm2_start;;
            if_ (is_file (PROJECT_PATH +:+ "/prisma/schema.prisma"))
              ((λ w, (Done (if is_dir PROJECT_PATH w then 0 else 1), w));; (* cd *)
               or_ (λ w, match files w !! DATABASE_PATH with
                         | Some f =>
                             match prisma_db_push E (content f) with
                             | Some c =>
                                 (Done 0,
                                  set_files
                                    (insert DATABASE_PATH (mkFile c (clock w))) w)
                             | None => (Done 1, w)
                             end
                         | None => (Done 1, w)
                         end)
                   (log_warning "Schema update failed"))
              true_)
           (log_error "Restored database integrity check failed, rolling back...";;
            cp current_backup DATABASE_PATH;;
            or_true pm2_start;;
            return_ 1)) w)).

(** [mv src dst] of a directory: every path below [src] moves below [dst],
    or below [dst/base] when [dst] is already a directory. *)
Definition rename_under (src dst path : string) : string :=
  if bool_decide (path = src) then dst
  else match strip_prefix (src +:+ "/") path with
       | Some rest => dst +:+ "/" +:+ rest
       | None => path
       end.

Definition mv_dir (src base dst : string) : Sh :=
  λ w, let dst := if is_dir dst w then dst +:+ "/" +:+ base else dst in
       (Done 0,
        set_dirs (set_map (rename_under src dst))
          (set_files
             (λ fs, list_to_map
                      ((λ e, (rename_under src dst e.1, e.2)) <$> map_to_list fs))
             w)).

(** [tar -xzf archive -C dir] *)
Definition tar_x (archive dir : string) : Sh :=
  λ w, match files w !! archive ≫= (λ f, tar_xzf E (content f)) with
       | Some (ds, ms) =>
           (Done 0,
            set_dirs (λ d, list_to_set ((λ p, dir +:+ "/" +:+ p) <$> ds) ∪ d)
              (set_files
                 (λ fs, foldr (λ e, insert (dir +:+ "/" +:+ e.1) e.2) fs ms) w))
       | None => (Done 2, w)
       end.

Definition restore_files (backup_name : string) : Sh :=
  call "restore_files"
    (let backup_path :=
       BACKUP_BASE_PATH +:+ "/files/" +:+ backup_name +:+ ".tar.gz" in
     if_ (λ w, negb (is_file backup_path w))
       (log_error ("Files backup not found: " +:+ backup_path);;
        return_ 1)
       true_;;
     log_info ("Restoring files from: " +:+ backup_name);;
     if_ (is_dir FILES_PATH)
       (λ w,
          let current_backup := FILES_PATH +:+ ".pre-restore-" +:+ date w in
          (mv_dir FILES_PATH FILES_BASENAME current_backup;;
           log_info ("Current files backed up to: " +:+ current_backup)) w)
       true_;;
     mkdir_p FILES_DIRNAME;;
     tar_x backup_path FILES_DIRNAME;;
     log_success "Files restored successfully").

(** A command whose output is the given lines. *)
Definition print_lines (lines : World → list string) : Sh :=
  λ w, (Done 0, set_stdout (λ out, out ++ lines w) w).

(** The order of [sort -k1,2] on the lines of [aws s3 ls]: by date and
    time, then by the rest of the line. *)
Definition older_first (a b : string * nat) : Prop :=
  a.2 < b.2 ∨ (a.2 = b.2 ∧ String.le a.1 b.1).

#[global] Instance older_first_dec a b : Decision (older_first a b).
Proof. unfold older_first. apply _. Defined.

(** The prefix of the bucket, [$(echo $CLOUD_BACKUP_PATH | cut -d'/' -f3-)]
    without the bucket name. *)
Definition CLOUD_PREFIX := "edutech-backups".

(** [command -v aws && aws s3 ls "$CLOUD_BACKUP_PATH"] *)
Definition aws_lists_backups (w : World) : bool :=
  match bucket w with
  | Some objects =>
      bool_decide (Exists (λ o, String.prefix CLOUD_PREFIX o.1 = true)
                     (map_to_list objects))
  | None => false
  end.

(** [aws s3 ls "$CLOUD_BACKUP_PATH/" --recursive | sort -k1,2
     | head -n -$MAX_CLOUD_BACKUPS | awk '{print $4}'] *)
Definition old_cloud_backups (w : World) : list string :=
  match bucket w with
  | Some objects =>
      let listed :=
        filter (λ o, String.prefix (CLOUD_PREFIX +:+ "/") o.1 = true)
               (map_to_list objects) in
      (λ key, hd "" (words key))
        <$> head_but_last MAX_CLOUD_BACKUPS (merge_sort older_first listed).*1
  | None => []
  end.

(** [aws s3 rm "s3://your-backup-bucket/edutech-backups/$backup"] *)
Definition aws_s3_rm (backup : string) : Sh :=
  λ w, (Done 0,
        set_bucket (fmap (delete (CLOUD_PREFIX +:+ "/" +:+ backup))) w).

(** The body of the loop over [$old_backups].  The unquoted [$old_backups]
    is split into words (see [cleanup_local]); the pathname expansion that
    bash applies to a word with [*], [?] or [[] in it is not modelled: what
    is proved of the loop is proved for names without these characters. *)
Definition delete_old_backup (dry_run backup_dir backup : string) : Sh :=
  if_ (λ _, String.eqb dry_run "true")
    (echo ("Would delete: " +:+ backup_dir +:+ "/" +:+ backup))
    (rm_f (backup_dir +:+ "/" +:+ backup);;
     log_info ("Deleted old backup: " +:+ backup)).

(** The body of the loop over the three backup types. *)
Definition cleanup_local (dry_run backup_type : string) : Sh :=
  let backup_dir := BACKUP_BASE_PATH +:+ "/" +:+ backup_type in
  if_ (is_dir backup_dir)
    (local_capture
       (print_lines (λ w, tail_from (MAX_LOCAL_BACKUPS + 1) (ls_t backup_dir w)))
       (λ old_backups,
          for_in (words old_backups) (delete_old_backup dry_run backup_dir)))
    true_.

(** The cloud part, "if configured". *)
Definition cleanup_cloud (dry_run : string) : Sh :=
  if_ aws_lists_backups
    (local_capture (print_lines old_cloud_backups)
       (λ old_cloud_backups,
          for_in (words old_cloud_backups) (λ backup,
            if_ (λ _, String.eqb dry_run "true")
              (echo ("Would delete from cloud: " +:+ backup))
              (aws_s3_rm backup;;
               log_info ("Deleted old cloud backup: " +:+ backup)))))
    true_.

Definition cleanup_backups (dry_run : string) : Sh :=
  call "cleanup_backups"
    (log_info ("Cleaning up old backups (keeping " +:+ pretty MAX_LOCAL_BACKUPS
               +:+ " local, " +:+ pretty MAX_CLOUD_BACKUPS +:+ " cloud)...");;
     for_in ["database"; "files"; "full"] (cleanup_local dry_run);;
     cleanup_cloud dry_run;;
     if_ (λ _, negb (String.eqb dry_run "true"))
       (log_success "Cleanup completed")
       true_).

(** The [while]/[case] loops over the flags: the last flag that names a
    value wins, anything else is shifted away. *)
Definition parse_backup_type (args : list string) : string :=
  foldl (λ backup_type arg,
           if String.eqb arg "--full" then "full"
           else if String.eqb arg "--db-only" then "database"
           else if String.eqb arg "--files-only" then "files"
           else backup_type) "full" args.

Definition parse_use_cloud (args : list string) : bool :=
  foldl (λ use_cloud arg, if String.eqb arg "--cloud" then true else use_cloud)
        false args.

Definition parse_restore_type (args : list string) : string :=
  foldl (λ restore_type arg,
           if String.eqb arg "--db-only" then "database"
           else if String.eqb arg "--files-only" then "files"
           else restore_type) "full" args.

Definition main (args : list string) : Sh :=
  call "main"
    match args with
    | [] => print_usage E;; exit_ 0
    | command :: args =>
      if String.eqb command "backup" then
        check_dependencies E args;;
        ensure_backup_dirs;;
        let backup_type := parse_backup_type args in
        let use_cloud := parse_use_cloud args in
        local_capture (generate_backup_name "backup") (λ backup_name,
          let upload := λ backup_path : string,
            if_ (λ _, use_cloud && negb (String.eqb backup_path ""))
              (upload_to_cloud E backup_path) true_ in
          if String.eqb backup_type "database" then
            assign_capture (backup_database backup_name) upload
          else if String.eqb backup_type "files" then
            assign_capture (backup_files backup_name) upload
          else if String.eqb backup_type "full" then
            assign_capture (backup_full E backup_name) upload
          else upload "")
      else if String.eqb command "restore" then
        match args with
        | [] => log_error "Please specify backup name";; exit_ 1
        | backup_name :: args =>
          let restore_type := parse_restore_type args in
          if String.eqb restore_type "database" then restore_database backup_name
          else if String.eqb restore_type "files" then restore_files backup_name
          else if String.eqb restore_type "full" then
            restore_database backup_name;;
            restore_files backup_name
          else true_
        end
      else if String.eqb command "list" then
        list_backups E
          match args with
          | arg :: _ =>
              if String.eqb arg "--local" then "local"
              else if String.eqb arg "--cloud" then "cloud"
              else "all"
          | [] => "all"
          end
      else if String.eqb command "cleanup" then
        cleanup_backups
          (if String.eqb (hd "" args) "--dry-run" then "true" else "false")
      else if String.eqb command "status" then show_status E
      else if String.eqb command "schedule" then
        match args with
        | [] => log_error "Use --enable or --disable";; exit_ 1
        | arg :: _ => manage_schedule E arg
        end
      else
        log_error ("Unknown command: " +:+ command);;
        print_usage E;;
        exit_ 1
    end.

(** The script as run: [main "$@"] is its last command, so it exits with
    the status [main] ends on. *)
Definition script (args : list string) (w : World) : nat * World :=
  let '(st, w') := main args w in (status_code st, w').

End Script.

End BackupRestore.

(** * What the theorems are stated with *)

Module MigratorSpec.
Import Text Migrator.

Definition assigned_ids (db : MongoDb) : list string :=
  (MongoTextbook._id <$> textbooks db) ++ (MongoPassageSet._id <$> passagesets db).
Definition keys_within (ids : list string) (m : Migrator) : Prop :=
  ∀ k, is_Some (idMapping m !! k) → k ∈ ids.
Definition resolvable (im : gmap string string) (q : MongoQuestion.t) : bool :=
  negb (not_ (im !! MongoQuestion.setId q)).

Definition started (m : Migrator) : Migrator :=
  set_console (λ c, c ++ [(LOG, "🚀 MongoDB to SQLite 마이그레이션 시작...")]) m.
Definition test_uuid (n : nat) : string := "u" +:+ pretty n.
Definition test_json (l : list string) : string := "[" +:+ String.concat "," l +:+ "]".
Definition test_config : MigrationConfig := mkConfig "" "" "" true "".
Definition empty_store : Prisma := mkPrisma [] [] [] [] [] [] true.

Definition count_lines (db : MongoDb) (p : Prisma) : list (Level * string) :=
  [(LOG, "교재: " +:+ pretty (length (textbooks db)) +:+ " → "
         +:+ pretty (length (textbook p)));
   (LOG, "지문세트: " +:+ pretty (length (passagesets db)) +:+ " → "
         +:+ pretty (length (passageSet p)));
   (LOG, "문제: " +:+ pretty (length (questions db)) +:+ " → "
         +:+ pretty (length (question p)));
   (LOG, "프롬프트: " +:+ pretty (length (systemprompts db)) +:+ " → "
         +:+ pretty (length (systemPrompt p)))].

Definition kind_labels (k : EntityKind) : list string :=
  match k with
  | KTextbook => ["textbooks"; "textbook"; "Textbook"; "교재"]
  | KPassageSet => ["passagesets"; "passageSet"; "PassageSet"; "지문세트"]
  | KQuestion => ["questions"; "question"; "Question"; "문제"]
  | KSystemPrompt => ["systemprompts"; "systemPrompt"; "SystemPrompt"; "프롬프트"]
  | KSystemPromptVersion =>
      ["systemprompversions"; "systemPromptVersion"; "SystemPromptVersion"; "버전"]
  end.

Definition names_mismatch (e : Error) (k : EntityKind) (source target : nat) : bool :=
  existsb (λ label, contains label (error_message e)) (kind_labels k)
  && contains (pretty source) (error_message e)
  && contains (pretty target) (error_message e).

Definition a_question (id setId : string) : MongoQuestion.t :=
  MongoQuestion.mk id setId 1 "q" ["a"; "b"] "a" "e" 0 0.
Definition a_textbook (id : string) : MongoTextbook.t :=
  MongoTextbook.mk id "title" "publisher" "subject" "level" "grade" 0 0.
Definition a_passageSet (id qr : string) (tbs : list string) : MongoPassageSet.t :=
  MongoPassageSet.mk id "title" "passage" "comment" qr tbs 0 0.

Definition orphan_db : MongoDb :=
  mkMongoDb [] [a_passageSet "p1" "qr1" []]
    [a_question "q1" "p1"; a_question "q2" "gone"] [] [].
Definition empty_db : MongoDb := mkMongoDb [] [] [] [] [].
Definition linked_db : MongoDb :=
  mkMongoDb [a_textbook "t1"] [a_passageSet "p1" "qr1" ["t1"; "t1"]]
    [a_question "q1" "p1"] [] [].
Definition store_with_old_version : Prisma :=
  mkPrisma [] [] [] []
    [SystemPromptVersion.mk "old" "tutor" "content" 1 "" "admin" 0] [] true.

(** The Mapper's bookkeeping, read off the ghost history. *)
Definition mapper_ok_on (uuidv4 : nat → string) (im : gmap string string)
    (calls : nat) (j : list Event) : Prop :=
  (∀ s t, Assigned s t ∈ j → ∃ n, n < calls ∧ t = uuidv4 n) ∧
  (∀ s s' t, Assigned s t ∈ j → Assigned s' t ∈ j → s = s') ∧
  (∀ k s t, Created k s t ∈ j → k = KTextbook ∨ k = KPassageSet →
     ∃ t', im !! s = Some t' ∧ Assigned s t' ∈ j).
Definition mapper_ok (uuidv4 : nat → string) (m : Migrator) : Prop :=
  mapper_ok_on uuidv4 (idMapping m) (uuid_calls m) (journal m).

(** What [establishRelationships] reads and does not write. *)
Definition link_frame (m0 m : Migrator) : Prop :=
  idMapping m = idMapping m0 ∧
  textbook (prisma m) = textbook (prisma m0) ∧
  passageSet (prisma m) = passageSet (prisma m0) ∧
  foreign_keys (prisma m) = foreign_keys (prisma m0).

Definition linked_migrator : Migrator :=
  mkMigrator (<["t1":="T"]> (<["p1":="P"]> ∅))
    (mkPrisma [Textbook.mk "T" "title" "publisher" "subject" "level" "grade" 0 0]
       [PassageSet.mk "P" "title" "passage" "comment" "qr1" 0 0] [] [] [] [] true)
    0 [] [].

(** A predicate on the state that a computation keeps, however it ends. *)
Definition invariant {A} (I : Migrator → Prop) (c : M A) : Prop :=
  ∀ m, I m → I (c m).2.

End MigratorSpec.

Module BackupRestoreSpec.
Import Text BackupRestore.

(** A name that the shell's word splitting leaves in one piece. *)
Definition no_ifs (s : string) : bool :=
  forallb (λ c, negb (is_ifs c)) (list_ascii_of_string s).

Definition BACKSLASH : ascii := ascii_of_nat 92.

Definition no_backslash (s : string) : bool :=
  forallb (λ c, negb (bool_decide (c = BACKSLASH))) (list_ascii_of_string s).



(** What [PRAGMA integrity_check] prints for a database without fault:
    the single row ok. *)
Definition sound_report : string := "ok".

(** The paths and lines that [backup_database] and [restore_database]
    compute. *)
Definition database_backup_path (backup_name : string) : string :=
  BACKUP_BASE_PATH +:+ "/database/" +:+ backup_name +:+ ".db".
Definition database_copy (E : Externals) (w : World) : string :=
  backup_image E
    (Some (wal_checkpoint E (default "" (content <$> files w !! DATABASE_PATH)))).
Definition backup_error_line : string :=
  RED +:+ "[ERROR]" +:+ NC +:+ " " +:+ "Database backup integrity check failed".
Definition safety_copy_path (E : Externals) (w : World) : string :=
  DATABASE_PATH +:+ ".pre-restore-" +:+ date E w.

(** What can be the name of a directory entry that [ls] shows. *)
Definition entry (n : string) : Prop :=
  n ≠ "" ∧ contains "/" n = false ∧ String.prefix "." n = false.

(** The loop of [cleanup_backups] over the backup types. *)
Definition backup_types : list string := ["database"; "files"; "full"].
Definition backup_dir_of (backup_type : string) : string :=
  BACKUP_BASE_PATH +:+ "/" +:+ backup_type.
Definition old_backups (backup_type : string) (w : World) : list string :=
  words (unlines (tail_from (MAX_LOCAL_BACKUPS + 1) (ls_t (backup_dir_of backup_type) w))).




(** A machine to run the script on: [sqlite3] reports a file as sound
    unless it holds the word corrupt, and the programs that are only
    called do nothing. *)
Definition test_externals : Externals :=
  mkExternals (λ n, "T" +:+ pretty n)
    (λ c, if contains "corrupt" c then "*** in database main ***" else "ok")
    (λ c, c) (λ _, "0|0|0") (λ o, default "" o) (λ c, Some c) (λ _, "tar")
    (λ _, Some ([], []))
    (λ _, true_) (λ _, true_) (λ _, true_) (λ _, true_) true_ (λ _, true_) true_.

(** The same machine with a [sqlite3] whose report on a file that holds
    the word corrupt names the table and the column at fault. *)
Definition naming_externals : Externals :=
  mkExternals (λ n, "T" +:+ pretty n)
    (λ c, if contains "corrupt" c then "NULL value in Textbook.title" else "ok")
    (λ c, c) (λ _, "0|0|0") (λ o, default "" o) (λ c, Some c) (λ _, "tar")
    (λ _, Some ([], []))
    (λ _, true_) (λ _, true_) (λ _, true_) (λ _, true_) true_ (λ _, true_) true_.

Definition test_world : World :=
  mkWorld
    (list_to_map
       [(DATABASE_PATH, mkFile "live" 5);
        (BACKUP_BASE_PATH +:+ "/database/b1.db", mkFile "corrupt" 1);
        (BACKUP_BASE_PATH +:+ "/database/b2.db", mkFile "good" 2);
        (BACKUP_BASE_PATH +:+ "/files/b2.tar.gz", mkFile "t" 2);
        (FILES_PATH +:+ "/a.png", mkFile "img" 1)])
    (list_to_set [BACKUP_BASE_PATH +:+ "/database"; FILES_PATH])
    None 7 true [] [].

Definition corrupt_world : World :=
  set_files (insert DATABASE_PATH (mkFile "corrupt" 5)) test_world.

(** MAX_LOCAL_BACKUPS + 5 database backups, written at times 0 to 34. *)
Definition crowded_world : World :=
  mkWorld
    (list_to_map
       ((λ n, (BACKUP_BASE_PATH +:+ "/database/b" +:+ pretty n +:+ ".db",
               mkFile "x" n)) <$> List.seq 0 (MAX_LOCAL_BACKUPS + 5)))
    (list_to_set [BACKUP_BASE_PATH +:+ "/database"])
    (Some (list_to_map [("edutech-backups/a", 1)])) 40 true [] [].

End BackupRestoreSpec.

(** * What the further theorems are stated with *)

Module PhaseSpec.
Import Text Migrator MigratorSpec.

(** The six tables of the target store. *)
Inductive Table :=
| TTextbook | TPassageSet | TQuestion | TSystemPrompt | TSystemPromptVersion
| TPassageSetTextbook.

(** The store without the rows of one table. *)
Definition clear_table (t : Table) : Prisma → Prisma :=
  match t with
  | TTextbook => update_textbook (λ _, [])
  | TPassageSet => update_passageSet (λ _, [])
  | TQuestion => update_question (λ _, [])
  | TSystemPrompt => update_systemPrompt (λ _, [])
  | TSystemPromptVersion => update_systemPromptVersion (λ _, [])
  | TPassageSetTextbook => update_passageSetTextbook (λ _, [])
  end.

(** A computation that, however it ends, has changed the rows of at most
    one table. *)
Definition writes_only {A} (t : Table) (c : M A) : Prop :=
  ∀ m, clear_table t (prisma (c m).2) = clear_table t (prisma m).

(** The last line of [migrate], on either way out. *)
Definition outcome_line (r : Result unit) : Level * string :=
  match r with
  | Ok _ => (LOG, "✅ 마이그레이션 완료!")
  | Throw e => (ERROR, "❌ 마이그레이션 실패: " +:+ error_message e)
  end.

(** The warning of [migrateQuestions] for a question it skips. *)
Definition skipped_question_line (q : MongoQuestion.t) : Level * string :=
  (WARN, "⚠️ 지문세트 ID를 찾을 수 없음: " +:+ MongoQuestion.setId q).

(** A junction row that the source asks for: the two identifiers are what
    the mapper holds for a passage set and for one of its textbooks. *)
Definition declared_link (db : MongoDb) (im : gmap string string)
    (row : PassageSetTextbook.t) : Prop :=
  ∃ ps tb, ps ∈ passagesets db ∧ tb ∈ MongoPassageSet.textbooks ps ∧
           im !! MongoPassageSet._id ps = Some (PassageSetTextbook.passageSetId row) ∧
           im !! tb = Some (PassageSetTextbook.textbookId row).

(** What [establishRelationships] has done to a state since [m]: the
    mapper is the same, and the junction table has gained rows that the
    source asks for. *)
Definition links_since (db : MongoDb) (m s : Migrator) : Prop :=
  idMapping s = idMapping m ∧
  ∃ added,
    passageSetTextbook (prisma s) = passageSetTextbook (prisma m) ++ added ∧
    ∀ row, row ∈ added → declared_link db (idMapping m) row.

End PhaseSpec.

Module ScriptSpec.
Import Text BackupRestore BackupRestoreSpec.

Definition files_backup_path (backup_name : string) : string :=
  BACKUP_BASE_PATH +:+ "/files/" +:+ backup_name +:+ ".tar.gz".

Definition schema_path : string := PROJECT_PATH +:+ "/prisma/schema.prisma".


(** The object stored under a key, if [aws] can be used and there is one. *)
Definition object (w : World) (key : string) : option nat :=
  bucket w ≫= (λ objects, objects !! key).

(** A machine without a live store. *)
Definition bare_world : World :=
  set_files (delete DATABASE_PATH) test_world.


(** A [tar] that reads every archive as the one of [test_world]'s files
    directory. *)
Definition archive_externals : Externals :=
  mkExternals (λ n, "T" +:+ pretty n)
    (λ c, if contains "corrupt" c then "*** in database main ***" else "ok")
    (λ c, c) (λ _, "0|0|0") (λ o, default "" o) (λ c, Some c) (λ _, "tar")
    (λ _, Some (["files"], [("files/a.png", mkFile "img" 1)]))
    (λ _, true_) (λ _, true_) (λ _, true_) (λ _, true_) true_ (λ _, true_) true_.

(** [test_world] after a files backup named b9, the picture having been
    deleted and another file written since. *)
Definition emptied_world : World :=
  set_files (λ fs, <[FILES_PATH +:+ "/b.png" := mkFile "new" 9]>
                     (delete (FILES_PATH +:+ "/a.png") fs))
    (backup_files archive_externals "b9" test_world).2.

(** A bucket with MAX_CLOUD_BACKUPS + 2 backups, uploaded at times 0 to 91. *)
Definition cloudy_world : World :=
  mkWorld ∅ ∅
    (Some (list_to_map
             ((λ n, (CLOUD_PREFIX +:+ "/b" +:+ pretty n, n))
                <$> List.seq 0 (MAX_CLOUD_BACKUPS + 2))))
    100 true [] [].

End ScriptSpec.

(** * The migration script *)

Module MigratorProofs.
Import Text Migrator MigratorSpec.

(** **** Running the monad *)

Lemma bind_run {A B} (c : M A) (k : A → M B) m :
  bind c k m = match c m with
               | (Ok a, m') => k a m'
               | (Throw e, m') => (Throw e, m')
               end.
Proof. reflexivity. Qed.

Lemma bind_ok {A B} (c : M A) (k : A → M B) m b m' :
  bind c k m = (Ok b, m') →
  ∃ a m1, c m = (Ok a, m1) ∧ k a m1 = (Ok b, m').
Proof.
  rewrite bind_run. destruct (c m) as [[a|e] m1]; [eauto | discriminate].
Qed.

Lemma bind_throw {A B} (c : M A) (k : A → M B) m e m' :
  bind c k m = (Throw e, m') →
  c m = (Throw e, m') ∨ ∃ a m1, c m = (Ok a, m1) ∧ k a m1 = (Throw e, m').
Proof.
  rewrite bind_run. destruct (c m) as [[a|e'] m1]; [eauto | left; congruence].
Qed.

(** A loop keeps what each round keeps, however it ends. *)
Lemma for_of_keeps {A S} (I : Migrator → Prop) (xs : list A)
    (body : A → S → M S) :
  (∀ x a m, x ∈ xs → I m → I (body x a m).2) →
  ∀ acc m, I m → I (for_of xs body acc m).2.
Proof.
  induction xs as [|x xs IH]; intros Hbody acc m Hm; [exact Hm|].
  simpl. rewrite bind_run.
  pose proof (Hbody x acc m ltac:(left) Hm) as Hx.
  destruct (body x acc m) as [[a|e] m1]; simpl in *; [|exact Hx].
  apply IH; [|exact Hx]. intros; apply Hbody; [by right | done].
Qed.

(** A loop that ends well has gone through every round. *)
Lemma for_of_ok {A S} (I : list A → Migrator → Prop) (xs : list A)
    (body : A → S → M S) :
  (∀ x rest a m a' m',
      I (x :: rest) m → body x a m = (Ok a', m') → I rest m') →
  ∀ acc m a' m', I xs m → for_of xs body acc m = (Ok a', m') → I [] m'.
Proof.
  intros Hbody. induction xs as [|x xs IH]; intros acc m a' m' Hm Hrun.
  - injection Hrun as _ <-. exact Hm.
  - simpl in Hrun. apply bind_ok in Hrun as (a1 & m1 & H1 & H2).
    eapply IH; [|exact H2]. eapply Hbody; eauto.
Qed.

(** A loop whose rounds never throw never throws. *)
Lemma for_of_total {A S} (xs : list A) (body : A → S → M S) :
  (∀ x a m, ∃ a' m', body x a m = (Ok a', m')) →
  ∀ acc m, ∃ a' m', for_of xs body acc m = (Ok a', m').
Proof.
  intros Hbody. induction xs as [|x xs IH]; intros acc m; [by eexists _, _|].
  simpl. rewrite bind_run. destruct (Hbody x acc m) as (a1 & m1 & ->). apply IH.
Qed.

(** **** State predicates kept by a computation, however it ends *)

Lemma invariant_run {A} (I : Migrator → Prop) (c : M A) m r m' :
  invariant I c → c m = (r, m') → I m → I m'.
Proof. intros Hc Hrun Hm. specialize (Hc m Hm). by rewrite Hrun in Hc. Qed.

Lemma invariant_bind {A B} I (c : M A) (k : A → M B) :
  invariant I c → (∀ a, invariant I (k a)) → invariant I (bind c k).
Proof.
  intros Hc Hk m Hm. rewrite bind_run. specialize (Hc m Hm).
  destruct (c m) as [[a|e] m1]; simpl in *; [by apply Hk | done].
Qed.

Lemma invariant_for_of {A S} I (xs : list A) (body : A → S → M S) acc :
  (∀ x a, x ∈ xs → invariant I (body x a)) → invariant I (for_of xs body acc).
Proof. intros Hbody m Hm. apply for_of_keeps; [|done]. intros; by apply Hbody. Qed.

Lemma invariant_try_catch {A} I (c : M A) h :
  invariant I c → (∀ e, invariant I (h e)) → invariant I (try_catch c h).
Proof.
  intros Hc Hh m Hm. unfold try_catch. specialize (Hc m Hm).
  destruct (c m) as [[a|e] m1]; simpl in *; [done | by apply Hh].
Qed.

Lemma invariant_when I (b : bool) (c : M unit) :
  invariant I c → invariant I (when b c).
Proof. intros Hc. destruct b; [done | by intros m Hm]. Qed.

Lemma invariant_create I violation insert_row :
  (∀ m, I m → violation (prisma m) = None → I (set_prisma insert_row m)) →
  invariant I (create violation insert_row).
Proof.
  intros H m Hm. unfold create.
  destruct (violation (prisma m)) eqn:Hv; simpl; [done | by apply H].
Qed.

(** Decomposes a goal [invariant I c] along the structure of [c]; what is
    left are the steps that do touch what [I] reads. *)
Ltac invariant_step :=
  first
    [ apply invariant_bind; [|intros ?]
    | apply invariant_for_of; intros ? ? ?
    | apply invariant_try_catch; [|intros ?]
    | apply invariant_when
    | apply invariant_create; intros ? ? ?
    | match goal with |- invariant _ (if ?b then _ else _) => destruct b end
    | match goal with |- invariant _ (match ?o with _ => _ end) => destruct o end
    | by intros ? ? ].
Ltac invariant_steps := repeat invariant_step; simpl; try done.

Section Facts.
Variable uuidv4 : nat → string.
Variable JSON_stringify : list string → string.


(** Each phase writes to one table only: whatever is read off the others
    is kept. *)
Lemma migrateTextbooks_frame {T} (f : Prisma → T) v db :
  (∀ g p, f (update_textbook g p) = f p) →
  invariant (λ m, f (prisma m) = v) (migrateTextbooks uuidv4 db).
Proof.
  intros Hf. unfold migrateTextbooks, assign, uuid, idMapping_set, textbook_create.
  invariant_steps. by rewrite Hf.
Qed.

Lemma migratePassageSets_frame {T} (f : Prisma → T) v db :
  (∀ g p, f (update_passageSet g p) = f p) →
  invariant (λ m, f (prisma m) = v) (migratePassageSets uuidv4 db).
Proof.
  intros Hf.
  unfold migratePassageSets, assign, uuid, idMapping_set, passageSet_create.
  invariant_steps. by rewrite Hf.
Qed.

Lemma migrateQuestions_frame {T} (f : Prisma → T) v db :
  (∀ g p, f (update_question g p) = f p) →
  invariant (λ m, f (prisma m) = v) (migrateQuestions uuidv4 JSON_stringify db).
Proof.
  intros Hf. unfold migrateQuestions, uuid, idMapping_get, question_create.
  invariant_steps. by rewrite Hf.
Qed.

Lemma migrateSystemPrompts_frame {T} (f : Prisma → T) v db :
  (∀ g p, f (update_systemPrompt g p) = f p) →
  invariant (λ m, f (prisma m) = v) (migrateSystemPrompts uuidv4 db).
Proof.
  intros Hf. unfold migrateSystemPrompts, uuid, systemPrompt_create.
  invariant_steps. by rewrite Hf.
Qed.

Lemma migrateSystemPromptVersions_frame {T} (f : Prisma → T) v db :
  (∀ g p, f (update_systemPromptVersion g p) = f p) →
  invariant (λ m, f (prisma m) = v) (migrateSystemPromptVersions uuidv4 db).
Proof.
  intros Hf. unfold migrateSystemPromptVersions, uuid, systemPromptVersion_create.
  invariant_steps. by rewrite Hf.
Qed.

Lemma establishRelationships_frame {T} (f : Prisma → T) v db :
  (∀ g p, f (update_passageSetTextbook g p) = f p) →
  invariant (λ m, f (prisma m) = v) (establishRelationships db).
Proof.
  intros Hf. unfold establishRelationships, link_passageSet, link_textbook, idMapping_get,
    passageSetTextbook_create.
  invariant_steps. by rewrite Hf.
Qed.

Lemma setupConnections_frame {T} (f : Prisma → T) v mongo up :
  (∀ g p, f (update_foreign_keys g p) = f p) →
  invariant (λ m, f (prisma m) = v) (setupConnections mongo up).
Proof.
  intros Hf. unfold setupConnections. invariant_steps.
  intros m0 Hm. simpl. by rewrite Hf.
Qed.

Lemma setupConnections_idMapping v mongo up :
  invariant (λ m, idMapping m = v) (setupConnections mongo up).
Proof. unfold setupConnections. invariant_steps. Qed.

(** The phases after the first two only read [idMapping]. *)
Lemma migrateQuestions_idMapping v db :
  invariant (λ m, idMapping m = v) (migrateQuestions uuidv4 JSON_stringify db).
Proof.
  unfold migrateQuestions, uuid, idMapping_get, question_create. invariant_steps.
Qed.

(** [idMapping] only ever receives source identifiers of the two
    collections that go through [assign]. *)
Lemma assign_keys_T db :
  invariant (keys_within (assigned_ids db)) (migrateTextbooks uuidv4 db).
Proof.
  unfold migrateTextbooks, assign, uuid, idMapping_set, textbook_create.
  invariant_steps.
  intros m Hm k. simpl. rewrite lookup_insert. case_decide; [|by apply Hm].
  intros _. subst k. apply elem_of_app. left. by apply list_elem_of_fmap_2.
Qed.

Lemma assign_keys_PS db :
  invariant (keys_within (assigned_ids db)) (migratePassageSets uuidv4 db).
Proof.
  unfold migratePassageSets, assign, uuid, idMapping_set, passageSet_create.
  invariant_steps.
  intros m Hm k. simpl. rewrite lookup_insert. case_decide; [|by apply Hm].
  intros _. subst k. apply elem_of_app. right. by apply list_elem_of_fmap_2.
Qed.

(** A run of the question loop that ends well has written one row per
    question whose [setId] the mapper resolves, and skipped the others. *)
Lemma migrateQuestions_count db m m' :
  migrateQuestions uuidv4 JSON_stringify db m = (Ok tt, m') →
  idMapping m' = idMapping m ∧
  length (question (prisma m')) =
    length (question (prisma m))
    + length (filter (λ q, resolvable (idMapping m) q) (questions db)).
Proof.
  unfold migrateQuestions. intros Hrun.
  apply bind_ok in Hrun as ([] & m1 & Hlog & Hrun).
  apply bind_ok in Hrun as (count & m2 & Hloop & Hend).
  injection Hlog as <-. injection Hend as <-.
  set (I := λ (rest : list MongoQuestion.t) (s : Migrator),
    idMapping s = idMapping m ∧
    length (question (prisma s)) + length (filter (λ q, resolvable (idMapping m) q) rest)
    = length (question (prisma m))
      + length (filter (λ q, resolvable (idMapping m) q) (questions db))).
  enough (I [] m2) as [Him Hlen].
  { split; [exact Him|]. simpl in *. rewrite <- Hlen. simpl. lia. }
  eapply (for_of_ok I); cycle 2; [exact Hloop| |split; reflexivity].
  clear. intros q rest a s a' s' [Him Hlen] Hbody.
  unfold uuid, idMapping_get, gets in Hbody. rewrite bind_run in Hbody.
  simpl in Hbody. rewrite bind_run in Hbody. simpl in Hbody.
  rewrite Him in Hbody.
  destruct (not_ (idMapping m !! MongoQuestion.setId q)) eqn:Hq; simpl in Hbody.
  - rewrite filter_cons_False in Hlen by (unfold resolvable; rewrite Hq; simpl; tauto).
    injection Hbody as _ <-. split; [done|]. simpl. exact Hlen.
  - rewrite filter_cons_True in Hlen by (unfold resolvable; rewrite Hq; simpl; tauto).
    apply bind_ok in Hbody as ([] & s1 & Hcreate & Hrest).
    unfold question_create, create in Hcreate. simpl in Hcreate.
    destruct (constraint_violation _ _ _ _); [discriminate|].
    injection Hcreate as <-.
    assert (idMapping s' = idMapping s ∧
            length (question (prisma s')) = S (length (question (prisma s))))
      as [Him' Hlen'].
    { unfold when in Hrest. rewrite !bind_run in Hrest. simpl in Hrest.
      destruct (_ =? _)%nat; simpl in Hrest; injection Hrest as _ <-; simpl;
        rewrite length_app; simpl; split; (done || lia). }
    split; [congruence|]. rewrite Hlen'. simpl in Hlen. lia.
Qed.

Lemma migrateSystemPromptVersions_count db m m' :
  migrateSystemPromptVersions uuidv4 db m = (Ok tt, m') →
  length (systemPromptVersion (prisma m')) =
    length (systemPromptVersion (prisma m)) + length (systemprompversions db).
Proof.
  unfold migrateSystemPromptVersions. intros Hrun.
  apply bind_ok in Hrun as ([] & m1 & Hlog & Hrun).
  apply bind_ok in Hrun as (count & m2 & Hloop & Hend).
  injection Hlog as <-. injection Hend as <-.
  set (I := λ (rest : list MongoSystemPromptVersion.t) (s : Migrator),
    length (systemPromptVersion (prisma s)) + length rest
    = length (systemPromptVersion (prisma m)) + length (systemprompversions db)).
  enough (I [] m2) as Hlen by (unfold I in Hlen; simpl in *; lia).
  eapply (for_of_ok I); cycle 2; [exact Hloop| |reflexivity].
  clear. intros v rest a s a' s' Hlen Hbody.
  unfold uuid in Hbody. rewrite bind_run in Hbody. simpl in Hbody.
  apply bind_ok in Hbody as ([] & s1 & Hcreate & Hrest).
  unfold systemPromptVersion_create, create in Hcreate. simpl in Hcreate.
  destruct (constraint_violation _ _ _ _); [discriminate|].
  injection Hcreate as <-. injection Hrest as _ <-.
  unfold I in *. simpl in *. rewrite length_app. simpl. lia.
Qed.

(** What [verifyMigration] decides. *)
Lemma verifyMigration_prisma db v :
  invariant (λ m, prisma m = v) (verifyMigration db).
Proof. unfold verifyMigration. invariant_steps. Qed.

Lemma stats_eq_dec (a b : Stats) : {a = b} + {a ≠ b}.
Proof. decide equality; apply Nat.eq_dec. Qed.

Lemma verifyMigration_result db m :
  (verifyMigration db m).1 =
    if stats_eq_dec (mongoStats db) (sqliteStats (prisma m))
    then Ok tt else Throw (JsError count_mismatch_message).
Proof.
  unfold verifyMigration. rewrite !bind_run. cbn -[count_mismatch_message].
  unfold mongoStats, sqliteStats.
  destruct (stats_eq_dec _ _) as [Heq|Hne].
  - injection Heq as -> -> -> ->. by rewrite !Nat.eqb_refl.
  - destruct (Nat.eqb_spec (length (textbooks db)) (length (textbook (prisma m))));
      [|done].
    destruct (Nat.eqb_spec (length (passagesets db)) (length (passageSet (prisma m))));
      [|done].
    destruct (Nat.eqb_spec (length (questions db)) (length (question (prisma m))));
      [|done].
    destruct (Nat.eqb_spec (length (systemprompts db))
                (length (systemPrompt (prisma m)))); [|done].
    exfalso. apply Hne. congruence.
Qed.

Lemma frame_run {A T} (c : M A) (f : Migrator → T) m r m' :
  (∀ v, invariant (λ m, f m = v) c) → c m = (r, m') → f m' = f m.
Proof. intros Hc Hrun. by eapply (invariant_run _ _ _ _ _ (Hc (f m)) Hrun). Qed.

Lemma prelude_frame {T} (f : Migrator → T) config v :
  (∀ g m, f (set_console g m) = f m) →
  invariant (λ m, f m = v)
    (when (backup_enabled config) backupExistingData;; initializeSQLite).
Proof.
  intros Hf. unfold backupExistingData, initializeSQLite, console_log.
  invariant_steps; intros m Hm; simpl; by rewrite Hf.
Qed.

(** What a run knows once steps 1 to 5 have all gone through. *)
Lemma steps_1_to_5_ok config mongo up m db m1 :
  steps_1_to_5 uuidv4 JSON_stringify config mongo up m = (Ok db, m1) →
  mongo = Some db ∧
  length (systemPromptVersion (prisma m1)) =
    length (systemPromptVersion (prisma m)) + length (systemprompversions db) ∧
  ∃ im : gmap string string,
    (keys_within (assigned_ids db) m → ∀ k, is_Some (im !! k) → k ∈ assigned_ids db) ∧
    length (question (prisma m1)) =
      length (question (prisma m))
      + length (filter (λ q, resolvable im q) (questions db)).
Proof.
  unfold steps_1_to_5. intros H.
  apply bind_ok in H as (db' & s1 & Hsetup & H).
  apply bind_ok in H as ([] & s2 & Hbackup & H).
  apply bind_ok in H as ([] & s3 & Hinit & H).
  apply bind_ok in H as ([] & s4 & HT & H).
  apply bind_ok in H as ([] & s5 & HP & H).
  apply bind_ok in H as ([] & s6 & HQ & H).
  apply bind_ok in H as ([] & s7 & HS & H).
  apply bind_ok in H as ([] & s8 & HV & H).
  apply bind_ok in H as ([] & s9 & HR & H).
  injection H as <- <-.
  assert (mongo = Some db') as ->.
  { unfold setupConnections in Hsetup. apply bind_ok in Hsetup as (? & ? & _ & Hs).
    destruct mongo as [db0|]; [|discriminate]. destruct up; [|discriminate].
    apply bind_ok in Hs as (? & ? & _ & Hs). by injection Hs as <- _. }
  assert (Hprelude : when (backup_enabled config) backupExistingData s1 = (Ok tt, s2)
                     → initializeSQLite s2 = (Ok tt, s3)
                     → (when (backup_enabled config) backupExistingData;;
                        initializeSQLite) s1 = (Ok tt, s3)).
  { intros H1 H2. by rewrite bind_run, H1. }
  specialize (Hprelude Hbackup Hinit).
  split; [done|]. split.
  - apply migrateSystemPromptVersions_count in HV.
    pose proof (frame_run _ (λ m, systemPromptVersion (prisma m)) _ _ _
      (λ v, setupConnections_frame systemPromptVersion v _ _ ltac:(done)) Hsetup) as E1.
    pose proof (frame_run _ (λ m, systemPromptVersion (prisma m)) _ _ _
      (λ v, prelude_frame (λ m, systemPromptVersion (prisma m)) _ v ltac:(done)) Hprelude) as E3.
    pose proof (frame_run _ (λ m, systemPromptVersion (prisma m)) _ _ _
      (λ v, migrateTextbooks_frame systemPromptVersion v _ ltac:(done)) HT) as E4.
    pose proof (frame_run _ (λ m, systemPromptVersion (prisma m)) _ _ _
      (λ v, migratePassageSets_frame systemPromptVersion v _ ltac:(done)) HP) as E5.
    pose proof (frame_run _ (λ m, systemPromptVersion (prisma m)) _ _ _
      (λ v, migrateQuestions_frame systemPromptVersion v _ ltac:(done)) HQ) as E6.
    pose proof (frame_run _ (λ m, systemPromptVersion (prisma m)) _ _ _
      (λ v, migrateSystemPrompts_frame systemPromptVersion v _ ltac:(done)) HS) as E7.
    pose proof (frame_run _ (λ m, systemPromptVersion (prisma m)) _ _ _
      (λ v, establishRelationships_frame systemPromptVersion v _ ltac:(done)) HR) as E9.
    clear - HV E1 E3 E4 E5 E6 E7 E9. simpl in *. congruence.
  - exists (idMapping s5). split.
    + intros Hkeys.
      assert (idMapping s1 = idMapping m) as E1
        by exact (frame_run _ idMapping _ _ _
                    (λ v, setupConnections_idMapping v _ _) Hsetup).
      assert (idMapping s3 = idMapping s1) as E3
        by exact (frame_run _ idMapping _ _ _
                    (λ v, prelude_frame idMapping _ v (λ _ _, eq_refl)) Hprelude).
      assert (keys_within (assigned_ids db') s3) as K3.
      { intros k Hk. apply Hkeys. by rewrite <- E1, <- E3. }
      pose proof (invariant_run _ _ _ _ _ (assign_keys_T db') HT K3) as K4.
      exact (invariant_run _ _ _ _ _ (assign_keys_PS db') HP K4).
    + apply migrateQuestions_count in HQ as [_ HQ].
      pose proof (frame_run _ (λ m, question (prisma m)) _ _ _
        (λ v, setupConnections_frame question v _ _ ltac:(done)) Hsetup) as E1.
      pose proof (frame_run _ (λ m, question (prisma m)) _ _ _
        (λ v, prelude_frame (λ m, question (prisma m)) _ v ltac:(done)) Hprelude) as E3.
      pose proof (frame_run _ (λ m, question (prisma m)) _ _ _
        (λ v, migrateTextbooks_frame question v _ ltac:(done)) HT) as E4.
      pose proof (frame_run _ (λ m, question (prisma m)) _ _ _
        (λ v, migratePassageSets_frame question v _ ltac:(done)) HP) as E5.
      pose proof (frame_run _ (λ m, question (prisma m)) _ _ _
        (λ v, migrateSystemPrompts_frame question v _ ltac:(done)) HS) as E7.
      pose proof (frame_run _ (λ m, question (prisma m)) _ _ _
        (λ v, migrateSystemPromptVersions_frame question v _ ltac:(done)) HV) as E8.
      pose proof (frame_run _ (λ m, question (prisma m)) _ _ _
        (λ v, establishRelationships_frame question v _ ltac:(done)) HR) as E9.
      clear - HQ E1 E3 E4 E5 E7 E8 E9. simpl in *. congruence.
Qed.

(** [migrate], by the way steps 1 to 5 and the verification end. *)
Lemma migrate_run config mongo up m :
  migrate uuidv4 JSON_stringify config mongo up m =
    match steps_1_to_5 uuidv4 JSON_stringify config mongo up (started m) with
    | (Ok db, m1) =>
        match verifyMigration db m1 with
        | (Ok _, m2) => (Ok tt, set_console (λ c, c ++ [(LOG, "✅ 마이그레이션 완료!")]) m2)
        | (Throw e, m2) =>
            (Throw e,
             set_console
               (λ c, c ++ [(ERROR, "❌ 마이그레이션 실패: " +:+ error_message e)]) m2)
        end
    | (Throw e, m1) =>
        (Throw e,
         set_console
           (λ c, c ++ [(ERROR, "❌ 마이그레이션 실패: " +:+ error_message e)]) m1)
    end.
Proof.
  unfold migrate, try_finally, try_catch, cleanup. rewrite bind_run.
  change (console_log _ m) with (Ok tt, started m). cbv beta iota.
  rewrite bind_run.
  destruct (steps_1_to_5 _ _ _ _ _ _) as [[db|e] m1]; [|reflexivity].
  rewrite bind_run. destruct (verifyMigration db m1) as [[[]|e] m2]; reflexivity.
Qed.

Lemma filter_length_lt {A} (P : A → Prop) `{∀ x, Decision (P x)} (l : list A) x :
  x ∈ l → ¬ P x → length (filter P l) < length l.
Proof.
  induction l as [|y l IH]; intros Hin Hx; [by apply elem_of_nil in Hin|].
  apply elem_of_cons in Hin as [<-|Hin].
  - rewrite filter_cons_False by done. simpl.
    pose proof (length_filter P l). lia.
  - specialize (IH Hin Hx). rewrite filter_cons. destruct (decide (P y)); simpl; lia.
Qed.

Lemma verifyMigration_state db m :
  prisma (verifyMigration db m).2 = prisma m ∧
  ∀ line, line ∈ count_lines db (prisma m) → line ∈ console (verifyMigration db m).2.
Proof.
  split.
  - exact (invariant_run (λ s, prisma s = prisma m) _ m _ _
             (verifyMigration_prisma db _) (surjective_pairing _) eq_refl).
  - intros line Hline. unfold verifyMigration. rewrite !bind_run.
    cbn -[count_mismatch_message pretty String.append].
    match goal with |- context [if ?c then _ else _] => destruct c end;
      cbn -[pretty String.append]; unfold count_lines in Hline;
      rewrite !elem_of_cons in Hline; rewrite !elem_of_app, !elem_of_cons;
      destruct Hline as [->|[->|[->|[->|Hnil]]]];
      try (by apply elem_of_nil in Hnil); auto 20.
Qed.

Lemma count_mismatch_rejects config mongo up m db m1 :
  steps_1_to_5 uuidv4 JSON_stringify config mongo up (started m) = (Ok db, m1) →
  mongoStats db ≠ sqliteStats (prisma m1) →
  (verifyMigration db m1).1 = Throw (JsError count_mismatch_message) ∧
  prisma (verifyMigration db m1).2 = prisma m1 ∧
  (∀ line, line ∈ count_lines db (prisma m1) →
           line ∈ console (verifyMigration db m1).2) ∧
  (migrate uuidv4 JSON_stringify config mongo up m).1
    = Throw (JsError count_mismatch_message).
Proof.
  intros Hsteps Hne.
  assert ((verifyMigration db m1).1 = Throw (JsError count_mismatch_message)) as Hv.
  { rewrite verifyMigration_result. by destruct (stats_eq_dec _ _). }
  destruct (verifyMigration_state db m1) as [Hp Hc].
  repeat split; try done.
  rewrite migrate_run, Hsteps.
  destruct (verifyMigration db m1) as [r m2]. simpl in Hv. by subst r.
Qed.

(** C3 (as amended). Whenever a run reaches [verifyMigration] with a source
    count that differs from the target count for one of the four compared
    kinds, [verifyMigration] throws the one fixed [Error] of the script
    (the same for every kind and every pair of counts), having printed the
    per-kind counts of both stores as console lines and left the store as
    it was, and [migrate] rejects with that same error: the run as a whole
    fails. *)
Theorem C3_count_mismatch_fails_the_run config mongo up m db m1 :
  steps_1_to_5 uuidv4 JSON_stringify config mongo up (started m) = (Ok db, m1) →
  mongoStats db ≠ sqliteStats (prisma m1) →
  (verifyMigration db m1).1 = Throw (JsError count_mismatch_message) ∧
  prisma (verifyMigration db m1).2 = prisma m1 ∧
  (∀ line, line ∈ count_lines db (prisma m1) →
           line ∈ console (verifyMigration db m1).2) ∧
  (migrate uuidv4 JSON_stringify config mongo up m).1
    = Throw (JsError count_mismatch_message).
Proof. apply count_mismatch_rejects. Qed.

(** C2 (as amended). For every run that completes successfully, the source
    count equals the target count for each of the four kinds that
    [verifyMigration] compares (Textbook, PassageSet, Question,
    SystemPrompt); SystemPromptVersion is not compared, and its table holds
    the rows it held before the run plus one per source version.  And
    when the target held no Question before the run, a source with a
    Question whose [setId] the mapper cannot resolve never completes
    successfully: a run that reaches the verification fails there with the
    count-mismatch error. *)
Theorem C2_counts_reconciled_for_compared_kinds config mongo up target :
  (∀ m', migrate uuidv4 JSON_stringify config mongo up (new_migrator target)
           = (Ok tt, m') →
     ∃ db, mongo = Some db ∧
       length (textbooks db) = length (textbook (prisma m')) ∧
       length (passagesets db) = length (passageSet (prisma m')) ∧
       length (questions db) = length (question (prisma m')) ∧
       length (systemprompts db) = length (systemPrompt (prisma m')) ∧
       length (systemPromptVersion (prisma m')) =
         length (systemPromptVersion target) + length (systemprompversions db)) ∧
  (∀ db q, mongo = Some db → question target = [] →
     q ∈ questions db → MongoQuestion.setId q ∉ assigned_ids db →
     (migrate uuidv4 JSON_stringify config mongo up (new_migrator target)).1 ≠ Ok tt ∧
     ∀ db' m1,
       steps_1_to_5 uuidv4 JSON_stringify config mongo up
         (started (new_migrator target)) = (Ok db', m1) →
       (migrate uuidv4 JSON_stringify config mongo up (new_migrator target)).1
         = Throw (JsError count_mismatch_message)).
Proof.
  split.
  - intros m' Hrun. rewrite migrate_run in Hrun.
    destruct (steps_1_to_5 _ _ _ _ _ _) as [[db|e] m1] eqn:Hsteps; [|discriminate].
    pose proof (verifyMigration_result db m1) as Hres.
    destruct (verifyMigration_state db m1) as [Hp _].
    destruct (verifyMigration db m1) as [[[]|e] m2]; [|discriminate].
    injection Hrun as <-. simpl in *.
    destruct (stats_eq_dec _ _) as [Heq|]; [|discriminate].
    apply steps_1_to_5_ok in Hsteps as (-> & Hver & _).
    exists db. rewrite Hp. injection Heq as -> -> -> ->.
    repeat split; done.
  - intros db q -> Hempty Hq Horphan.
    assert (∀ db' m1,
      steps_1_to_5 uuidv4 JSON_stringify config (Some db) up
        (started (new_migrator target)) = (Ok db', m1) →
      (migrate uuidv4 JSON_stringify config (Some db) up (new_migrator target)).1
        = Throw (JsError count_mismatch_message)) as Hfail.
    { intros db' m1 Hsteps.
      refine (proj2 (proj2 (proj2
        (count_mismatch_rejects _ _ _ _ _ _ Hsteps _)))).
      apply steps_1_to_5_ok in Hsteps as (Hdb & _ & im & Hkeys & Hlen).
      injection Hdb as <-.
      assert (¬ resolvable im q) as Hnot.
      { unfold resolvable. destruct (im !! MongoQuestion.setId q) eqn:Him; [|cbv; tauto].
        exfalso. apply Horphan. apply Hkeys; [|by eexists].
        intros k [v Hk]. simpl in Hk. by rewrite lookup_empty in Hk. }
      pose proof (filter_length_lt (λ q, resolvable im q) _ _ Hq Hnot) as Hlt.
      simpl in Hlen. rewrite Hempty in Hlen. simpl in Hlen.
      intros Heq. unfold mongoStats, sqliteStats in Heq. injection Heq as _ _ Hq' _.
      lia. }
    split; [|exact Hfail].
    intros Hok. rewrite migrate_run in Hok, Hfail.
    destruct (steps_1_to_5 _ _ _ _ _ _) as [[db'|e] m1]; [|discriminate].
    specialize (Hfail _ _ eq_refl). congruence.
Qed.

(** **** The Mapper's bookkeeping *)

Section Mapper.
Hypothesis uuidv4_inj : ∀ n n', uuidv4 n = uuidv4 n' → n = n'.

Lemma mapper_ok_assign im calls j s :
  mapper_ok_on uuidv4 im calls j →
  mapper_ok_on uuidv4 (<[s:=uuidv4 calls]> im) (S calls)
    (j ++ [Assigned s (uuidv4 calls)]).
Proof.
  intros (J1 & J2 & J3). repeat split.
  - intros s0 t [Hin|Hin]%elem_of_app.
    + destruct (J1 _ _ Hin) as (n & Hn & ->). exists n. split; [lia|done].
    + apply list_elem_of_singleton in Hin. injection Hin as -> ->.
      exists calls. split; [lia|done].
  - intros s1 s2 t [H1|H1]%elem_of_app [H2|H2]%elem_of_app.
    + eauto.
    + apply list_elem_of_singleton in H2. injection H2 as -> ->.
      destruct (J1 _ _ H1) as (n & Hn & Heq). apply uuidv4_inj in Heq. lia.
    + apply list_elem_of_singleton in H1. injection H1 as -> ->.
      destruct (J1 _ _ H2) as (n & Hn & Heq). apply uuidv4_inj in Heq. lia.
    + apply list_elem_of_singleton in H1, H2. congruence.
  - intros k s0 t [Hin|Hin]%elem_of_app Hk.
    + destruct (decide (s = s0)) as [->|Hne].
      * exists (uuidv4 calls). rewrite lookup_insert_eq. split; [done|].
        apply elem_of_app. right. by apply list_elem_of_singleton.
      * destruct (J3 _ _ _ Hin Hk) as (t' & Him & Ht').
        exists t'. rewrite lookup_insert_ne by done. split; [done|].
        apply elem_of_app. by left.
    + apply list_elem_of_singleton in Hin. discriminate.
Qed.

Lemma mapper_ok_uuid im calls j :
  mapper_ok_on uuidv4 im calls j → mapper_ok_on uuidv4 im (S calls) j.
Proof.
  intros (J1 & J2 & J3). repeat split; [|done|done].
  intros s t Hin. destruct (J1 _ _ Hin) as (n & Hn & ->). exists n. split; [lia|done].
Qed.

Lemma mapper_ok_created im calls j k s t :
  mapper_ok_on uuidv4 im calls j →
  (k = KTextbook ∨ k = KPassageSet → im !! s = Some t ∧ Assigned s t ∈ j) →
  mapper_ok_on uuidv4 im calls (j ++ [Created k s t]).
Proof.
  intros (J1 & J2 & J3) Hnew. repeat split.
  - intros s0 t0 [Hin|Hin]%elem_of_app; [eauto|].
    apply list_elem_of_singleton in Hin. discriminate.
  - intros s1 s2 t0 [H1|H1]%elem_of_app [H2|H2]%elem_of_app; [eauto|..];
      apply list_elem_of_singleton in H1 || apply list_elem_of_singleton in H2;
      discriminate.
  - intros k0 s0 t0 [Hin|Hin]%elem_of_app Hk.
    + destruct (J3 _ _ _ Hin Hk) as (t' & Him & Ht'). exists t'.
      split; [done|]. apply elem_of_app. by left.
    + apply list_elem_of_singleton in Hin. injection Hin as -> -> ->.
      destruct (Hnew Hk) as [Him Ht]. exists t. split; [done|].
      apply elem_of_app. by left.
Qed.

Lemma uuid_mapper : invariant (mapper_ok uuidv4) (uuid uuidv4).
Proof. intros m Hm. by apply mapper_ok_uuid. Qed.

Lemma ghost_created_mapper k s t :
  k ≠ KTextbook → k ≠ KPassageSet →
  invariant (mapper_ok uuidv4) (ghost (Created k s t)).
Proof. intros H1 H2 m Hm. apply mapper_ok_created; [done|]. by intros [|]. Qed.

Lemma migrateTextbooks_mapper db :
  invariant (mapper_ok uuidv4) (migrateTextbooks uuidv4 db).
Proof.
  unfold migrateTextbooks.
  apply invariant_bind; [by intros ? ?|intros _].
  apply invariant_bind; [|intros ?; by intros ? ?].
  apply invariant_for_of. intros x a _ m Hm.
  pose proof (mapper_ok_assign _ _ _ (MongoTextbook._id x) Hm) as Hm1.
  unfold assign, uuid, idMapping_set, textbook_create, create, when, ghost,
    console_log, modify, ret.
  rewrite !bind_run. cbn -[pretty String.append Nat.modulo constraint_violation].
  destruct (constraint_violation _ _ _ _); [exact Hm1|].
  rewrite !bind_run. cbn -[pretty String.append Nat.modulo].
  assert (mapper_ok_on uuidv4 (<[MongoTextbook._id x:=uuidv4 (uuid_calls m)]> (idMapping m))
            (S (uuid_calls m))
            ((journal m ++ [Assigned (MongoTextbook._id x) (uuidv4 (uuid_calls m))])
               ++ [Created KTextbook (MongoTextbook._id x) (uuidv4 (uuid_calls m))]))
    as Hm2.
  { apply mapper_ok_created; [exact Hm1|]. intros _. rewrite lookup_insert_eq.
    split; [done|]. apply elem_of_app. right. by apply list_elem_of_singleton. }
  destruct (_ =? _)%nat; exact Hm2.
Qed.

Lemma migratePassageSets_mapper db :
  invariant (mapper_ok uuidv4) (migratePassageSets uuidv4 db).
Proof.
  unfold migratePassageSets.
  apply invariant_bind; [by intros ? ?|intros _].
  apply invariant_bind; [|intros ?; by intros ? ?].
  apply invariant_for_of. intros x a _ m Hm.
  pose proof (mapper_ok_assign _ _ _ (MongoPassageSet._id x) Hm) as Hm1.
  unfold assign, uuid, idMapping_set, passageSet_create, create, when, ghost,
    console_log, modify, ret.
  rewrite !bind_run. cbn -[pretty String.append Nat.modulo constraint_violation].
  destruct (constraint_violation _ _ _ _); [exact Hm1|].
  rewrite !bind_run. cbn -[pretty String.append Nat.modulo].
  assert (mapper_ok_on uuidv4 (<[MongoPassageSet._id x:=uuidv4 (uuid_calls m)]> (idMapping m))
            (S (uuid_calls m))
            ((journal m ++ [Assigned (MongoPassageSet._id x) (uuidv4 (uuid_calls m))])
               ++ [Created KPassageSet (MongoPassageSet._id x) (uuidv4 (uuid_calls m))]))
    as Hm2.
  { apply mapper_ok_created; [exact Hm1|]. intros _. rewrite lookup_insert_eq.
    split; [done|]. apply elem_of_app. right. by apply list_elem_of_singleton. }
  destruct (_ =? _)%nat; exact Hm2.
Qed.

Lemma migrateQuestions_mapper db :
  invariant (mapper_ok uuidv4) (migrateQuestions uuidv4 JSON_stringify db).
Proof.
  unfold migrateQuestions, idMapping_get, question_create.
  repeat first [ apply uuid_mapper | by apply ghost_created_mapper | invariant_step ];
    assumption.
Qed.

Lemma migrateSystemPrompts_mapper db :
  invariant (mapper_ok uuidv4) (migrateSystemPrompts uuidv4 db).
Proof.
  unfold migrateSystemPrompts, systemPrompt_create.
  repeat first [ apply uuid_mapper | by apply ghost_created_mapper | invariant_step ];
    assumption.
Qed.

Lemma migrateSystemPromptVersions_mapper db :
  invariant (mapper_ok uuidv4) (migrateSystemPromptVersions uuidv4 db).
Proof.
  unfold migrateSystemPromptVersions, systemPromptVersion_create.
  repeat first [ apply uuid_mapper | by apply ghost_created_mapper | invariant_step ];
    assumption.
Qed.

Lemma establishRelationships_mapper db :
  invariant (mapper_ok uuidv4) (establishRelationships db).
Proof.
  unfold establishRelationships, link_passageSet, link_textbook, idMapping_get,
    passageSetTextbook_create.
  invariant_steps.
Qed.

Lemma steps_1_to_5_mapper config mongo up :
  invariant (mapper_ok uuidv4)
    (steps_1_to_5 uuidv4 JSON_stringify config mongo up).
Proof.
  unfold steps_1_to_5.
  apply invariant_bind; [unfold setupConnections; invariant_steps|intros db].
  apply invariant_bind; [unfold backupExistingData; invariant_steps|intros _].
  apply invariant_bind; [unfold initializeSQLite; invariant_steps|intros _].
  apply invariant_bind; [apply migrateTextbooks_mapper|intros _].
  apply invariant_bind; [apply migratePassageSets_mapper|intros _].
  apply invariant_bind; [apply migrateQuestions_mapper|intros _].
  apply invariant_bind; [apply migrateSystemPrompts_mapper|intros _].
  apply invariant_bind; [apply migrateSystemPromptVersions_mapper|intros _].
  apply invariant_bind; [apply establishRelationships_mapper|intros _].
  by intros ? ?.
Qed.

Lemma migrate_mapper config mongo up :
  invariant (mapper_ok uuidv4) (migrate uuidv4 JSON_stringify config mongo up).
Proof.
  intros m Hm. rewrite migrate_run.
  pose proof (steps_1_to_5_mapper config mongo up (started m) Hm) as H1.
  destruct (steps_1_to_5 _ _ _ _ _ _) as [[db|e] m1]; simpl in H1; [|exact H1].
  assert (mapper_ok uuidv4 (verifyMigration db m1).2) as H2.
  { revert H1. generalize m1. change (invariant (mapper_ok uuidv4) (verifyMigration db)).
    unfold verifyMigration. invariant_steps. }
  destruct (verifyMigration db m1) as [[[]|e] m2]; exact H2.
Qed.

(** C5 (as amended). For every source Textbook and PassageSet that a run
    has imported (the two kinds whose identifiers the script enters in
    [idMapping]; for Questions, SystemPrompts and SystemPromptVersions no
    mapping is kept), resolving its source identifier after the run returns
    a target identifier that [uuidv4] issued in this run for that source
    identifier and for no other one, and resolving again returns the same
    identifier and changes nothing. *)
Theorem C5_imported_textbooks_and_passage_sets_resolve config mongo up target :
  let m' := (migrate uuidv4 JSON_stringify config mongo up (new_migrator target)).2 in
  ∀ k s t, Created k s t ∈ journal m' → k = KTextbook ∨ k = KPassageSet →
    ∃ t', idMapping m' !! s = Some t' ∧
          Assigned s t' ∈ journal m' ∧
          (∃ n, n < uuid_calls m' ∧ t' = uuidv4 n) ∧
          (∀ s', Assigned s' t' ∈ journal m' → s' = s) ∧
          idMapping_get s m' = (Ok (Some t'), m').
Proof.
  intros m' k s t Hcreated Hk.
  assert (mapper_ok uuidv4 m') as (J1 & J2 & J3).
  { apply migrate_mapper. repeat split; simpl; intros *; by rewrite ?elem_of_nil. }
  destruct (J3 _ _ _ Hcreated Hk) as (t' & Him & Ht'). exists t'.
  repeat split; [done|done|by eapply J1|intros s' Hs'; by eapply J2|].
  unfold idMapping_get, gets. by rewrite Him.
Qed.

End Mapper.

(** C6 (as amended). Calling the Mapper's [assign] for a source identifier
    never fails, whether or not the identifier is already mapped: it issues
    the next identifier of [uuidv4] and stores it under the source
    identifier, replacing the mapping that was there. *)
Theorem C6_assign_overwrites s m :
  (assign uuidv4 s m).1 = Ok (uuidv4 (uuid_calls m)) ∧
  idMapping (assign uuidv4 s m).2 = <[s:=uuidv4 (uuid_calls m)]> (idMapping m) ∧
  (∀ s', s' ≠ s → idMapping (assign uuidv4 s m).2 !! s' = idMapping m !! s') ∧
  idMapping (assign uuidv4 s m).2 !! s = Some (uuidv4 (uuid_calls m)) ∧
  uuid_calls (assign uuidv4 s m).2 = S (uuid_calls m).
Proof.
  repeat split; simpl.
  - intros s' Hne. by rewrite lookup_insert_ne.
  - by rewrite lookup_insert_eq.
Qed.

(** C4. The exit status of the migration process is 0 whatever the run
    did, also when [migrate] rejected; a source that cannot be reached is
    one way for it to reject. *)
Theorem C4_migration_process_exits_zero_even_when_failed :
  (∀ mongo up target, (main uuidv4 JSON_stringify mongo up target).1 = 0) ∧
  (∀ config up m,
     (migrate uuidv4 JSON_stringify config None up m).1 = Throw MongoConnectError).
Proof.
  split.
  - intros mongo up target. unfold main.
    by destruct (migrate _ _ _ _ _ _) as [[[]|e] m].
  - intros config up m. by rewrite migrate_run.
Qed.

End Facts.

(** **** Relationship linking *)

Lemma for_of_reaches {A S} (I Q : Migrator → Prop) (xs : list A)
    (body : A → S → M S) x :
  x ∈ xs →
  (∀ y a m, ∃ a' m', body y a m = (Ok a', m')) →
  (∀ y a m, I m → I (body y a m).2) →
  (∀ y a m, I m → Q m → Q (body y a m).2) →
  (∀ a m, I m → Q (body x a m).2) →
  ∀ acc m, I m → Q (for_of xs body acc m).2.
Proof.
  intros Hin Htotal HI HQ Hx.
  induction xs as [|y xs IH]; intros acc m Hm; [by apply elem_of_nil in Hin|].
  simpl. rewrite bind_run.
  destruct (Htotal y acc m) as (a1 & m1 & Hy).
  pose proof (HI y acc m Hm) as HI1. rewrite Hy. rewrite Hy in HI1. simpl in HI1.
  apply elem_of_cons in Hin as [->|Hin].
  - pose proof (Hx acc m Hm) as HQ1. rewrite Hy in HQ1. simpl in HQ1.
    refine (proj2 (for_of_keeps (λ s, I s ∧ Q s) xs body _ a1 m1 (conj HI1 HQ1))).
    intros z a s _ [? ?]. split; [by apply HI | by apply HQ].
  - by apply IH.
Qed.

Lemma junction_create_outcome data m :
  (passageSetTextbook_create data m
     = (Ok tt, set_prisma (update_passageSetTextbook (λ rows, rows ++ [data])) m)
   ∧ data ∉ passageSetTextbook (prisma m))
  ∨ (∃ e, passageSetTextbook_create data m = (Throw e, m) ∧
       (data ∈ passageSetTextbook (prisma m)
        ∨ (foreign_keys (prisma m) = true ∧
           (PassageSetTextbook.textbookId data ∉ Textbook.id <$> textbook (prisma m)
            ∨ PassageSetTextbook.passageSetId data
                ∉ PassageSet.id <$> passageSet (prisma m))))).
Proof.
  unfold passageSetTextbook_create, create, constraint_violation.
  rewrite !filter_cons, !filter_nil. cbn [fst snd].
  destruct (decide (data ∈ passageSetTextbook (prisma m))) as [Hin|Hin].
  - rewrite (bool_decide_eq_true_2 _ Hin). rewrite decide_True by done.
    right. eauto.
  - rewrite (bool_decide_eq_false_2 _ Hin). rewrite decide_False by done.
    destruct (decide (PassageSetTextbook.textbookId data
                        ∈ Textbook.id <$> textbook (prisma m))) as [HT|HT];
    destruct (decide (PassageSetTextbook.passageSetId data
                        ∈ PassageSet.id <$> passageSet (prisma m))) as [HP|HP];
    rewrite ?(bool_decide_eq_false_2 _ (λ H, H HT)),
            ?(bool_decide_eq_false_2 _ (λ H, H HP)),
            ?(bool_decide_eq_true_2 _ HT), ?(bool_decide_eq_true_2 _ HP);
    rewrite ?decide_True by done; rewrite ?decide_False by done;
    try (by left);
    destruct (foreign_keys (prisma m)) eqn:Hfk; (by left) || (right; eauto 10).
Qed.

Lemma junction_create_NoDup data :
  invariant (λ m, NoDup (passageSetTextbook (prisma m)))
    (passageSetTextbook_create data).
Proof.
  intros m Hm.
  destruct (junction_create_outcome data m) as [[-> Hnot]|(e & -> & _)]; [|done].
  simpl. apply NoDup_app. split; [done|]. split; [|apply NoDup_singleton].
  intros x Hx ->%list_elem_of_singleton. done.
Qed.

Lemma junction_create_frame m0 data :
  invariant (link_frame m0) (passageSetTextbook_create data).
Proof.
  intros m Hm.
  by destruct (junction_create_outcome data m) as [[-> Hnot]|(e & -> & _)].
Qed.

Lemma junction_create_keeps row data :
  invariant (λ m, row ∈ passageSetTextbook (prisma m))
    (passageSetTextbook_create data).
Proof.
  intros m Hm.
  destruct (junction_create_outcome data m) as [[-> Hnot]|(e & -> & _)]; [|done].
  simpl. apply elem_of_app. by left.
Qed.

Lemma link_textbook_total passageSetId tb rc m :
  ∃ a' m', link_textbook passageSetId tb rc m = (Ok a', m').
Proof.
  unfold link_textbook, idMapping_get, gets. rewrite bind_run. cbv beta iota.
  destruct (not_ _); [by eexists _, _|].
  unfold try_catch. rewrite bind_run.
  destruct (junction_create_outcome
              (PassageSetTextbook.mk (default "" (idMapping m !! tb))
                 (default "" passageSetId)) m)
    as [[-> _]|(e & -> & _)]; by eexists _, _.
Qed.

Lemma link_passageSet_total ps rc m :
  ∃ a' m', link_passageSet ps rc m = (Ok a', m').
Proof.
  unfold link_passageSet, idMapping_get, gets. rewrite bind_run. cbv beta iota.
  destruct (not_ _); [by eexists _, _|].
  apply for_of_total. intros; apply link_textbook_total.
Qed.

Lemma link_textbook_invariant I passageSetId tb rc :
  (∀ data, invariant I (passageSetTextbook_create data)) →
  (∀ g m, I m → I (set_console g m)) →
  invariant I (link_textbook passageSetId tb rc).
Proof.
  intros Hcreate Hconsole. unfold link_textbook, idMapping_get.
  repeat first [ apply Hcreate | invariant_step ];
    intros m Hm; by apply Hconsole.
Qed.

Lemma link_passageSet_invariant I ps rc :
  (∀ data, invariant I (passageSetTextbook_create data)) →
  (∀ g m, I m → I (set_console g m)) →
  invariant I (link_passageSet ps rc).
Proof.
  intros Hcreate Hconsole. unfold link_passageSet, idMapping_get.
  repeat first [ by apply link_textbook_invariant | invariant_step ].
Qed.

(** A link attempt whose two identifiers resolve leaves the pair in the
    table, provided the rows they name are there or foreign keys are off. *)
Lemma link_textbook_links m0 P tb T rc m :
  link_frame m0 m →
  idMapping m0 !! tb = Some T → T ≠ "" →
  (foreign_keys (prisma m0) = true →
     T ∈ Textbook.id <$> textbook (prisma m0) ∧
     P ∈ PassageSet.id <$> passageSet (prisma m0)) →
  PassageSetTextbook.mk T P
    ∈ passageSetTextbook (prisma (link_textbook (Some P) tb rc m).2).
Proof.
  intros (Him & Htb & Hps & Hfk) HT HTne Hrows.
  unfold link_textbook, idMapping_get, gets. rewrite bind_run. cbv beta iota.
  rewrite Him, HT. unfold not_. rewrite bool_decide_eq_false_2 by done.
  unfold try_catch. rewrite bind_run. simpl default.
  destruct (junction_create_outcome (PassageSetTextbook.mk T P) m)
    as [[-> _]|(e & -> & [Hin|[Hon Hmiss]])]; simpl.
  - apply elem_of_app. right. by apply list_elem_of_singleton.
  - exact Hin.
  - exfalso. rewrite Hfk in Hon. destruct (Hrows Hon) as [H1 H2].
    rewrite Htb, Hps in Hmiss. simpl in Hmiss. tauto.
Qed.

Lemma filter_eq_absent {A} `{EqDecision A} (l : list A) x :
  x ∉ l → filter (λ y, y = x) l = [].
Proof.
  induction l as [|y l IH]; intros Hx; [done|].
  apply not_elem_of_cons in Hx as [Hne Hx].
  rewrite filter_cons, decide_False by done. by apply IH.
Qed.

Lemma NoDup_once {A} `{EqDecision A} (l : list A) x :
  NoDup l → x ∈ l → length (filter (λ y, y = x) l) = 1.
Proof.
  induction 1 as [|y l Hy Hl IH]; intros Hin; [by apply elem_of_nil in Hin|].
  rewrite filter_cons. apply elem_of_cons in Hin as [->|Hin].
  - rewrite decide_True by done. simpl. by rewrite filter_eq_absent.
  - rewrite decide_False by (intros ->; done). by apply IH.
Qed.

(** C7. Relationship resolution never raises an error, whatever the
    [create] of a junction row answers, and it leaves no pair twice in the
    junction table; a Textbook-PassageSet pair that it links, once or
    several times, whose two rows are in the target store (or whose foreign
    keys are not enforced) ends up in the junction table exactly once. *)
Theorem C7_linking_is_idempotent db m :
  NoDup (passageSetTextbook (prisma m)) →
  (establishRelationships db m).1 = Ok tt ∧
  NoDup (passageSetTextbook (prisma (establishRelationships db m).2)) ∧
  ∀ ps tb T P,
    ps ∈ passagesets db → tb ∈ MongoPassageSet.textbooks ps →
    idMapping m !! MongoPassageSet._id ps = Some P → P ≠ "" →
    idMapping m !! tb = Some T → T ≠ "" →
    (foreign_keys (prisma m) = true →
       T ∈ Textbook.id <$> textbook (prisma m) ∧
       P ∈ PassageSet.id <$> passageSet (prisma m)) →
    length (filter (λ row, row = PassageSetTextbook.mk T P)
              (passageSetTextbook (prisma (establishRelationships db m).2))) = 1.
Proof.
  intros Hnd.
  set (m0 := set_console (λ c, c ++ [(LOG, "🔗 관계 설정 중...")]) m).
  assert (∀ I : Migrator → Prop,
            (∀ g s, I s → I (set_console g s)) → I (for_of (passagesets db) link_passageSet 0 m0).2 →
            I (establishRelationships db m).2) as Hend.
  { intros I HI Hloop. unfold establishRelationships. rewrite !bind_run.
    change (console_log _ m) with (Ok tt, m0). cbv beta iota. rewrite bind_run.
    destruct (for_of _ _ _ _) as [[rc|e] m1]; simpl in *; [by apply HI|done]. }
  assert (∀ I : Migrator → Prop,
            (∀ data, invariant I (passageSetTextbook_create data)) →
            (∀ g s, I s → I (set_console g s)) → I m →
            I (establishRelationships db m).2) as Hinv.
  { intros I Hcreate HI Hm. apply Hend; [done|].
    apply for_of_keeps; [|by apply HI].
    intros; by apply link_passageSet_invariant. }
  split; [|split].
  - unfold establishRelationships. rewrite !bind_run.
    change (console_log _ m) with (Ok tt, m0). cbv beta iota. rewrite bind_run.
    destruct (for_of_total (passagesets db) link_passageSet
                link_passageSet_total 0 m0) as (rc & m1 & ->).
    reflexivity.
  - apply (Hinv (λ s, NoDup (passageSetTextbook (prisma s)))); [|done|done].
    apply junction_create_NoDup.
  - intros ps tb T P Hps Htb HP HPne HT HTne Hrows.
    apply NoDup_once.
    { apply (Hinv (λ s, NoDup (passageSetTextbook (prisma s)))); [|done|done].
      apply junction_create_NoDup. }
    apply (Hend (λ s, PassageSetTextbook.mk T P ∈ passageSetTextbook (prisma s)));
      [done|].
    apply (for_of_reaches (link_frame m)
             (λ s, PassageSetTextbook.mk T P ∈ passageSetTextbook (prisma s))
             _ _ ps Hps).
    + apply link_passageSet_total.
    + intros y a s Hs.
      by apply (link_passageSet_invariant (link_frame m) y a
                  (junction_create_frame m) (λ _ _ H, H)).
    + intros y a s _ Hs.
      by apply (link_passageSet_invariant
                  (λ s, PassageSetTextbook.mk T P ∈ passageSetTextbook (prisma s))
                  y a (junction_create_keeps _) (λ _ _ H, H)).
    + intros a s Hs. unfold link_passageSet, idMapping_get, gets.
      rewrite bind_run. cbv beta iota.
      destruct Hs as (Him & Hrest). rewrite Him, HP.
      unfold not_ at 1. rewrite bool_decide_eq_false_2 by done.
      apply (for_of_reaches (link_frame m)
               (λ s, PassageSetTextbook.mk T P ∈ passageSetTextbook (prisma s))
               _ _ tb Htb).
      * intros; apply link_textbook_total.
      * intros y a' s' Hs'.
        by apply (link_textbook_invariant (link_frame m) _ y a'
                    (junction_create_frame m) (λ _ _ H, H)).
      * intros y a' s' _ Hs'.
        by apply (link_textbook_invariant
                    (λ s, PassageSetTextbook.mk T P ∈ passageSetTextbook (prisma s))
                    _ y a' (junction_create_keeps _) (λ _ _ H, H)).
      * intros a' s' Hs'. by apply (link_textbook_links m).
      * by split.
    + by repeat split.
Qed.

(** **** The theorems at concrete runs *)

Lemma test_uuid_inj n n' : test_uuid n = test_uuid n' → n = n'.
Proof. unfold test_uuid. intros H. by apply String.app_inj, pretty_nat_inj in H. Qed.

(** C2, counterexample: a run over an empty source completes successfully
    on a store that already holds one SystemPromptVersion; the source has
    0 versions and the target 1. *)
Lemma C2_versions_are_not_compared :
  let r := migrate test_uuid test_json test_config (Some empty_db) true
             (new_migrator store_with_old_version) in
  r.1 = Ok tt ∧
  length (systemprompversions empty_db) = 0 ∧
  length (systemPromptVersion (prisma r.2)) = 1.
Proof. vm_compute. repeat split; reflexivity. Qed.

Lemma C2_witness :
  (∃ db, Some linked_db = Some db ∧
     length (textbooks db) = 1 ∧ length (passagesets db) = 1 ∧
     length (questions db) = 1 ∧ length (systemprompts db) = 0) ∧
  (migrate test_uuid test_json test_config (Some orphan_db) true
     (new_migrator empty_store)).1 ≠ Ok tt.
Proof.
  split.
  - destruct (proj1 (C2_counts_reconciled_for_compared_kinds test_uuid test_json
                       test_config (Some linked_db) true empty_store)
                (migrate test_uuid test_json test_config (Some linked_db) true
                   (new_migrator empty_store)).2)
      as (db & Hdb & H1 & H2 & H3 & H4 & _).
    + vm_compute. reflexivity.
    + exists db. injection Hdb as <-. repeat split; reflexivity.
  - apply (proj2 (C2_counts_reconciled_for_compared_kinds test_uuid test_json
                    test_config (Some orphan_db) true empty_store)
             orphan_db (a_question "q2" "gone")).
    + reflexivity.
    + reflexivity.
    + apply list_elem_of_In. simpl. auto.
    + intros H%list_elem_of_In. simpl in H. intuition discriminate.
Defined.

(** C3, counterexample: with one Question in the source and none in the
    target, [verifyMigration] throws an error whose message holds no name
    of the Question kind and neither of the two counts. *)
Lemma C3_failure_names_neither_kind_nor_counts :
  let m := new_migrator empty_store in
  let db := mkMongoDb [] [] [a_question "q2" "gone"] [] [] in
  length (questions db) = 1 ∧ length (question (prisma m)) = 0 ∧
  ∃ e, (verifyMigration db m).1 = Throw e ∧ names_mismatch e KQuestion 1 0 = false.
Proof. vm_compute. repeat split. eexists. split; reflexivity. Qed.

Lemma C3_witness :
  (migrate test_uuid test_json test_config (Some orphan_db) true
     (new_migrator empty_store)).1 = Throw (JsError count_mismatch_message).
Proof.
  refine (proj2 (proj2 (proj2
    (C3_count_mismatch_fails_the_run test_uuid test_json test_config
       (Some orphan_db) true (new_migrator empty_store) orphan_db
       (steps_1_to_5 test_uuid test_json test_config (Some orphan_db) true
          (started (new_migrator empty_store))).2 _ _)))).
  - vm_compute. reflexivity.
  - vm_compute. discriminate.
Defined.

(** C5, counterexample: a Question that the run imported is not resolved
    by the mapper. *)
Lemma C5_imported_question_is_not_mapped :
  let m' := (migrate test_uuid test_json test_config (Some linked_db) true
               (new_migrator empty_store)).2 in
  Created KQuestion "q1" "u2" ∈ journal m' ∧
  idMapping_get "q1" m' = (Ok None, m').
Proof. vm_compute. split; [repeat constructor | reflexivity]. Qed.

Lemma C5_witness :
  ∃ t', idMapping (migrate test_uuid test_json test_config (Some linked_db) true
                     (new_migrator empty_store)).2 !! "t1" = Some t'.
Proof.
  destruct (C5_imported_textbooks_and_passage_sets_resolve test_uuid test_json
              test_uuid_inj test_config (Some linked_db) true empty_store
              KTextbook "t1" "u0") as (t' & Ht' & _).
  - vm_compute. repeat constructor.
  - by left.
  - by exists t'.
Defined.

(** C6, counterexample: a second [assign] for the same source identifier
    does not fail; it issues another identifier and replaces the first. *)
Lemma C6_second_assign_succeeds :
  let m1 := (assign test_uuid "a" (new_migrator empty_store)).2 in
  let r := assign test_uuid "a" m1 in
  idMapping m1 !! "a" = Some "u0" ∧ r.1 = Ok "u1" ∧ idMapping r.2 !! "a" = Some "u1".
Proof. vm_compute. repeat split; reflexivity. Qed.

Lemma C7_witness :
  (establishRelationships linked_db linked_migrator).1 = Ok tt ∧
  length (filter (λ row, row = PassageSetTextbook.mk "T" "P")
            (passageSetTextbook
               (prisma (establishRelationships linked_db linked_migrator).2))) = 1.
Proof.
  destruct (C7_linking_is_idempotent linked_db linked_migrator) as (Hok & _ & Hone).
  - apply NoDup_nil_2.
  - split; [exact Hok|].
    apply (Hone (a_passageSet "p1" "qr1" ["t1"; "t1"]) "t1" "T" "P").
    + apply list_elem_of_In. simpl. auto.
    + apply list_elem_of_In. simpl. auto.
    + reflexivity.
    + discriminate.
    + reflexivity.
    + discriminate.
    + intros _. split; apply list_elem_of_In; simpl; auto.
Defined.

End MigratorProofs.

(** * The backup script *)

Module BackupRestoreProofs.
Import Text BackupRestore BackupRestoreSpec.

(** **** Paths that never coincide *)

Lemma safety_ne_live suffix : DATABASE_PATH +:+ ".pre-restore-" +:+ suffix ≠ DATABASE_PATH.
Proof.
  intros H. change DATABASE_PATH with (DATABASE_PATH +:+ "") in H at 2.
  apply String.app_inj in H. discriminate.
Qed.

Lemma backup_ne_live rest : BACKUP_BASE_PATH +:+ rest ≠ DATABASE_PATH.
Proof. intros H. simpl in H. discriminate. Qed.

Lemma backup_ne_safety rest suffix :
  BACKUP_BASE_PATH +:+ rest ≠ DATABASE_PATH +:+ suffix.
Proof. intros H. simpl in H. discriminate. Qed.

Lemma live_ne_safety suffix : DATABASE_PATH ≠ DATABASE_PATH +:+ ".pre-restore-" +:+ suffix.
Proof. intros H. by apply (safety_ne_live suffix). Qed.
Lemma safety_ne_backup rest suffix :
  DATABASE_PATH +:+ suffix ≠ BACKUP_BASE_PATH +:+ rest.
Proof. intros H. by apply (backup_ne_safety rest suffix). Qed.
Lemma live_ne_backup rest : DATABASE_PATH ≠ BACKUP_BASE_PATH +:+ rest.
Proof. intros H. by apply (backup_ne_live rest). Qed.

Ltac path_ne :=
  solve [ apply safety_ne_live | apply live_ne_safety | apply backup_ne_live
        | apply live_ne_backup | apply backup_ne_safety | apply safety_ne_backup ].

(** Symbolic execution of a script: reduce, then settle the file lookups
    the reduction is stuck on. *)
Ltac run_script :=
  repeat (cbn -[String.append DATABASE_PATH BACKUP_BASE_PATH PROJECT_PATH contains];
          first [ rewrite lookup_insert_eq
                | rewrite lookup_insert_ne by path_ne
                | match goal with H : files _ !! _ = _ |- _ => rewrite H end ]).

Section Proofs.
Variable E : Externals.

(** On a machine that has a live store, [restore_database] leaves the live
    store as it was or has its contents in the safety copy; and when the
    test on the restored store finds no ok in the report, it returns 1 with
    the pre-restore contents back in place. *)
Lemma restore_database_outcome backup_name w f :
  files w !! DATABASE_PATH = Some f →
  let r := restore_database E backup_name w in
  (files r.2 !! DATABASE_PATH = Some f
   ∨ content <$> files r.2 !! safety_copy_path E w = Some (content f)) ∧
  (∀ b, files w !! database_backup_path backup_name = Some b →
        contains "ok" (integrity_check E (content b)) = false →
        r.1 = Done 1 ∧
        content <$> files r.2 !! DATABASE_PATH = Some (content f) ∧
        content <$> files r.2 !! safety_copy_path E w = Some (content f)).
Proof.
  intros Hlive r. subst r.
  unfold safety_copy_path, database_backup_path.
  unfold restore_database, call, seq, if_, is_file, return_, true_, or_true,
    pm2_stop, pm2_start, log_error, log_info, log_success, echo, cp, integrity_ok, date.
  destruct (files w !! (BACKUP_BASE_PATH +:+ "/database/" +:+ backup_name +:+ ".db"))
    as [b|] eqn:Hb.
  - run_script.
    change (content {| content := content b; mtime := clock w |}) with (content b).
    destruct (contains "ok" (integrity_check E (content b))) eqn:Hcheck.
    + split; [|intros b' Hb' Hc; assert (b' = b) as -> by congruence; congruence].
      unfold or_, log_warning, echo, is_dir.
      repeat (run_script; try case_match); simplify_eq; run_script;
        right; run_script; reflexivity.
    + run_script. split; [by right|].
      intros b' Hb' _. done.
  - run_script. split; [by left|]. intros b' Hb'. congruence.
Qed.

(** What [restore_database] leaves alone, and how it can end. *)
Lemma restore_database_frame backup_name w :
  let r := restore_database E backup_name w in
  dirs r.2 = dirs w ∧
  calls r.2 = calls w ++ ["restore_database"] ∧
  (∀ p, p ≠ DATABASE_PATH → p ≠ safety_copy_path E w →
        files r.2 !! p = files w !! p) ∧
  (r.1 = Done 0 ∨ r.1 = Done 1 ∨ r.1 = Exit 1).
Proof.
  intros r. subst r. unfold safety_copy_path.
  unfold restore_database, call, seq, if_, is_file, return_, true_, or_true,
    pm2_stop, pm2_start, log_error, log_info, log_success, log_warning, echo, cp,
    integrity_ok, date, or_, is_dir.
  repeat (cbn -[String.append DATABASE_PATH BACKUP_BASE_PATH PROJECT_PATH contains];
          try case_match; simplify_eq);
    (split; [reflexivity|split; [reflexivity|split; [|auto]]]);
    intros p Hp1 Hp2;
    cbn -[String.append DATABASE_PATH BACKUP_BASE_PATH PROJECT_PATH contains];
    by rewrite ?lookup_insert_ne by done.
Qed.

Lemma restore_files_calls backup_name w :
  calls (restore_files E backup_name w).2 = calls w ++ ["restore_files"].
Proof.
  unfold restore_files, call, seq, if_, is_file, return_, true_, log_error,
    log_info, log_success, echo, mv_dir, mkdir_p, tar_x, is_dir, date.
  repeat (cbn -[String.append FILES_PATH BACKUP_BASE_PATH FILES_DIRNAME];
          try case_match; simplify_eq); reflexivity.
Qed.

Lemma below_files_ne_database p suffix :
  String.prefix (FILES_PATH +:+ "/") p = true → p ≠ DATABASE_PATH +:+ suffix.
Proof. intros Hp ->. simpl in Hp. discriminate. Qed.

Lemma restore_database_fails backup_name w :
  files w !! database_backup_path backup_name = None
  ∨ (∃ f b, files w !! DATABASE_PATH = Some f ∧
            files w !! database_backup_path backup_name = Some b ∧
            contains "ok" (integrity_check E (content b)) = false) →
  (restore_database E backup_name w).1 = Done 1.
Proof.
  intros [Hmissing|(f & b & Hlive & Hb & Hcheck)].
  - unfold database_backup_path in Hmissing.
    unfold restore_database, call, seq, if_, is_file, return_, log_error, echo.
    by run_script.
  - by destruct (restore_database_outcome backup_name w f Hlive) as [_ H];
      destruct (H b Hb Hcheck).
Qed.

Lemma script_restore_full backup_name args w :
  parse_restore_type args = "full" →
  script E ("restore" :: backup_name :: args) w =
    match restore_database E backup_name (set_calls (λ l, l ++ ["main"]) w) with
    | (Done 0, w1) =>
        (status_code (restore_files E backup_name w1).1,
         (restore_files E backup_name w1).2)
    | (st, w1) => (status_code st, w1)
    end.
Proof.
  intros Hfull. unfold script, main, call, seq.
  cbn [String.eqb Ascii.eqb Bool.eqb]. rewrite Hfull.
  cbn [String.eqb Ascii.eqb Bool.eqb].
  destruct (restore_database E backup_name _) as [[[|rc]|rc|rc] w1]; try reflexivity.
  by destruct (restore_files E backup_name w1) as [[rc|rc|rc] w2].
Qed.

(** C10. In a full-scope restore the database restore runs first.  If it
    does not end with status 0 (as when the backup file is missing, or the
    consistency check fails and the store is rolled back), the command
    exits with a non-zero status, [restore_files] is never entered, and the
    directories and every file below the live file-asset directory are as
    they were; if it ends with status 0, [restore_files] is entered after
    it. *)
Theorem C10_full_restore_stops_before_the_files backup_name args w :
  parse_restore_type args = "full" →
  let db := restore_database E backup_name (set_calls (λ l, l ++ ["main"]) w) in
  let r := script E ("restore" :: backup_name :: args) w in
  (files w !! database_backup_path backup_name = None
   ∨ (∃ f b, files w !! DATABASE_PATH = Some f ∧
             files w !! database_backup_path backup_name = Some b ∧
             contains "ok" (integrity_check E (content b)) = false) →
   db.1 = Done 1) ∧
  (db.1 = Done 0 →
     calls r.2 = calls w ++ ["main"; "restore_database"; "restore_files"]) ∧
  (db.1 ≠ Done 0 →
     r.1 ≠ 0 ∧
     calls r.2 = calls w ++ ["main"; "restore_database"] ∧
     dirs r.2 = dirs w ∧
     ∀ p, String.prefix (FILES_PATH +:+ "/") p = true →
          files r.2 !! p = files w !! p).
Proof.
  intros Hfull db r. subst r.
  split; [intros H; exact (restore_database_fails _ (set_calls _ w) H)|].
  rewrite (script_restore_full _ _ _ Hfull). fold db.
  destruct (restore_database_frame backup_name (set_calls (λ l, l ++ ["main"]) w))
    as (Hdirs & Hcalls & Hfiles & Hstatus).
  fold db in Hdirs, Hcalls, Hfiles, Hstatus.
  destruct db as [st w1]. simpl in Hdirs, Hcalls, Hfiles, Hstatus. simpl fst.
  split.
  - intros ->. simpl. by rewrite restore_files_calls, Hcalls, <- !app_assoc.
  - intros Hne.
    destruct Hstatus as [->|[->| ->]]; [congruence|..]; simpl;
      (split; [done|split; [by rewrite Hcalls, <- app_assoc|split; [done|]]]);
      intros p Hp; apply Hfiles;
      solve [ apply (below_files_ne_database p ""); done
            | by apply below_files_ne_database ].
Qed.

End Proofs.

Lemma C10_witness :
  let r := script test_externals ["restore"; "b1"] test_world in
  parse_restore_type [] = "full" ∧
  r.1 ≠ 0 ∧
  calls r.2 = ["main"; "restore_database"] ∧
  dirs r.2 = dirs test_world ∧
  files r.2 !! (FILES_PATH +:+ "/a.png") = files test_world !! (FILES_PATH +:+ "/a.png").
Proof.
  split; [reflexivity|].
  destruct (C10_full_restore_stops_before_the_files test_externals "b1" []
              test_world eq_refl) as (Hfails & _ & Hstop).
  destruct Hstop as (Hrc & Hcalls & Hdirs & Hfiles).
  - rewrite Hfails; [discriminate|]. right.
    exists (mkFile "live" 5), (mkFile "corrupt" 1).
    repeat split; vm_compute; reflexivity.
  - split; [exact Hrc|]. split; [exact Hcalls|]. split; [exact Hdirs|].
    apply Hfiles. vm_compute. reflexivity.
Defined.

End BackupRestoreProofs.

Module TextProofs.
Import Text BackupRestoreSpec.

Lemma strip_prefix_app p s : strip_prefix p (p +:+ s) = Some s.
Proof.
  induction p as [|a p IH]; [done|].
  change (String a p +:+ s) with (String a (p +:+ s)). simpl.
  by rewrite bool_decide_eq_true_2.
Qed.

Lemma strip_prefix_Some p s rest : strip_prefix p s = Some rest → s = p +:+ rest.
Proof.
  revert s. induction p as [|a p IH]; intros s H; simpl in *;
    [by injection H as ->|].
  destruct s as [|b s]; [done|]. case_bool_decide; [|done]. subst b.
  change (String a p +:+ rest) with (String a (p +:+ rest)). by rewrite (IH _ H).
Qed.

Lemma words_go_app cur n s :
  no_ifs n = true →
  words_go cur (n +:+ s) = words_go (rev (list_ascii_of_string n) ++ cur) s.
Proof.
  revert cur. induction n as [|c n IH]; intros cur Hn; [done|].
  unfold no_ifs in Hn. simpl in Hn. apply andb_true_iff in Hn as [Hc Hn].
  apply negb_true_iff in Hc.
  change (String c n +:+ s) with (String c (n +:+ s)). simpl. rewrite Hc, IH by done.
  by rewrite <- app_assoc.
Qed.

Lemma word_flush n :
  n ≠ "" →
  match rev (list_ascii_of_string n) with
  | [] => False
  | c :: l => string_of_list_ascii (rev (c :: l)) = n
  end.
Proof.
  intros Hne. destruct (rev (list_ascii_of_string n)) as [|c l] eqn:Hrev.
  - apply Hne. rewrite <- (string_of_list_ascii_of_string n).
    rewrite <- (rev_involutive (list_ascii_of_string n)), Hrev. done.
  - by rewrite <- Hrev, rev_involutive, string_of_list_ascii_of_string.
Qed.

Lemma string_app_nil_r (s : string) : s +:+ "" = s.
Proof.
  induction s as [|a s IH]; [done|].
  change (String a s +:+ "") with (String a (s +:+ "")). by rewrite IH.
Qed.

Lemma words_unlines names :
  Forall (λ n, n ≠ "" ∧ no_ifs n = true) names → words (unlines names) = names.
Proof.
  unfold words, unlines. induction 1 as [|n names [Hne Hn] _ IH]; [done|].
  pose proof (word_flush n Hne) as Hflush.
  destruct names as [|n' names].
  - simpl. rewrite <- (string_app_nil_r n) at 1.
    rewrite words_go_app, app_nil_r by done. simpl.
    destruct (rev (list_ascii_of_string n)); [done|by rewrite Hflush].
  - change (String.concat (String LF "") (n :: n' :: names))
      with (n +:+ String LF (String.concat (String LF "") (n' :: names))).
    rewrite words_go_app, app_nil_r by done.
    change (words_go ?cur (String LF ?rest))
      with (match cur with
            | [] => words_go [] rest
            | _ => string_of_list_ascii (rev cur) :: words_go [] rest
            end).
    destruct (rev (list_ascii_of_string n)); [done|]. by rewrite Hflush, IH.
Qed.

End TextProofs.

Module CleanupProofs.
Import Text TextProofs BackupRestore BackupRestoreSpec.

(** **** Directory listings *)

Lemma string_app_assoc (a b c : string) : (a +:+ b) +:+ c = a +:+ (b +:+ c).
Proof.
  induction a as [|x a IH]; [done|].
  change (String x a +:+ b) with (String x (a +:+ b)).
  change (String x (a +:+ b) +:+ c) with (String x ((a +:+ b) +:+ c)).
  by rewrite IH.
Qed.

Lemma entry_name_Some dir path name :
  entry_name dir path = Some name ↔ path = dir +:+ "/" +:+ name ∧ entry name.
Proof.
  unfold entry_name, entry. split.
  - destruct (strip_prefix (dir +:+ "/") path) as [rest|] eqn:Hstrip; [|done].
    apply strip_prefix_Some in Hstrip. rewrite string_app_assoc in Hstrip.
    case_bool_decide as Hne; [done|]. simpl.
    destruct (contains "/" rest) eqn:Hslash; [done|]. simpl.
    destruct (String.prefix "." rest) eqn:Hdot; [done|]. by intros [= <-].
  - intros (-> & Hne & Hslash & Hdot).
    rewrite <- string_app_assoc, strip_prefix_app.
    by rewrite bool_decide_eq_false_2, Hslash, Hdot.
Qed.

Lemma elem_of_ls dir w name f :
  (name, f) ∈ ls dir w ↔ files w !! (dir +:+ "/" +:+ name) = Some f ∧ entry name.
Proof.
  unfold ls. rewrite list_elem_of_omap. split.
  - intros ([path f'] & Hin & Hname). simpl in Hname.
    apply elem_of_map_to_list in Hin.
    destruct (entry_name dir path) as [n|] eqn:Hn; [|done].
    simpl in Hname. injection Hname as <- <-.
    apply entry_name_Some in Hn as [-> Hentry]. done.
  - intros [Hfile Hentry]. exists (dir +:+ "/" +:+ name, f). split.
    + by apply elem_of_map_to_list.
    + simpl. by rewrite (proj2 (entry_name_Some dir _ name)).
Qed.

Lemma NoDup_omap_inj {A B} (g : A → option B) (l : list A) :
  NoDup l →
  (∀ x y z, x ∈ l → y ∈ l → g x = Some z → g y = Some z → x = y) →
  NoDup (omap g l).
Proof.
  induction 1 as [|x l Hx Hl IH]; intros Hinj; [constructor|].
  simpl. destruct (g x) as [z|] eqn:Hgx.
  - constructor.
    + rewrite list_elem_of_omap. intros (y & Hy & Hgy).
      apply Hx. rewrite (Hinj x y z); [done|by left|by right|done..].
    + apply IH. intros ?????; apply Hinj; by right.
  - apply IH. intros ?????; apply Hinj; by right.
Qed.

Lemma NoDup_ls dir w : NoDup (ls dir w).
Proof.
  unfold ls. apply NoDup_omap_inj; [apply NoDup_map_to_list|].
  intros [p1 f1] [p2 f2] [n f] _ _ H1 H2. simpl in *.
  destruct (entry_name dir p1) as [n1|] eqn:E1; [|done].
  destruct (entry_name dir p2) as [n2|] eqn:E2; [|done].
  simpl in *. simplify_eq.
  apply entry_name_Some in E1 as [-> _]. by apply entry_name_Some in E2 as [-> _].
Qed.

Lemma ls_name_unique dir w n f1 f2 :
  (n, f1) ∈ ls dir w → (n, f2) ∈ ls dir w → f1 = f2.
Proof. rewrite !elem_of_ls. intros [H1 _] [H2 _]. congruence. Qed.


(** **** The order of [ls -t] *)

#[local] Instance newer_first_total : Total newer_first.
Proof.
  intros [n1 f1] [n2 f2]. unfold newer_first. simpl.
  destruct (lt_eq_lt_dec (mtime f1) (mtime f2)) as [[?|Heq]|?]; [by right; left| |by left; left].
  destruct (total String.le n1 n2); [left|right]; right; split; done.
Qed.

#[local] Instance newer_first_trans : Transitive newer_first.
Proof.
  intros [n1 f1] [n2 f2] [n3 f3]. unfold newer_first. simpl.
  intros [H12|[E12 L12]] [H23|[E23 L23]]; [left; lia..|].
  right. split; [lia|]. by etrans.
Qed.

Lemma ls_t_ext dir w w' :
  (∀ n, files w' !! (dir +:+ "/" +:+ n) = files w !! (dir +:+ "/" +:+ n)) →
  ls_t dir w' = ls_t dir w.
Proof.
  intros Hsame. unfold ls_t. f_equal.
  assert (∀ x, x ∈ ls dir w' ↔ x ∈ ls dir w) as Hiff.
  { intros [n f]. by rewrite !elem_of_ls, Hsame. }
  apply (Sorted_unique_strong newer_first).
  - intros [n1 f1] [n2 f2] H1 H2 R12 R21.
    rewrite merge_sort_Permutation in H1, H2. apply Hiff in H1.
    assert (n1 = n2) as <-.
    { destruct R12 as [?|[? L12]], R21 as [?|[? L21]]; simpl in *; try lia.
      by apply (anti_symm String.le). }
    by rewrite (ls_name_unique _ _ _ _ _ H1 H2).
  - apply Sorted_merge_sort, _.
  - apply Sorted_merge_sort, _.
  - rewrite !merge_sort_Permutation.
    apply NoDup_Permutation; [apply NoDup_ls..|done].
Qed.




(** **** Running the cleanup *)

Lemma seq_run c1 c2 w :
  (c1;; c2)%sh w = match c1 w with
                   | (Done 0, w') => c2 w'
                   | (Done (S rc), w') => (Exit (S rc), w')
                   | stop => stop
                   end.
Proof. reflexivity. Qed.

(** What [rm -f] does to a path that is no directory. *)
Lemma rm_f_run path w :
  is_dir path w = false → rm_f path w = (Done 0, set_files (delete path) w).
Proof. unfold rm_f. by intros ->. Qed.

Lemma delete_loop dry dir names w :
  String.eqb dry "true" = false →
  (∀ n, n ∈ names → is_dir (dir +:+ "/" +:+ n) w = false) →
  (for_in names (delete_old_backup dry dir) w).1 = Done 0 ∧
  dirs (for_in names (delete_old_backup dry dir) w).2 = dirs w ∧
  bucket (for_in names (delete_old_backup dry dir) w).2 = bucket w ∧
  ∀ p, files (for_in names (delete_old_backup dry dir) w).2 !! p =
         if decide (p ∈ (λ n, dir +:+ "/" +:+ n) <$> names) then None
         else files w !! p.
Proof.
  intros Hdry. revert w. induction names as [|n names IH]; intros w Hfiles.
  - simpl. by repeat split.
  - set (w1 := set_stdout (λ out, out ++ [BLUE +:+ "[INFO]" +:+ NC +:+ " " +:+
                                          "Deleted old backup: " +:+ n])
                 (set_files (delete (dir +:+ "/" +:+ n)) w)).
    assert (for_in (n :: names) (delete_old_backup dry dir) w
            = for_in names (delete_old_backup dry dir) w1) as ->.
    { cbn [for_in]. rewrite seq_run. unfold delete_old_backup at 1, if_.
      rewrite Hdry, seq_run, rm_f_run by (apply Hfiles; by left). done. }
    destruct (IH w1) as (Hst & Hdirs & Hbucket & Hlook).
    { intros x Hx. change (is_dir ?q w1) with (is_dir q w). apply Hfiles. by right. }
    repeat split; [done..|].
    intros p. rewrite Hlook. subst w1. cbn [files set_stdout set_files].
    rewrite fmap_cons. destruct (decide (p = dir +:+ "/" +:+ n)) as [->|Hne].
    + rewrite lookup_delete_eq. rewrite (decide_True (P:=_ ∈ _ :: _)) by by left.
      by destruct (decide _).
    + rewrite lookup_delete_ne by done.
      destruct (decide (p ∈ _ <$> names)) as [Hin|Hnin].
      * rewrite decide_True; [done|by right].
      * rewrite decide_False; [done|]. by intros [?|?]%elem_of_cons.
Qed.

Lemma dry_loop dry dir names w :
  String.eqb dry "true" = true →
  (for_in names (delete_old_backup dry dir) w).1 = Done 0 ∧
  dirs (for_in names (delete_old_backup dry dir) w).2 = dirs w ∧
  bucket (for_in names (delete_old_backup dry dir) w).2 = bucket w ∧
  files (for_in names (delete_old_backup dry dir) w).2 = files w.
Proof.
  intros Hdry. revert w. induction names as [|n names IH]; intros w; [done|].
  set (w1 := set_stdout (λ out, out ++ ["Would delete: " +:+ dir +:+ "/" +:+ n]) w).
  assert (for_in (n :: names) (delete_old_backup dry dir) w
          = for_in names (delete_old_backup dry dir) w1) as ->.
  { cbn [for_in]. rewrite seq_run. unfold delete_old_backup at 1, if_.
    by rewrite Hdry. }
  apply (IH w1).
Qed.

Lemma prefix_below (dir rest : string) : String.prefix (dir +:+ "/") (dir +:+ "/" +:+ rest) = true.
Proof.
  rewrite <- string_app_assoc. generalize (dir +:+ "/"). intros a.
  induction a as [|c a IH]; [by destruct rest|].
  change (String c a +:+ rest) with (String c (a +:+ rest)). cbn [String.prefix].
  by destruct (ascii_dec c c).
Qed.

(** However the loop ends, and it ends when [rm -f] meets a directory, it
    has touched nothing but files below [dir]. *)
Lemma delete_loop_frame dry dir names w :
  ((for_in names (delete_old_backup dry dir) w).1 = Done 0
   ∨ (for_in names (delete_old_backup dry dir) w).1 = Exit 1) ∧
  dirs (for_in names (delete_old_backup dry dir) w).2 = dirs w ∧
  bucket (for_in names (delete_old_backup dry dir) w).2 = bucket w ∧
  ∀ p, String.prefix (dir +:+ "/") p = false →
       files (for_in names (delete_old_backup dry dir) w).2 !! p = files w !! p.
Proof.
  revert w. induction names as [|n names IH]; intros w; [by repeat split; auto|].
  destruct (String.eqb dry "true") eqn:Hdry.
  - set (w1 := set_stdout (λ out, out ++ ["Would delete: " +:+ dir +:+ "/" +:+ n]) w).
    assert (for_in (n :: names) (delete_old_backup dry dir) w
            = for_in names (delete_old_backup dry dir) w1) as ->.
    { cbn [for_in]. rewrite seq_run. unfold delete_old_backup at 1, if_.
      by rewrite Hdry. }
    apply (IH w1).
  - destruct (is_dir (dir +:+ "/" +:+ n) w) eqn:Hd.
    + assert (for_in (n :: names) (delete_old_backup dry dir) w = (Exit 1, w)) as ->.
      { cbn [for_in]. rewrite seq_run. unfold delete_old_backup at 1, if_.
        rewrite Hdry, seq_run. unfold rm_f. by rewrite Hd. }
      repeat split; auto.
    + set (w1 := set_stdout (λ out, out ++ [BLUE +:+ "[INFO]" +:+ NC +:+ " " +:+
                                            "Deleted old backup: " +:+ n])
                   (set_files (delete (dir +:+ "/" +:+ n)) w)).
      assert (for_in (n :: names) (delete_old_backup dry dir) w
              = for_in names (delete_old_backup dry dir) w1) as ->.
      { cbn [for_in]. rewrite seq_run. unfold delete_old_backup at 1, if_.
        rewrite Hdry, seq_run, rm_f_run by done. done. }
      destruct (IH w1) as (Hst & Hdirs & Hbucket & Hlook).
      split; [done|]. split; [done|]. split; [done|].
      intros p Hp. rewrite Hlook by done. subst w1. cbn [files set_stdout set_files].
      apply lookup_delete_ne. intros <-. by rewrite prefix_below in Hp.
Qed.

Lemma cleanup_local_run dry t w :
  (String.eqb dry "true" = true
   ∨ ∀ n, n ∈ old_backups t w → is_dir (backup_dir_of t +:+ "/" +:+ n) w = false) →
  (cleanup_local dry t w).1 = Done 0 ∧
  dirs (cleanup_local dry t w).2 = dirs w ∧
  bucket (cleanup_local dry t w).2 = bucket w ∧
  ∀ p, files (cleanup_local dry t w).2 !! p =
         if decide (String.eqb dry "true" = false ∧
                    is_dir (backup_dir_of t) w = true ∧
                    p ∈ (λ n, backup_dir_of t +:+ "/" +:+ n) <$> old_backups t w)
         then None else files w !! p.
Proof.
  intros Hok. unfold cleanup_local, if_. fold (backup_dir_of t).
  destruct (is_dir (backup_dir_of t) w) eqn:Hdir.
  2:{ repeat split. intros p. rewrite decide_False; [done|]. by intros (_ & ? & _). }
  unfold local_capture, capture, print_lines. cbv beta iota zeta.
  cbn [fst snd stdout set_stdout app].
  change (ls_t (backup_dir_of t) (set_stdout (λ _, []) w))
    with (ls_t (backup_dir_of t) w).
  fold (old_backups t w).
  match goal with |- context [for_in _ _ ?w'] => set (w1 := w') end.
  destruct (String.eqb dry "true") eqn:Hdry.
  - destruct (dry_loop dry (backup_dir_of t) (old_backups t w) w1 Hdry)
      as (Hst & Hdirs & Hbucket & Hfiles).
    repeat split; [done..|]. intros p. rewrite Hfiles.
    rewrite decide_False; [done|]. by intros (? & _).
  - destruct Hok as [?|Hok]; [done|].
    destruct (delete_loop dry (backup_dir_of t) (old_backups t w) w1 Hdry Hok)
      as (Hst & Hdirs & Hbucket & Hfiles).
    repeat split; [done..|]. intros p. rewrite Hfiles.
    destruct (decide (p ∈ _)) as [Hin|Hnin].
    + by rewrite decide_True.
    + rewrite decide_False; [done|]. by intros (_ & _ & ?).
Qed.

Lemma cleanup_local_frame dry t w :
  ((cleanup_local dry t w).1 = Done 0 ∨ (cleanup_local dry t w).1 = Exit 1) ∧
  dirs (cleanup_local dry t w).2 = dirs w ∧
  bucket (cleanup_local dry t w).2 = bucket w ∧
  ∀ p, String.prefix (backup_dir_of t +:+ "/") p = false →
       files (cleanup_local dry t w).2 !! p = files w !! p.
Proof.
  unfold cleanup_local, if_. fold (backup_dir_of t).
  destruct (is_dir (backup_dir_of t) w); [|by repeat split; auto].
  unfold local_capture, capture, print_lines. cbv beta iota zeta.
  cbn [fst snd stdout set_stdout app].
  match goal with |- context [for_in ?l _ ?w'] =>
    apply (delete_loop_frame dry (backup_dir_of t) l w') end.
Qed.

Lemma type_paths_distinct t t' n x :
  t ∈ backup_types → t' ∈ backup_types → t ≠ t' →
  backup_dir_of t +:+ "/" +:+ n ≠ backup_dir_of t' +:+ "/" +:+ x.
Proof.
  unfold backup_types, backup_dir_of. rewrite !elem_of_cons, !elem_of_nil.
  intros [->|[->|[->|[]]]] [->|[->|[->|[]]]] Hne; try done; intros H;
    rewrite !string_app_assoc in H;
    do 2 apply String.app_inj in H; discriminate H.
Qed.

Lemma same_dir_inj dir n x : dir +:+ "/" +:+ n = dir +:+ "/" +:+ x → n = x.
Proof. intros H. by do 2 apply String.app_inj in H. Qed.

Lemma elem_of_dir_paths dir n (names : list string) :
  dir +:+ "/" +:+ n ∈ (λ x, dir +:+ "/" +:+ x) <$> names ↔ n ∈ names.
Proof.
  rewrite list_elem_of_fmap. split; [|by eauto].
  by intros (x & ->%same_dir_inj & Hx).
Qed.

(** The candidates of a type are not changed by the cleanup of another. *)
Lemma cleanup_local_other dry h t w :
  h ∈ backup_types → t ∈ backup_types → h ≠ t →
  (String.eqb dry "true" = true
   ∨ ∀ n, n ∈ old_backups h w → is_dir (backup_dir_of h +:+ "/" +:+ n) w = false) →
  old_backups t (cleanup_local dry h w).2 = old_backups t w ∧
  is_dir (backup_dir_of t) (cleanup_local dry h w).2 = is_dir (backup_dir_of t) w ∧
  ∀ x, files (cleanup_local dry h w).2 !! (backup_dir_of t +:+ "/" +:+ x)
       = files w !! (backup_dir_of t +:+ "/" +:+ x).
Proof.
  intros Hh Ht Hne Hok.
  destruct (cleanup_local_run dry h w Hok) as (_ & Hdirs & _ & Hfiles).
  assert (∀ x, files (cleanup_local dry h w).2 !! (backup_dir_of t +:+ "/" +:+ x)
               = files w !! (backup_dir_of t +:+ "/" +:+ x)) as Hkeep.
  { intros x. rewrite Hfiles. rewrite decide_False; [done|].
    intros (_ & _ & (y & Hy & _)%list_elem_of_fmap).
    by apply (type_paths_distinct t h x y) in Hy. }
  split; [|split; [|done]].
  - unfold old_backups. by rewrite (ls_t_ext _ w _ Hkeep).
  - unfold is_dir. by rewrite Hdirs.
Qed.

Lemma cleanup_locals_run dry ts t w :
  t ∈ backup_types → Forall (λ h, h ∈ backup_types) ts → NoDup ts →
  (String.eqb dry "true" = true
   ∨ ∀ h n, h ∈ ts → n ∈ old_backups h w →
            is_dir (backup_dir_of h +:+ "/" +:+ n) w = false) →
  (for_in ts (cleanup_local dry) w).1 = Done 0 ∧
  dirs (for_in ts (cleanup_local dry) w).2 = dirs w ∧
  bucket (for_in ts (cleanup_local dry) w).2 = bucket w ∧
  ∀ n, files (for_in ts (cleanup_local dry) w).2 !! (backup_dir_of t +:+ "/" +:+ n) =
         if decide (t ∈ ts ∧ String.eqb dry "true" = false ∧
                    is_dir (backup_dir_of t) w = true ∧ n ∈ old_backups t w)
         then None else files w !! (backup_dir_of t +:+ "/" +:+ n).
Proof.
  intros Ht Hts Hnd. revert w.
  induction Hts as [|h ts Hh Hts IH]; intros w Hok.
  - by repeat split.
  - apply NoDup_cons in Hnd as [Hh_notin Hnd]. specialize (IH Hnd).
    assert (String.eqb dry "true" = true
            ∨ ∀ n, n ∈ old_backups h w →
                   is_dir (backup_dir_of h +:+ "/" +:+ n) w = false) as Hok_h.
    { destruct Hok as [?|Hok]; [by left|right]. intros n. apply Hok. by left. }
    destruct (cleanup_local_run dry h w Hok_h) as (Hst & Hdirs & Hbucket & Hfiles).
    assert (for_in (h :: ts) (cleanup_local dry) w
            = for_in ts (cleanup_local dry) (cleanup_local dry h w).2) as ->.
    { cbn [for_in]. rewrite seq_run.
      destruct (cleanup_local dry h w) as [st w1]. simpl in Hst. by subst st. }
    set (w1 := (cleanup_local dry h w).2) in *.
    destruct (IH w1) as (Hst' & Hdirs' & Hbucket' & Hfiles').
    { destruct Hok as [?|Hok]; [by left|right]. intros h' n Hh' Hn.
      assert (h ≠ h') as Hne by (by intros ->).
      assert (h' ∈ backup_types) as Hh'_type
        by (by apply (proj1 (Forall_forall _ _) Hts)).
      destruct (cleanup_local_other dry h h' w Hh Hh'_type Hne Hok_h) as (Hold & _).
      fold w1 in Hold. rewrite Hold in Hn.
      unfold is_dir. rewrite Hdirs. apply (Hok h' n); [by right|done]. }
    split; [done|]. split; [congruence|]. split; [congruence|].
    intros n. rewrite Hfiles', Hfiles.
    destruct (decide (h = t)) as [->|Hne].
    + rewrite (decide_False (P:=t ∈ ts ∧ _)) by (by intros (? & _)).
      destruct (decide (String.eqb dry "true" = false ∧
                        is_dir (backup_dir_of t) w = true ∧
                        backup_dir_of t +:+ "/" +:+ n
                          ∈ (λ x, backup_dir_of t +:+ "/" +:+ x) <$> old_backups t w))
        as [(? & ? & Hin)|Hnot].
      * apply elem_of_dir_paths in Hin. rewrite decide_True; [done|].
        repeat split; [by left|done..].
      * rewrite decide_False; [done|]. intros (_ & ? & ? & Hin).
        apply Hnot. repeat split; [done..|]. by apply elem_of_dir_paths.
    + destruct (cleanup_local_other dry h t w Hh Ht Hne Hok_h) as (Hold & Hisdir & _).
      fold w1 in Hold, Hisdir. rewrite Hold, Hisdir.
      rewrite (decide_False (P:=_ ∧ _ ∧ _ ∈ _ <$> _)).
      2:{ intros (_ & _ & (y & Hy & _)%list_elem_of_fmap).
          by apply (type_paths_distinct t h n y) in Hy. }
      destruct (decide (t ∈ ts ∧ _)) as [(? & ?)|Hnot].
      * rewrite decide_True; [done|]. split; [by right|done].
      * rewrite decide_False; [done|]. intros ([?|?]%elem_of_cons & ?); [done|].
        by apply Hnot.
Qed.

Lemma cleanup_locals_dry dry ts w :
  String.eqb dry "true" = true →
  (for_in ts (cleanup_local dry) w).1 = Done 0 ∧
  files (for_in ts (cleanup_local dry) w).2 = files w ∧
  dirs (for_in ts (cleanup_local dry) w).2 = dirs w ∧
  bucket (for_in ts (cleanup_local dry) w).2 = bucket w.
Proof.
  intros Hdry. revert w. induction ts as [|h ts IH]; intros w; [done|].
  destruct (cleanup_local_run dry h w (or_introl Hdry))
    as (Hst & Hdirs & Hbucket & Hfiles).
  assert (files (cleanup_local dry h w).2 = files w) as Hsame.
  { apply map_eq. intros p. rewrite Hfiles, decide_False; [done|].
    intros (? & _). congruence. }
  assert (for_in (h :: ts) (cleanup_local dry) w
          = for_in ts (cleanup_local dry) (cleanup_local dry h w).2) as ->.
  { cbn [for_in]. rewrite seq_run.
    destruct (cleanup_local dry h w) as [st w1]. simpl in Hst. by subst st. }
  destruct (IH (cleanup_local dry h w).2) as (? & ? & ? & ?).
  repeat split; congruence.
Qed.

(** However the loop over the types ends, it has touched nothing but
    files below the directories of these types. *)
Lemma cleanup_locals_frame dry ts w :
  ((for_in ts (cleanup_local dry) w).1 = Done 0
   ∨ (for_in ts (cleanup_local dry) w).1 = Exit 1) ∧
  dirs (for_in ts (cleanup_local dry) w).2 = dirs w ∧
  bucket (for_in ts (cleanup_local dry) w).2 = bucket w ∧
  ∀ p, Forall (λ t, String.prefix (backup_dir_of t +:+ "/") p = false) ts →
       files (for_in ts (cleanup_local dry) w).2 !! p = files w !! p.
Proof.
  revert w. induction ts as [|h ts IH]; intros w; [by repeat split; auto|].
  destruct (cleanup_local_frame dry h w) as (Hst & Hdirs & Hbucket & Hfiles).
  cbn [for_in]. rewrite seq_run.
  destruct (cleanup_local dry h w) as [st w1]. cbn [fst snd] in *.
  destruct Hst as [-> | ->].
  - destruct (IH w1) as (Hst' & Hdirs' & Hbucket' & Hfiles').
    split; [done|]. split; [congruence|]. split; [congruence|].
    intros p [Hp Hps]%Forall_cons. rewrite Hfiles' by done. by apply Hfiles.
  - split; [by right|]. split; [done|]. split; [done|].
    intros p [Hp _]%Forall_cons. by apply Hfiles.
Qed.

Lemma cloud_loop dry names w :
  let c := for_in names (λ backup,
             if_ (λ _, String.eqb dry "true")
               (echo ("Would delete from cloud: " +:+ backup))
               (aws_s3_rm backup;;
                log_info ("Deleted old cloud backup: " +:+ backup))) in
  (c w).1 = Done 0 ∧ files (c w).2 = files w ∧ dirs (c w).2 = dirs w ∧
  (String.eqb dry "true" = true → bucket (c w).2 = bucket w).
Proof.
  intros c. subst c. revert w. induction names as [|n names IH]; intros w; [done|].
  cbn [for_in]. rewrite seq_run. unfold if_ at 1.
  destruct (String.eqb dry "true") eqn:Hdry.
  - change (echo ?l w) with (Done 0, set_stdout (λ out, out ++ [l]) w). cbv beta iota.
    match goal with |- context [for_in names ?f ?w'] =>
      destruct (IH w') as (? & ? & ? & Hb) end.
    repeat split; [done..|]. intros _. exact (Hb eq_refl).
  - rewrite seq_run. unfold aws_s3_rm at 1, log_info at 1, echo at 1. cbv beta iota.
    match goal with |- context [for_in names ?f ?w'] =>
      destruct (IH w') as (? & ? & ? & _) end.
    repeat split; done.
Qed.

Lemma cleanup_cloud_run dry w :
  (cleanup_cloud dry w).1 = Done 0 ∧
  files (cleanup_cloud dry w).2 = files w ∧
  dirs (cleanup_cloud dry w).2 = dirs w ∧
  (String.eqb dry "true" = true → bucket (cleanup_cloud dry w).2 = bucket w).
Proof.
  unfold cleanup_cloud, if_. destruct (aws_lists_backups w); [|done].
  unfold local_capture, capture, print_lines. cbv beta iota zeta.
  cbn [fst snd stdout set_stdout app].
  match goal with |- context [for_in ?l _ ?w'] =>
    destruct (cloud_loop dry l w') as (? & ? & ? & Hb) end.
  repeat split; [done..|]. intros Hdry. exact (Hb Hdry).
Qed.

Lemma NoDup_backup_types : NoDup backup_types.
Proof.
  unfold backup_types. repeat constructor;
    rewrite ?elem_of_cons, ?elem_of_nil; intros H; decompose [or] H; done.
Qed.

(** [cleanup_backups], from its two parts, when no [rm -f] fails. *)
Lemma cleanup_backups_run dry w :
  (String.eqb dry "true" = true
   ∨ ∀ h n, h ∈ backup_types → n ∈ old_backups h w →
            is_dir (backup_dir_of h +:+ "/" +:+ n) w = false) →
  let w0 := set_stdout
              (λ out, out ++ [BLUE +:+ "[INFO]" +:+ NC +:+ " " +:+
                 ("Cleaning up old backups (keeping " +:+ pretty MAX_LOCAL_BACKUPS
                  +:+ " local, " +:+ pretty MAX_CLOUD_BACKUPS +:+ " cloud)...")])
              (set_calls (λ l, l ++ ["cleanup_backups"]) w) in
  let w1 := (for_in backup_types (cleanup_local dry) w0).2 in
  (cleanup_backups dry w).1 = Done 0 ∧
  files (cleanup_backups dry w).2 = files w1 ∧
  dirs (cleanup_backups dry w).2 = dirs w1 ∧
  (String.eqb dry "true" = true → bucket (cleanup_backups dry w).2 = bucket w1).
Proof.
  intros Hok w0 w1. unfold cleanup_backups, call. rewrite seq_run.
  change (log_info _ _) with (Done 0, w0). cbv beta iota. rewrite seq_run.
  fold backup_types.
  assert ((for_in backup_types (cleanup_local dry) w0).1 = Done 0) as Hst.
  { apply (cleanup_locals_run dry backup_types "database" w0);
      [by left|by apply Forall_forall|apply NoDup_backup_types|exact Hok]. }
  fold w1. destruct (for_in backup_types (cleanup_local dry) w0) as [st w1'].
  simpl in Hst, w1. subst st w1. rewrite seq_run.
  destruct (cleanup_cloud_run dry w1') as (Hc & Hf & Hd & Hb).
  destruct (cleanup_cloud dry w1') as [st w2]. simpl in Hc, Hf, Hd, Hb. subst st.
  unfold if_, log_success, echo, true_.
  destruct (negb (String.eqb dry "true")); simpl; repeat split; done.
Qed.

(** [cleanup_backups], however it ends: it goes on to the cloud part only
    when the local part has ended well. *)
Lemma cleanup_backups_cases dry w :
  let w0 := set_stdout
              (λ out, out ++ [BLUE +:+ "[INFO]" +:+ NC +:+ " " +:+
                 ("Cleaning up old backups (keeping " +:+ pretty MAX_LOCAL_BACKUPS
                  +:+ " local, " +:+ pretty MAX_CLOUD_BACKUPS +:+ " cloud)...")])
              (set_calls (λ l, l ++ ["cleanup_backups"]) w) in
  let w1 := (for_in backup_types (cleanup_local dry) w0).2 in
  ((cleanup_backups dry w).1 = Exit 1 ∧ (cleanup_backups dry w).2 = w1)
  ∨ ((cleanup_backups dry w).1 = Done 0 ∧
     files (cleanup_backups dry w).2 = files (cleanup_cloud dry w1).2 ∧
     dirs (cleanup_backups dry w).2 = dirs (cleanup_cloud dry w1).2 ∧
     bucket (cleanup_backups dry w).2 = bucket (cleanup_cloud dry w1).2).
Proof.
  intros w0 w1. unfold cleanup_backups, call. rewrite seq_run.
  change (log_info _ _) with (Done 0, w0). cbv beta iota. rewrite seq_run.
  fold backup_types.
  destruct (cleanup_locals_frame dry backup_types w0) as (Hst & _).
  fold w1. destruct (for_in backup_types (cleanup_local dry) w0) as [st w1'].
  cbn [fst snd] in Hst, w1. subst w1. destruct Hst as [-> | ->]; [right|by left].
  rewrite seq_run.
  destruct (cleanup_cloud_run dry w1') as (Hc & _).
  destruct (cleanup_cloud dry w1') as [st w2]. cbn [fst snd] in *. subst st.
  unfold if_, log_success, echo, true_.
  by destruct (negb (String.eqb dry "true")).
Qed.

(** Whatever [cleanup_backups] does, it leaves the directories and every
    file outside the three backup directories as they were. *)
Lemma cleanup_backups_frame dry w :
  dirs (cleanup_backups dry w).2 = dirs w ∧
  ∀ p, Forall (λ t, String.prefix (backup_dir_of t +:+ "/") p = false) backup_types →
       files (cleanup_backups dry w).2 !! p = files w !! p.
Proof.
  destruct (cleanup_backups_cases dry w) as [[_ Hw]|(_ & Hf & Hd & _)];
    cbv zeta in *;
    match goal with H : context [for_in _ _ ?w'] |- _ =>
      destruct (cleanup_locals_frame dry backup_types w') as (_ & Hdirs & _ & Hfiles)
    end.
  - rewrite Hw. split; [exact Hdirs|]. intros p Hp. by rewrite Hfiles.
  - match type of Hf with _ = files (cleanup_cloud _ ?w1).2 =>
      destruct (cleanup_cloud_run dry w1) as (_ & Hcf & Hcd & _) end.
    split; [by rewrite Hd, Hcd, Hdirs|].
    intros p Hp. by rewrite Hf, Hcf, Hfiles.
Qed.















End CleanupProofs.


(** * Further properties of the migration script *)

Module MigrationRun.
Import Text Migrator MigratorSpec PhaseSpec MigratorProofs.

Section Run.
Variable uuidv4 : nat → string.
Variable JSON_stringify : list string → string.

(** [verifyMigration] accepts exactly when the four counts it compares
    agree, and it writes neither to the store nor to the mapper. *)
Theorem verifyMigration_accepts_iff_the_four_counts_agree db m :
  ((verifyMigration db m).1 = Ok tt ↔
     length (textbooks db) = length (textbook (prisma m)) ∧
     length (passagesets db) = length (passageSet (prisma m)) ∧
     length (questions db) = length (question (prisma m)) ∧
     length (systemprompts db) = length (systemPrompt (prisma m))) ∧
  prisma (verifyMigration db m).2 = prisma m ∧
  idMapping (verifyMigration db m).2 = idMapping m.
Proof.
  split; [|split].
  - rewrite verifyMigration_result. unfold mongoStats, sqliteStats.
    destruct (stats_eq_dec _ _) as [Heq|Hne].
    + injection Heq as ? ? ? ?. done.
    + split; [discriminate|]. intros (? & ? & ? & ?). exfalso. apply Hne. congruence.
  - apply (verifyMigration_state db m).
  - assert (invariant (λ s, idMapping s = idMapping m) (verifyMigration db)) as H
      by (unfold verifyMigration; invariant_steps).
    by apply H.
Qed.

(** However [migrate] ends, the last console line tells how: the success
    line, or the failure line with the message of the error it rejects
    with. *)
Theorem migrate_ends_with_its_outcome_line config mongo up m :
  let r := migrate uuidv4 JSON_stringify config mongo up m in
  last (console r.2) = Some (outcome_line r.1).
Proof.
  intros r. subst r. rewrite migrate_run.
  destruct (steps_1_to_5 _ _ _ _ _ _) as [[db|e] m1].
  - destruct (verifyMigration db m1) as [[[]|e] m2]; simpl; apply last_snoc.
  - simpl. apply last_snoc.
Qed.

(** When one of the two stores cannot be reached, [migrate] rejects with
    the connection error of the first that fails, the source being tried
    first, and nothing has been written: the target store, the mapper and
    the identifier counter are as they were. *)
Theorem migrate_unreachable_store_writes_nothing config mongo up m :
  mongo = None ∨ up = false →
  let r := migrate uuidv4 JSON_stringify config mongo up m in
  r.1 = Throw (if mongo is None then MongoConnectError else PrismaConnectError) ∧
  prisma r.2 = prisma m ∧ idMapping r.2 = idMapping m ∧
  uuid_calls r.2 = uuid_calls m ∧ journal r.2 = journal m.
Proof.
  intros H r. subst r. rewrite migrate_run.
  destruct mongo as [db|].
  - destruct H as [? | ->]; [done|]. by repeat split.
  - by repeat split.
Qed.

(** Each import phase changes the rows of its own table only, and the
    relationship phase those of the junction table only, however they
    end. *)
Theorem each_phase_writes_its_own_table db :
  writes_only TTextbook (migrateTextbooks uuidv4 db) ∧
  writes_only TPassageSet (migratePassageSets uuidv4 db) ∧
  writes_only TQuestion (migrateQuestions uuidv4 JSON_stringify db) ∧
  writes_only TSystemPrompt (migrateSystemPrompts uuidv4 db) ∧
  writes_only TSystemPromptVersion (migrateSystemPromptVersions uuidv4 db) ∧
  writes_only TPassageSetTextbook (establishRelationships db).
Proof.
  repeat split; intros m.
  - by apply (migrateTextbooks_frame uuidv4 (clear_table TTextbook)).
  - by apply (migratePassageSets_frame uuidv4 (clear_table TPassageSet)).
  - by apply (migrateQuestions_frame uuidv4 JSON_stringify (clear_table TQuestion)).
  - by apply (migrateSystemPrompts_frame uuidv4 (clear_table TSystemPrompt)).
  - by apply (migrateSystemPromptVersions_frame uuidv4
                (clear_table TSystemPromptVersion)).
  - by apply (establishRelationships_frame (clear_table TPassageSetTextbook)).
Qed.

(** A run of the question loop that ends well has left the mapper alone,
    written one row per question whose [setId] the mapper resolves, each
    under the target identifier of that [setId], and printed a warning for
    every other question. *)
Theorem migrateQuestions_skips_what_it_cannot_resolve db m m' :
  migrateQuestions uuidv4 JSON_stringify db m = (Ok tt, m') →
  idMapping m' = idMapping m ∧
  length (question (prisma m')) =
    length (question (prisma m))
    + length (filter (λ q, resolvable (idMapping m) q) (questions db)) ∧
  (∀ q, q ∈ questions db → resolvable (idMapping m) q = false →
        skipped_question_line q ∈ console m') ∧
  (∀ row, row ∈ question (prisma m') →
        row ∈ question (prisma m)
        ∨ ∃ q, q ∈ questions db ∧
               idMapping m !! MongoQuestion.setId q = Some (Question.setId row)).
Proof.
  intros Hrun.
  destruct (migrateQuestions_count uuidv4 JSON_stringify db m m' Hrun) as [Him Hlen].
  split; [done|]. split; [done|].
  unfold migrateQuestions in Hrun.
  apply bind_ok in Hrun as ([] & m1 & Hlog & Hrun).
  apply bind_ok in Hrun as (count & m2 & Hloop & Hend).
  injection Hlog as <-. injection Hend as <-.
  set (I := λ (rest : list MongoQuestion.t) (s : Migrator),
    idMapping s = idMapping m ∧ rest ⊆ questions db ∧
    (∀ q, q ∈ questions db → resolvable (idMapping m) q = false →
          q ∈ rest ∨ skipped_question_line q ∈ console s) ∧
    (∀ row, row ∈ question (prisma s) →
          row ∈ question (prisma m)
          ∨ ∃ q, q ∈ questions db ∧
                 idMapping m !! MongoQuestion.setId q = Some (Question.setId row))).
  assert (I [] m2) as (_ & _ & Hwarn & Hrows).
  { eapply (for_of_ok I); cycle 2; [exact Hloop| |].
    - clear Hloop. intros x rest a s a' s' (Hs & Hsub & Hw & Hr) Hbody.
      assert (x ∈ questions db) as Hx by (apply Hsub; by left).
      assert (rest ⊆ questions db) as Hsub' by (intros q Hq; apply Hsub; by right).
      unfold uuid, idMapping_get, gets in Hbody.
      rewrite !bind_run in Hbody. cbn [fst snd set_uuid_calls idMapping] in Hbody.
      rewrite Hs in Hbody.
      destruct (not_ (idMapping m !! MongoQuestion.setId x)) eqn:Hnot.
      + injection Hbody as _ <-. split; [done|]. split; [done|]. split.
        * intros q Hq Hres. destruct (Hw q Hq Hres) as [[->|?]%elem_of_cons|?].
          -- right. cbn [console set_console set_uuid_calls]. apply elem_of_app.
             right. by apply list_elem_of_singleton.
          -- by left.
          -- right. cbn [console set_console set_uuid_calls]. apply elem_of_app.
             by left.
        * done.
      + apply bind_ok in Hbody as ([] & s1 & Hcreate & Hrest).
        unfold question_create, create in Hcreate.
        destruct (constraint_violation _ _ _ _); [discriminate|].
        injection Hcreate as <-.
        assert (console s' = console s ∨ ∃ l, console s' = console s ++ [l]) as Hc.
        { rewrite !bind_run in Hrest. cbn in Hrest.
          destruct (_ =? 0)%nat; injection Hrest as _ <-; cbn; eauto. }
        assert (idMapping s' = idMapping s ∧
                question (prisma s') = question (prisma s) ++
                  [Question.mk (uuidv4 (uuid_calls s))
                     (default "" (idMapping m !! MongoQuestion.setId x))
                     (MongoQuestion.questionNumber x) (MongoQuestion.questionText x)
                     (JSON_stringify (MongoQuestion.options x))
                     (MongoQuestion.correctAnswer x) (MongoQuestion.explanation x)
                     (MongoQuestion.createdAt x) (MongoQuestion.updatedAt x)])
          as [Him' Hq'].
        { rewrite !bind_run in Hrest. cbn in Hrest.
          destruct (_ =? 0)%nat; injection Hrest as _ <-; by cbn. }
        split; [congruence|]. split; [done|]. split.
        * intros q Hq Hres. destruct (Hw q Hq Hres) as [[->|?]%elem_of_cons|Hin].
          -- unfold resolvable in Hres. by rewrite Hnot in Hres.
          -- by left.
          -- right. destruct Hc as [->|[l ->]]; [done|]. apply elem_of_app. by left.
        * intros row. rewrite Hq'. intros [Hin|Hin%list_elem_of_singleton]%elem_of_app.
          -- by apply Hr.
          -- right. exists x. subst row. cbn.
             destruct (idMapping m !! MongoQuestion.setId x) as [t|]; [|done].
             by split.
    - split; [done|]. split; [done|]. split; [by left|]. intros row Hrow. by left. }
  split.
  - intros q Hq Hres. destruct (Hwarn q Hq Hres) as [?%elem_of_nil|Hin]; [done|].
    cbn. apply elem_of_app. by left.
  - exact Hrows.
Qed.

(** A run of the textbook loop that ends well has drawn one identifier and
    written one row per source textbook, and the mapper resolves the
    identifier of every source textbook to the [id] of a row of the
    table. *)
Theorem migrateTextbooks_imports_every_textbook db m m' :
  migrateTextbooks uuidv4 db m = (Ok tt, m') →
  length (textbook (prisma m')) = length (textbook (prisma m)) + length (textbooks db) ∧
  uuid_calls m' = uuid_calls m + length (textbooks db) ∧
  ∀ tb, tb ∈ textbooks db →
    ∃ t, idMapping m' !! MongoTextbook._id tb = Some t ∧
         t ∈ Textbook.id <$> textbook (prisma m').
Proof.
  unfold migrateTextbooks. intros Hrun.
  apply bind_ok in Hrun as ([] & m1 & Hlog & Hrun).
  apply bind_ok in Hrun as (count & m2 & Hloop & Hend).
  injection Hlog as <-. injection Hend as <-.
  set (I := λ (rest : list MongoTextbook.t) (s : Migrator),
    ∃ seen, textbooks db = seen ++ rest ∧
      length (textbook (prisma s)) = length (textbook (prisma m)) + length seen ∧
      uuid_calls s = uuid_calls m + length seen ∧
      ∀ tb, tb ∈ seen →
        ∃ t, idMapping s !! MongoTextbook._id tb = Some t ∧
             t ∈ Textbook.id <$> textbook (prisma s)).
  assert (I [] m2) as (seen & Hall & Hlen & Hcalls & Hmap).
  { eapply (for_of_ok I); cycle 2; [exact Hloop| |].
    - clear Hloop. intros x rest a s a' s' (seen & Hall & Hlen & Hcalls & Hmap) Hbody.
      apply bind_ok in Hbody as (newId & s1 & Hassign & Hbody).
      injection Hassign as <- <-.
      apply bind_ok in Hbody as ([] & s2 & Hcreate & Hrest).
      unfold textbook_create, create in Hcreate.
      destruct (constraint_violation _ _ _ _); [discriminate|].
      injection Hcreate as <-.
      assert (idMapping s' = <[MongoTextbook._id x:=uuidv4 (uuid_calls s)]> (idMapping s) ∧
              uuid_calls s' = S (uuid_calls s) ∧
              textbook (prisma s') = textbook (prisma s) ++
                [Textbook.mk (uuidv4 (uuid_calls s)) (MongoTextbook.title x)
                   (MongoTextbook.publisher x) (MongoTextbook.subject x)
                   (MongoTextbook.level x) (MongoTextbook.grade x)
                   (MongoTextbook.createdAt x) (MongoTextbook.updatedAt x)])
        as (Him & Hc & Ht).
      { rewrite !bind_run in Hrest. cbn in Hrest.
        destruct (_ =? 0)%nat; injection Hrest as _ <-; by cbn. }
      exists (seen ++ [x]). rewrite <- app_assoc, length_app. cbn [length app].
      split; [done|]. split; [rewrite Ht, length_app; cbn; lia|]. split; [lia|].
      intros tb Htb. rewrite Him, Ht, fmap_app. cbn [fmap list_fmap Textbook.id].
      destruct (decide (MongoTextbook._id tb = MongoTextbook._id x)) as [->|Hne].
      + exists (uuidv4 (uuid_calls s)). rewrite lookup_insert_eq. split; [done|].
        apply elem_of_app. right. by left.
      + rewrite lookup_insert_ne by done.
        apply elem_of_app in Htb as [Htb|Htb%list_elem_of_singleton]; [|by subst].
        destruct (Hmap tb Htb) as (t & ? & ?). exists t. split; [done|].
        apply elem_of_app. by left.
    - exists []. repeat split; [cbn; lia..|]. by intros tb ?%elem_of_nil. }
  rewrite app_nil_r in Hall. subst seen. done.
Qed.

(** The same for the passage sets. *)
Theorem migratePassageSets_imports_every_passage_set db m m' :
  migratePassageSets uuidv4 db m = (Ok tt, m') →
  length (passageSet (prisma m')) =
    length (passageSet (prisma m)) + length (passagesets db) ∧
  uuid_calls m' = uuid_calls m + length (passagesets db) ∧
  ∀ ps, ps ∈ passagesets db →
    ∃ t, idMapping m' !! MongoPassageSet._id ps = Some t ∧
         t ∈ PassageSet.id <$> passageSet (prisma m').
Proof.
  unfold migratePassageSets. intros Hrun.
  apply bind_ok in Hrun as ([] & m1 & Hlog & Hrun).
  apply bind_ok in Hrun as (count & m2 & Hloop & Hend).
  injection Hlog as <-. injection Hend as <-.
  set (I := λ (rest : list MongoPassageSet.t) (s : Migrator),
    ∃ seen, passagesets db = seen ++ rest ∧
      length (passageSet (prisma s)) = length (passageSet (prisma m)) + length seen ∧
      uuid_calls s = uuid_calls m + length seen ∧
      ∀ ps, ps ∈ seen →
        ∃ t, idMapping s !! MongoPassageSet._id ps = Some t ∧
             t ∈ PassageSet.id <$> passageSet (prisma s)).
  assert (I [] m2) as (seen & Hall & Hlen & Hcalls & Hmap).
  { eapply (for_of_ok I); cycle 2; [exact Hloop| |].
    - clear Hloop. intros x rest a s a' s' (seen & Hall & Hlen & Hcalls & Hmap) Hbody.
      apply bind_ok in Hbody as (newId & s1 & Hassign & Hbody).
      injection Hassign as <- <-.
      apply bind_ok in Hbody as ([] & s2 & Hcreate & Hrest).
      unfold passageSet_create, create in Hcreate.
      destruct (constraint_violation _ _ _ _); [discriminate|].
      injection Hcreate as <-.
      assert (idMapping s' = <[MongoPassageSet._id x:=uuidv4 (uuid_calls s)]> (idMapping s) ∧
              uuid_calls s' = S (uuid_calls s) ∧
              passageSet (prisma s') = passageSet (prisma s) ++
                [PassageSet.mk (uuidv4 (uuid_calls s)) (MongoPassageSet.title x)
                   (MongoPassageSet.passage x) (MongoPassageSet.passageComment x)
                   (MongoPassageSet.qrCode x)
                   (MongoPassageSet.createdAt x) (MongoPassageSet.updatedAt x)])
        as (Him & Hc & Ht).
      { rewrite !bind_run in Hrest. cbn in Hrest.
        destruct (_ =? 0)%nat; injection Hrest as _ <-; by cbn. }
      exists (seen ++ [x]). rewrite <- app_assoc, length_app. cbn [length app].
      split; [done|]. split; [rewrite Ht, length_app; cbn; lia|]. split; [lia|].
      intros ps Hps. rewrite Him, Ht, fmap_app. cbn [fmap list_fmap PassageSet.id].
      destruct (decide (MongoPassageSet._id ps = MongoPassageSet._id x)) as [->|Hne].
      + exists (uuidv4 (uuid_calls s)). rewrite lookup_insert_eq. split; [done|].
        apply elem_of_app. right. by left.
      + rewrite lookup_insert_ne by done.
        apply elem_of_app in Hps as [Hps|Hps%list_elem_of_singleton]; [|by subst].
        destruct (Hmap ps Hps) as (t & ? & ?). exists t. split; [done|].
        apply elem_of_app. by left.
    - exists []. repeat split; [cbn; lia..|]. by intros ps ?%elem_of_nil. }
  rewrite app_nil_r in Hall. subst seen. done.
Qed.

(** **** What the mapper holds *)

Lemma keys_within_frame {A} ids (c : M A) :
  (∀ v, invariant (λ m, idMapping m = v) c) → invariant (keys_within ids) c.
Proof.
  intros H m Hm k. rewrite (H (idMapping m) m eq_refl). apply Hm.
Qed.

Lemma steps_1_to_5_keys config db up :
  invariant (keys_within (assigned_ids db))
    (steps_1_to_5 uuidv4 JSON_stringify config (Some db) up).
Proof.
  intros m Hm. unfold steps_1_to_5. rewrite bind_run.
  destruct up; [|exact Hm].
  change (setupConnections (Some db) true m)
    with (Ok db, set_prisma (update_foreign_keys (λ _, true))
                   (set_console (λ c, c ++ [(LOG, "🔗 데이터베이스 연결 설정...")]) m)).
  cbv beta iota.
  match goal with |- keys_within _ (?c ?m0).2 =>
    enough (invariant (keys_within (assigned_ids db)) c) as H by (by apply H)
  end.
  apply invariant_bind;
    [apply keys_within_frame; intros v;
     unfold backupExistingData; invariant_steps|intros _].
  apply invariant_bind;
    [apply keys_within_frame; intros v; unfold initializeSQLite; invariant_steps
    |intros _].
  apply invariant_bind; [apply assign_keys_T|intros _].
  apply invariant_bind; [apply assign_keys_PS|intros _].
  apply invariant_bind;
    [apply keys_within_frame; intros v; apply migrateQuestions_idMapping|intros _].
  apply invariant_bind;
    [apply keys_within_frame; intros v;
     unfold migrateSystemPrompts, uuid, systemPrompt_create; invariant_steps
    |intros _].
  apply invariant_bind;
    [apply keys_within_frame; intros v;
     unfold migrateSystemPromptVersions, uuid, systemPromptVersion_create;
     invariant_steps
    |intros _].
  apply invariant_bind;
    [apply keys_within_frame; intros v;
     unfold establishRelationships, link_passageSet, link_textbook, idMapping_get,
       passageSetTextbook_create; invariant_steps
    |intros _].
  by intros ? ?.
Qed.

(** After a run, however it ended, the mapper of a new migrator holds
    nothing but identifiers of source textbooks and passage sets. *)
Theorem only_textbooks_and_passage_sets_are_mapped config mongo up target :
  let m' := (migrate uuidv4 JSON_stringify config mongo up (new_migrator target)).2 in
  ∀ k, is_Some (idMapping m' !! k) → ∃ db, mongo = Some db ∧ k ∈ assigned_ids db.
Proof.
  intros m' k. subst m'. rewrite migrate_run.
  destruct mongo as [db|].
  - match goal with |- is_Some (idMapping ?x !! k) → _ =>
      enough (keys_within (assigned_ids db) x) as H
        by (intros Hk; exists db; split; [done|by apply H])
    end.
    assert (keys_within (assigned_ids db)
              (steps_1_to_5 uuidv4 JSON_stringify config (Some db) up
                 (started (new_migrator target))).2) as H1.
    { apply steps_1_to_5_keys. intros k' [t Hk]. cbn in Hk.
      by rewrite lookup_empty in Hk. }
    destruct (steps_1_to_5 _ _ _ _ _ _) as [[db0|e] m1]; [|exact H1].
    assert (keys_within (assigned_ids db) (verifyMigration db0 m1).2) as H2.
    { apply keys_within_frame; [|exact H1]. intros v.
      unfold verifyMigration. invariant_steps. }
    destruct (verifyMigration db0 m1) as [[[]|e] m2]; exact H2.
  - cbn. intros [t Hk]. by rewrite lookup_empty in Hk.
Qed.

(** **** What the relationship phase adds *)

Lemma link_textbook_sound db m ps P tb rc :
  ps ∈ passagesets db → tb ∈ MongoPassageSet.textbooks ps →
  idMapping m !! MongoPassageSet._id ps = Some P →
  invariant (links_since db m) (link_textbook (Some P) tb rc).
Proof.
  intros Hps Htb HP s (Him & added & Hrows & Hadded).
  unfold link_textbook, idMapping_get, gets. rewrite bind_run. cbv beta iota.
  rewrite Him. destruct (idMapping m !! tb) as [T|] eqn:HT; cbn [not_].
  2:{ split; [done|]. by exists added. }
  case_bool_decide.
  { split; [done|]. by exists added. }
  unfold try_catch, passageSetTextbook_create, create. rewrite bind_run.
  destruct (constraint_violation _ _ _ _).
  { split; [done|]. by exists added. }
  split; [done|]. exists (added ++ [PassageSetTextbook.mk T P]). split.
  - cbn. by rewrite Hrows, <- app_assoc.
  - intros row [Hrow|Hrow%list_elem_of_singleton]%elem_of_app; [by apply Hadded|].
    subst row. by exists ps, tb.
Qed.

Lemma link_passageSet_sound db m ps rc :
  ps ∈ passagesets db → invariant (links_since db m) (link_passageSet ps rc).
Proof.
  intros Hps s Hs. unfold link_passageSet, idMapping_get, gets.
  rewrite bind_run. cbv beta iota.
  destruct Hs as (Him & Hs). rewrite Him.
  destruct (idMapping m !! MongoPassageSet._id ps) as [P|] eqn:HP; cbn [not_];
    [|by split].
  case_bool_decide; [by split|].
  apply for_of_keeps; [|by split].
  intros tb a s' Htb Hs'. by apply (link_textbook_sound db m ps P tb a).
Qed.

(** Relationship resolution never fails and never touches the mapper; it
    keeps the junction rows that were there, in their order, and every
    row it adds joins the target identifiers that the mapper holds for a
    source passage set and for one of the textbooks that passage set
    lists. *)
Theorem establishRelationships_adds_only_declared_links db m :
  let r := establishRelationships db m in
  r.1 = Ok tt ∧ idMapping r.2 = idMapping m ∧
  ∃ added,
    passageSetTextbook (prisma r.2) = passageSetTextbook (prisma m) ++ added ∧
    ∀ row, row ∈ added → declared_link db (idMapping m) row.
Proof.
  intros r. subst r. unfold establishRelationships. rewrite !bind_run.
  set (m0 := set_console (λ c, c ++ [(LOG, "🔗 관계 설정 중...")]) m).
  change (console_log "🔗 관계 설정 중..." m) with (Ok tt, m0). cbv beta iota.
  rewrite bind_run.
  assert (links_since db m (for_of (passagesets db) link_passageSet 0 m0).2) as H.
  { apply for_of_keeps.
    - intros ps a s Hps Hs. by apply link_passageSet_sound.
    - split; [done|]. exists []. split; [by rewrite app_nil_r|].
      by intros row ?%elem_of_nil. }
  destruct (for_of_total (passagesets db) link_passageSet link_passageSet_total 0 m0)
    as (rc & m1 & Hrun).
  rewrite Hrun in H |- *. exact (conj eq_refl H).
Qed.

End Run.

(** **** The theorems at concrete runs *)

Lemma migrate_unreachable_store_witness :
  let r := migrate test_uuid test_json test_config None true
             (new_migrator store_with_old_version) in
  r.1 = Throw MongoConnectError ∧ prisma r.2 = store_with_old_version.
Proof.
  destruct (migrate_unreachable_store_writes_nothing test_uuid test_json test_config
              None true (new_migrator store_with_old_version))
    as (Hthrow & Hprisma & _).
  - by left.
  - split; [exact Hthrow|exact Hprisma].
Defined.

Lemma migrateQuestions_skips_witness :
  let r := migrateQuestions test_uuid test_json orphan_db linked_migrator in
  r.1 = Ok tt ∧
  length (question (prisma r.2)) = 1 ∧
  skipped_question_line (a_question "q2" "gone") ∈ console r.2.
Proof.
  destruct (migrateQuestions_skips_what_it_cannot_resolve test_uuid test_json
              orphan_db linked_migrator
              (migrateQuestions test_uuid test_json orphan_db linked_migrator).2)
    as (_ & Hlen & Hwarn & _).
  - vm_compute. reflexivity.
  - split; [vm_compute; reflexivity|]. split; [exact Hlen|].
    apply Hwarn.
    + apply list_elem_of_In. simpl. auto.
    + vm_compute. reflexivity.
Defined.

Lemma migrateTextbooks_imports_witness :
  let r := migrateTextbooks test_uuid linked_db (new_migrator empty_store) in
  length (textbook (prisma r.2)) = 1 ∧ uuid_calls r.2 = 1 ∧
  ∃ t, idMapping r.2 !! "t1" = Some t ∧ t ∈ Textbook.id <$> textbook (prisma r.2).
Proof.
  destruct (migrateTextbooks_imports_every_textbook test_uuid linked_db
              (new_migrator empty_store)
              (migrateTextbooks test_uuid linked_db (new_migrator empty_store)).2)
    as (Hlen & Hcalls & Hmap).
  - vm_compute. reflexivity.
  - split; [exact Hlen|]. split; [exact Hcalls|].
    apply (Hmap (a_textbook "t1")). apply list_elem_of_In. simpl. auto.
Defined.

Lemma migratePassageSets_imports_witness :
  let r := migratePassageSets test_uuid linked_db (new_migrator empty_store) in
  length (passageSet (prisma r.2)) = 1 ∧ uuid_calls r.2 = 1 ∧
  ∃ t, idMapping r.2 !! "p1" = Some t ∧ t ∈ PassageSet.id <$> passageSet (prisma r.2).
Proof.
  destruct (migratePassageSets_imports_every_passage_set test_uuid linked_db
              (new_migrator empty_store)
              (migratePassageSets test_uuid linked_db (new_migrator empty_store)).2)
    as (Hlen & Hcalls & Hmap).
  - vm_compute. reflexivity.
  - split; [exact Hlen|]. split; [exact Hcalls|].
    apply (Hmap (a_passageSet "p1" "qr1" ["t1"; "t1"])).
    apply list_elem_of_In. simpl. auto.
Defined.

Lemma only_textbooks_and_passage_sets_witness :
  ∃ db, Some linked_db = Some db ∧ "t1" ∈ assigned_ids db.
Proof.
  apply (only_textbooks_and_passage_sets_are_mapped test_uuid test_json test_config
           (Some linked_db) true empty_store "t1").
  vm_compute. eauto.
Defined.

End MigrationRun.

(** * Further properties of the backup script *)

Module FilesProofs.
Import Text BackupRestore BackupRestoreSpec ScriptSpec TextProofs CleanupProofs
  BackupRestoreProofs.

Lemma prefix_app (a b : string) : String.prefix a (a +:+ b) = true.
Proof.
  induction a as [|c a IH]; [by destruct b|].
  change (String c a +:+ b) with (String c (a +:+ b)). cbn [String.prefix].
  by destruct (ascii_dec c c).
Qed.

(** **** The members of a tree *)

Lemma elem_of_members dir base w rel f :
  (rel, f) ∈ members dir base w ↔
  files w !! (dir +:+ "/" +:+ rel) = Some f ∧ String.prefix (base +:+ "/") rel = true.
Proof.
  unfold members. rewrite list_elem_of_omap. split.
  - intros ([path f'] & Hin & Hrel). simpl in Hrel.
    apply elem_of_map_to_list in Hin.
    destruct (strip_prefix (dir +:+ "/") path) as [rel'|] eqn:Hstrip; [|done].
    simpl in Hrel. destruct (String.prefix (base +:+ "/") rel') eqn:Hpre; [|done].
    injection Hrel as <- <-. apply strip_prefix_Some in Hstrip.
    rewrite string_app_assoc in Hstrip. by subst path.
  - intros [Hfile Hpre]. exists (dir +:+ "/" +:+ rel, f). split.
    + by apply elem_of_map_to_list.
    + simpl. rewrite <- string_app_assoc, strip_prefix_app. simpl. by rewrite Hpre.
Qed.

Lemma members_unique dir base w rel f1 f2 :
  (rel, f1) ∈ members dir base w → (rel, f2) ∈ members dir base w → f1 = f2.
Proof. rewrite !elem_of_members. intros [H1 _] [H2 _]. congruence. Qed.

(** **** Extraction *)

Lemma extract_hit dir (ms : list (string * File)) (fs : gmap string File) rel f :
  (∀ f', (rel, f') ∈ ms → f' = f) → (rel, f) ∈ ms →
  foldr (λ e, insert (dir +:+ "/" +:+ e.1) e.2) fs ms !! (dir +:+ "/" +:+ rel) = Some f.
Proof.
  induction ms as [|[rel' f'] ms IH]; intros Huniq Hin; [by apply elem_of_nil in Hin|].
  cbn [foldr fst snd].
  destruct (decide (rel' = rel)) as [->|Hne].
  - rewrite lookup_insert_eq. f_equal. apply Huniq. by left.
  - rewrite lookup_insert_ne by (by intros ?%same_dir_inj).
    apply IH.
    + intros f'' ?. apply Huniq. by right.
    + apply elem_of_cons in Hin as [[= ? ?]|?]; done.
Qed.

Lemma extract_miss dir (ms : list (string * File)) (fs : gmap string File) k :
  (∀ rel f, (rel, f) ∈ ms → k ≠ dir +:+ "/" +:+ rel) →
  foldr (λ e, insert (dir +:+ "/" +:+ e.1) e.2) fs ms !! k = fs !! k.
Proof.
  induction ms as [|[rel f] ms IH]; intros Hmiss; [done|].
  cbn [foldr fst snd]. rewrite lookup_insert_ne.
  - apply IH. intros rel' f' ?. apply (Hmiss rel' f'). by right.
  - intros Heq. apply (Hmiss rel f); [by left|done].
Qed.

(** **** Moving the current tree aside *)

Lemma aside_not_below sfx rest x :
  (FILES_PATH +:+ ".pre-restore-" +:+ sfx) +:+ rest ≠ FILES_PATH +:+ "/" +:+ x.
Proof.
  rewrite !string_app_assoc. intros H. apply String.app_inj in H. discriminate.
Qed.

Lemma rename_not_below sfx p x :
  rename_under FILES_PATH (FILES_PATH +:+ ".pre-restore-" +:+ sfx) p
    ≠ FILES_PATH +:+ "/" +:+ x.
Proof.
  unfold rename_under. case_bool_decide.
  - rewrite <- (string_app_nil_r (_ +:+ _ +:+ sfx)). apply aside_not_below.
  - destruct (strip_prefix (FILES_PATH +:+ "/") p) as [rest|] eqn:Hstrip.
    + apply aside_not_below.
    + intros ->. by rewrite <- string_app_assoc, strip_prefix_app in Hstrip.
Qed.

Lemma rename_backup sfx p rest :
  rename_under FILES_PATH (FILES_PATH +:+ ".pre-restore-" +:+ sfx) p
    = BACKUP_BASE_PATH +:+ rest →
  p = BACKUP_BASE_PATH +:+ rest.
Proof.
  unfold rename_under. case_bool_decide.
  - intros H'. simpl in H'. discriminate.
  - destruct (strip_prefix (FILES_PATH +:+ "/") p) as [rest'|] eqn:Hstrip; [|done].
    intros H'. simpl in H'. discriminate.
Qed.

Lemma rename_backup_id sfx rest :
  rename_under FILES_PATH (FILES_PATH +:+ ".pre-restore-" +:+ sfx)
    (BACKUP_BASE_PATH +:+ rest) = BACKUP_BASE_PATH +:+ rest.
Proof.
  unfold rename_under. rewrite bool_decide_eq_false_2.
  - destruct (strip_prefix (FILES_PATH +:+ "/") (BACKUP_BASE_PATH +:+ rest))
      as [rest'|] eqn:Hstrip; [|done].
    apply strip_prefix_Some in Hstrip. simpl in Hstrip. discriminate.
  - intros H'. simpl in H'. discriminate.
Qed.

Lemma moved_aside sfx (fs : gmap string File) :
  let fs' : gmap string File :=
    list_to_map ((λ e, (rename_under FILES_PATH
                          (FILES_PATH +:+ ".pre-restore-" +:+ sfx) e.1, e.2))
                   <$> map_to_list fs) in
  (∀ x, fs' !! (FILES_PATH +:+ "/" +:+ x) = None) ∧
  (∀ rest, fs' !! (BACKUP_BASE_PATH +:+ rest) = fs !! (BACKUP_BASE_PATH +:+ rest)).
Proof.
  intros fs'. subst fs'. split.
  - intros x. apply not_elem_of_list_to_map_1.
    rewrite <- list_fmap_compose. intros ([p f] & Heq & _)%list_elem_of_fmap.
    simpl in Heq. symmetry in Heq. by apply rename_not_below in Heq.
  - intros rest. destruct (fs !! (BACKUP_BASE_PATH +:+ rest)) as [f|] eqn:Hf.
    + apply elem_of_list_to_map_1'.
      * intros f' ([p f''] & [= Hp ->] & Hin)%list_elem_of_fmap.
        simpl in Hp. symmetry in Hp. apply rename_backup in Hp. subst p.
        apply elem_of_map_to_list in Hin. congruence.
      * apply list_elem_of_fmap. exists (BACKUP_BASE_PATH +:+ rest, f). split.
        -- simpl. by rewrite rename_backup_id.
        -- by apply elem_of_map_to_list.
    + apply not_elem_of_list_to_map_1.
      rewrite <- list_fmap_compose. intros ([p f] & Heq & Hin)%list_elem_of_fmap.
      simpl in Heq. symmetry in Heq. apply rename_backup in Heq. subst p.
      apply elem_of_map_to_list in Hin. congruence.
Qed.


Section Files.
Variable E : Externals.

(** The step of [restore_files] that moves the current tree aside. *)
Lemma move_aside_run (w : World) :
  let c : Sh :=
    if_ (is_dir FILES_PATH)
      (λ w,
         let current_backup := FILES_PATH +:+ ".pre-restore-" +:+ date E w in
         (mv_dir FILES_PATH FILES_BASENAME current_backup;;
          log_info ("Current files backed up to: " +:+ current_backup)) w)
      true_ in
  (c w).1 = Done 0 ∧
  (∀ rest, files (c w).2 !! (BACKUP_BASE_PATH +:+ rest)
           = files w !! (BACKUP_BASE_PATH +:+ rest)) ∧
  ((is_dir FILES_PATH w = false → ∀ x, files w !! (FILES_PATH +:+ "/" +:+ x) = None) →
   ∀ x, files (c w).2 !! (FILES_PATH +:+ "/" +:+ x) = None).
Proof.
  intros c. subst c. unfold if_.
  destruct (is_dir FILES_PATH w) eqn:Hdir.
  2:{ split; [done|]. split; [done|]. intros H. by apply H. }
  cbv zeta. rewrite seq_run.
  assert (∃ sfx,
    mv_dir FILES_PATH FILES_BASENAME
      (FILES_PATH +:+ ".pre-restore-" +:+ date E w) w =
    (Done 0,
     set_dirs
       (set_map (rename_under FILES_PATH (FILES_PATH +:+ ".pre-restore-" +:+ sfx)))
       (set_files
          (λ fs, list_to_map
                   ((λ e, (rename_under FILES_PATH
                             (FILES_PATH +:+ ".pre-restore-" +:+ sfx) e.1, e.2))
                      <$> map_to_list fs)) w))) as [sfx Hmv].
  { unfold mv_dir.
    destruct (is_dir (FILES_PATH +:+ ".pre-restore-" +:+ date E w) w).
    - eexists. by rewrite !string_app_assoc.
    - by eexists. }
  rewrite Hmv. unfold log_info, echo. cbn [fst snd files set_files set_dirs set_stdout].
  destruct (moved_aside sfx (files w)) as [Hbelow Hbackup].
  split; [done|]. split; [exact Hbackup|]. intros _. exact Hbelow.
Qed.

Lemma backup_files_writes_the_archive backup_name w :
  is_dir FILES_PATH w = true →
  (backup_files E backup_name w).1 = Done 0 ∧
  files (backup_files E backup_name w).2 =
    <[files_backup_path backup_name :=
        mkFile (tar_czf E (members FILES_DIRNAME FILES_BASENAME w)) (clock w)]>
      (files w) ∧
  dirs (backup_files E backup_name w).2 = dirs w ∧
  last (stdout (backup_files E backup_name w).2) = Some (files_backup_path backup_name).
Proof.
  intros Hdir. unfold files_backup_path.
  unfold backup_files, call, seq, if_, return_, log_info, log_success, echo.
  cbn -[String.append FILES_PATH BACKUP_BASE_PATH is_dir members].
  change (is_dir FILES_PATH (set_stdout _ (set_calls _ w))) with (is_dir FILES_PATH w).
  rewrite Hdir. cbn -[String.append FILES_PATH BACKUP_BASE_PATH members].
  repeat split. apply last_snoc.
Qed.

Lemma restore_files_run backup_name w' a ds ms :
  files w' !! files_backup_path backup_name = Some a →
  tar_xzf E (content a) = Some (ds, ms) →
  (is_dir FILES_PATH w' = false →
     ∀ x, files w' !! (FILES_PATH +:+ "/" +:+ x) = None) →
  ∃ w4 w3,
    restore_files E backup_name w' = (Done 0, w4) ∧
    files w4 = foldr (λ e, insert (FILES_DIRNAME +:+ "/" +:+ e.1) e.2) (files w3) ms ∧
    ∀ x, files w3 !! (FILES_PATH +:+ "/" +:+ x) = None.
Proof.
  intros Hkept Htar Hfree. unfold files_backup_path in Hkept.
  unfold restore_files, call. rewrite !seq_run.
  unfold if_ at 1, is_file. cbn [files set_calls].
  rewrite Hkept, bool_decide_eq_true_2 by eauto. cbn [negb].
  unfold true_ at 1. cbv beta iota. rewrite seq_run.
  unfold log_info at 1, echo at 1. cbv beta iota. rewrite seq_run.
  match goal with |- context [if_ (is_dir FILES_PATH) ?a ?b ?w0] =>
    destruct (move_aside_run w0) as (Hst & Hbackup & Hbelow);
    destruct (if_ (is_dir FILES_PATH) a b w0) as [st w3] eqn:Hmove
  end.
  cbn [fst snd] in Hst, Hbackup, Hbelow. subst st. cbv beta iota.
  rewrite seq_run. unfold mkdir_p at 1. cbv beta iota. rewrite seq_run.
  unfold tar_x at 1. cbn [files set_dirs].
  rewrite Hbackup. cbn [files set_stdout set_calls]. rewrite Hkept.
  cbn [mbind option_bind]. rewrite Htar.
  cbv beta iota. unfold log_success, echo.
  eexists _, w3. split; [reflexivity|]. split; [reflexivity|].
  by apply Hbelow.
Qed.

(** When the archive is not there, [restore_files] returns 1 and has
    changed no file and no directory: the current files are not moved
    aside.  All it does is print the error, which for a name without
    backslash ([echo -e] would interpret one) is the line that ends with
    the path of the archive. *)
Theorem restore_files_missing_archive_changes_nothing backup_name w :
  files w !! files_backup_path backup_name = None →
  let r := restore_files E backup_name w in
  r.1 = Done 1 ∧ files r.2 = files w ∧ dirs r.2 = dirs w ∧
  (no_backslash backup_name = true →
   stdout r.2 = stdout w ++ [RED +:+ "[ERROR]" +:+ NC +:+ " "
                             +:+ "Files backup not found: "
                             +:+ files_backup_path backup_name]).
Proof.
  intros Hmissing r. subst r. unfold files_backup_path in *.
  unfold restore_files, call, seq, if_, is_file, return_, log_error, echo.
  run_script. by repeat split.
Qed.

(** Without a files directory [backup_files] writes no archive: it prints
    a warning and returns 1. *)
Theorem backup_files_without_the_directory_writes_nothing backup_name w :
  is_dir FILES_PATH w = false →
  let r := backup_files E backup_name w in
  r.1 = Done 1 ∧ files r.2 = files w ∧ dirs r.2 = dirs w ∧
  last (stdout r.2) = Some (YELLOW +:+ "[WARNING]" +:+ NC +:+ " "
                            +:+ "Files directory not found: " +:+ FILES_PATH).
Proof.
  intros Hdir r. subst r.
  unfold backup_files, call, seq, if_, return_, log_info, log_warning, echo.
  cbn -[String.append FILES_PATH BACKUP_BASE_PATH is_dir].
  change (is_dir FILES_PATH (set_stdout _ (set_calls _ w))) with (is_dir FILES_PATH w).
  rewrite Hdir. cbn -[String.append FILES_PATH BACKUP_BASE_PATH].
  repeat split. apply last_snoc.
Qed.

(** With a files directory [backup_files] writes the archive of the tree
    below it under the backup's name, changes no other file, and ends with
    status 0, its last line being the path of the archive. *)
Theorem backup_files_archives_the_directory backup_name w :
  is_dir FILES_PATH w = true →
  let r := backup_files E backup_name w in
  r.1 = Done 0 ∧
  files r.2 = <[files_backup_path backup_name :=
                 mkFile (tar_czf E (members FILES_DIRNAME FILES_BASENAME w)) (clock w)]>
                (files w) ∧
  dirs r.2 = dirs w ∧
  last (stdout r.2) = Some (files_backup_path backup_name).
Proof.
  intros Hdir r. subst r. by apply backup_files_writes_the_archive.
Qed.

(** Backup, then restore: when [tar] gives back the members it archived,
    the archive that [backup_files] wrote is still as written, and
    whatever is now below the files directory can be moved aside,
    [restore_files] ends with status 0 and the tree below the files
    directory is, path by path, what it was when the backup was taken. *)
Theorem restore_files_gives_back_what_backup_files_archived backup_name w w' ds :
  is_dir FILES_PATH w = true →
  tar_xzf E (tar_czf E (members FILES_DIRNAME FILES_BASENAME w))
    = Some (ds, members FILES_DIRNAME FILES_BASENAME w) →
  files w' !! files_backup_path backup_name
    = files (backup_files E backup_name w).2 !! files_backup_path backup_name →
  (is_dir FILES_PATH w' = false →
     ∀ x, files w' !! (FILES_PATH +:+ "/" +:+ x) = None) →
  let r := restore_files E backup_name w' in
  r.1 = Done 0 ∧
  ∀ x, files r.2 !! (FILES_PATH +:+ "/" +:+ x) = files w !! (FILES_PATH +:+ "/" +:+ x).
Proof.
  intros Hdir Htar Hkept Hfree r. subst r.
  destruct (backup_files_writes_the_archive backup_name w Hdir) as (_ & Hfiles & _).
  rewrite Hfiles, lookup_insert_eq in Hkept. clear Hfiles.
  destruct (restore_files_run backup_name w' _ ds _ Hkept Htar Hfree)
    as (w4 & w3 & -> & Hfiles & Hbelow).
  split; [done|]. intros x. cbn [snd]. rewrite Hfiles.
  destruct (files w !! (FILES_PATH +:+ "/" +:+ x)) as [f|] eqn:Hx.
  - change (FILES_PATH +:+ "/" +:+ x)
      with (FILES_DIRNAME +:+ "/" +:+ (FILES_BASENAME +:+ "/" +:+ x)) in *.
    apply extract_hit.
    + intros f' [Hf' _]%elem_of_members. congruence.
    + apply elem_of_members. split; [done|].
      rewrite <- string_app_assoc. apply prefix_app.
  - rewrite extract_miss; [apply Hbelow|].
    intros rel f [Hf _]%elem_of_members Heq. rewrite <- Heq in Hf. congruence.
Qed.

End Files.
End FilesProofs.

Module RestoreProofs.
Import Text BackupRestore BackupRestoreSpec ScriptSpec BackupRestoreProofs FilesProofs.

Section Restore.
Variable E : Externals.

(** When the backup file is not there, [restore_database] returns 1 and
    no file, no directory and no cloud object has changed, and the API has
    not been stopped.  All it does is print the error, which for a name
    without backslash ([echo -e] would interpret one) is the line that ends
    with the path of the backup. *)
Theorem restore_database_missing_backup_changes_nothing backup_name w :
  files w !! database_backup_path backup_name = None →
  let r := restore_database E backup_name w in
  r.1 = Done 1 ∧ files r.2 = files w ∧ dirs r.2 = dirs w ∧
  bucket r.2 = bucket w ∧ api_online r.2 = api_online w ∧
  (no_backslash backup_name = true →
   stdout r.2 = stdout w ++ [RED +:+ "[ERROR]" +:+ NC +:+ " "
                             +:+ "Database backup not found: "
                             +:+ database_backup_path backup_name]).
Proof.
  intros Hmissing r. subst r. unfold database_backup_path in *.
  unfold restore_database, call, seq, if_, is_file, return_, log_error, echo.
  run_script. by repeat split.
Qed.

(** When the backup is there but the live store is not, the copy to the
    safety file fails and the shell exits with status 1: nothing has been
    restored, and the API that was stopped for the restore is left
    stopped. *)
Theorem restore_database_without_live_store_leaves_api_stopped backup_name w b :
  files w !! database_backup_path backup_name = Some b →
  files w !! DATABASE_PATH = None →
  let r := restore_database E backup_name w in
  r.1 = Exit 1 ∧ files r.2 = files w ∧ api_online r.2 = false.
Proof.
  intros Hb Hlive r. subst r. unfold database_backup_path in *.
  unfold restore_database, call, seq, if_, is_file, return_, true_, or_true,
    pm2_stop, log_error, log_info, echo, cp, date.
  run_script. by repeat split.
Qed.

Lemma schema_ne_live : schema_path ≠ DATABASE_PATH.
Proof. intros H. vm_compute in H. discriminate. Qed.

Lemma schema_ne_safety suffix :
  schema_path ≠ DATABASE_PATH +:+ ".pre-restore-" +:+ suffix.
Proof. intros H. simpl in H. discriminate. Qed.

Lemma restore_database_passes backup_name w f b :
  files w !! DATABASE_PATH = Some f →
  files w !! database_backup_path backup_name = Some b →
  contains "ok" (integrity_check E (content b)) = true →
  let r := restore_database E backup_name w in
  api_online r.2 = true ∧
  content <$> files r.2 !! safety_copy_path E w = Some (content f) ∧
  r.1 = (if is_file schema_path w && negb (is_dir PROJECT_PATH w)
         then Exit 1 else Done 0) ∧
  content <$> files r.2 !! DATABASE_PATH =
    Some (if is_file schema_path w && is_dir PROJECT_PATH w
          then default (content b) (prisma_db_push E (content b))
          else content b).
Proof.
  intros Hlive Hb Hcheck r. subst r.
  unfold database_backup_path, safety_copy_path in *.
  unfold restore_database, call, seq, if_, is_file, return_, true_, or_true,
    pm2_stop, pm2_start, log_error, log_info, log_success, echo, cp, integrity_ok, date.
  run_script.
  change (content {| content := content b; mtime := clock w |}) with (content b).
  rewrite Hcheck. run_script.
  fold schema_path.
  rewrite lookup_insert_ne by (apply not_eq_sym, schema_ne_live).
  rewrite lookup_insert_ne by (apply not_eq_sym, schema_ne_safety).
  destruct (files w !! schema_path) as [s|] eqn:Hschema.
  2:{ rewrite bool_decide_eq_false_2 by (by intros [? ?]). run_script.
      by repeat split; run_script. }
  rewrite bool_decide_eq_true_2 by eauto.
  unfold or_, log_warning, echo, is_dir.
  cbn -[String.append DATABASE_PATH BACKUP_BASE_PATH PROJECT_PATH contains].
  destruct (bool_decide (PROJECT_PATH ∈ dirs w)); run_script.
  - change (content {| content := content b; mtime := clock w |}) with (content b).
    destruct (prisma_db_push E (content b)) as [c|]; run_script;
      by repeat split; run_script.
  - by repeat split; run_script.
Qed.

(** C1.  [restore_database] takes the consistency check on the restored
    store to have passed whenever the report of [PRAGMA integrity_check]
    holds the letters ok, its test being [grep -q "ok"].  On a machine with
    a live store and the chosen backup, the pre-restore contents are put in
    the timestamped safety copy, and a report without these letters is
    followed by the rollback and the return of 1.  But a report of a failed
    check that holds them, as every report that names the table Textbook
    does, is followed by no rollback: with no Prisma schema file to push,
    the function returns 0 and the live store is left with the contents of
    the bad backup. *)
Theorem C1_restore_database_rolls_back_only_without_ok backup_name w f b :
  files w !! DATABASE_PATH = Some f →
  files w !! database_backup_path backup_name = Some b →
  let r := restore_database E backup_name w in
  let report := integrity_check E (content b) in
  content <$> files r.2 !! safety_copy_path E w = Some (content f) ∧
  (contains "ok" report = false →
     r.1 = Done 1 ∧ content <$> files r.2 !! DATABASE_PATH = Some (content f)) ∧
  (report ≠ sound_report → contains "ok" report = true →
   is_file schema_path w = false →
     r.1 = Done 0 ∧ content <$> files r.2 !! DATABASE_PATH = Some (content b)).
Proof.
  intros Hlive Hb r report. subst r report.
  destruct (contains "ok" (integrity_check E (content b))) eqn:Hcheck.
  - destruct (restore_database_passes backup_name w f b Hlive Hb Hcheck)
      as (_ & Hsafe & Hst & Hstore).
    split; [exact Hsafe|]. split; [discriminate|].
    intros _ _ Hschema. rewrite Hschema in Hst, Hstore. by split.
  - destruct (restore_database_outcome E backup_name w f Hlive) as [_ Hback].
    destruct (Hback b Hb Hcheck) as (Hst & Hstore & Hsafe).
    split; [exact Hsafe|]. split; [by split|discriminate].
Qed.


(** How [backup_database] ends, by the test on the report of the copy. *)
Lemma backup_database_outcome backup_name w :
  let r := backup_database E backup_name w in
  let log := BLUE +:+ "[INFO]" +:+ NC +:+ " " +:+ "Creating database backup: "
             +:+ backup_name in
  let row := checkpoint_row E (default "" (content <$> files w !! DATABASE_PATH)) in
  if contains "ok" (integrity_check E (database_copy E w))
  then r.1 = Done 0 ∧
       files r.2 !! database_backup_path backup_name
         = Some (mkFile (database_copy E w) (clock w)) ∧
       stdout r.2 = stdout w ++ [log] ++ [row]
                      ++ [GREEN +:+ "[SUCCESS]" +:+ NC +:+ " "
                          +:+ "Database backup verified: " +:+ backup_name +:+ ".db"]
                      ++ [database_backup_path backup_name]
  else r.1 = Exit 1 ∧
       (is_dir (database_backup_path backup_name) w = false →
        files r.2 !! database_backup_path backup_name = None) ∧
       stdout r.2 = stdout w ++ [log] ++ [row] ++ [backup_error_line].
Proof.
  intros r log row. subst r log row.
  unfold database_copy, database_backup_path, backup_error_line.
  unfold backup_database, call, seq, if_, exit_, log_error, log_info,
    log_success, echo, rm_f, is_dir, integrity_ok, sqlite3_wal_checkpoint,
    sqlite3_backup.
  destruct (files w !! DATABASE_PATH) as [f|] eqn:Hf; run_script;
    cbv [default from_option id fmap option_fmap option_map]; cbn [content mtime];
    match goal with |- context [integrity_check E ?c] =>
      destruct (contains "ok" (integrity_check E c)) end; run_script.
  1,3: split; [done|]; split; [done|]; by rewrite <- !app_assoc.
  all: destruct (bool_decide (_ ∈ dirs w));
    cbn [fst snd files stdout set_files set_stdout set_calls];
    (split; [done|]);
    (split; [intros ?; try done; by rewrite lookup_delete_eq
            |by rewrite <- !app_assoc]).
Qed.

(** C8.  [backup_database] takes the consistency check on the copy to have
    passed whenever the report of [PRAGMA integrity_check] holds the
    letters ok, its test being [grep -q "ok"].  A report without these
    letters is followed by the error line, the deletion of the copy and
    [exit 1].  But a report of a failed check that holds them, as every
    report that names the table Textbook does, is followed by the success
    line: the function ends with status 0, the corrupt copy is kept at the
    backup path, and the path is printed as that of a good backup. *)
Theorem C8_backup_database_deletes_the_copy_only_without_ok backup_name w :
  let r := backup_database E backup_name w in
  let report := integrity_check E (database_copy E w) in
  (contains "ok" report = false →
   is_dir (database_backup_path backup_name) w = false →
     r.1 = Exit 1 ∧
     files r.2 !! database_backup_path backup_name = None ∧
     backup_error_line ∈ stdout r.2) ∧
  (report ≠ sound_report → contains "ok" report = true →
     r.1 = Done 0 ∧
     files r.2 !! database_backup_path backup_name
       = Some (mkFile (database_copy E w) (clock w)) ∧
     last (stdout r.2) = Some (database_backup_path backup_name)).
Proof.
  intros r report. subst r report.
  pose proof (backup_database_outcome backup_name w) as Hrun. cbv zeta in Hrun.
  destruct (contains "ok" (integrity_check E (database_copy E w))).
  - destruct Hrun as (Hst & Hcopy & Hout). split; [discriminate|].
    intros _ _. split; [exact Hst|]. split; [exact Hcopy|].
    rewrite Hout, !app_assoc. apply last_snoc.
  - destruct Hrun as (Hst & Hgone & Hout). split; [|discriminate].
    intros _ Hfile. split; [exact Hst|]. split; [by apply Hgone|].
    rewrite Hout, !app_assoc. apply elem_of_app. right.
    by apply list_elem_of_singleton.
Qed.






End Restore.

(** **** The command line *)

Section CommandLine.
Variable E : Externals.

Lemma restore_scope_step (scope arg : string) :
  scope ∈ ["full"; "database"; "files"] →
  (if String.eqb arg "--db-only" then "database"
   else if String.eqb arg "--files-only" then "files" else scope)
    ∈ ["full"; "database"; "files"].
Proof.
  intros H. destruct (String.eqb arg "--db-only"); [by right; left|].
  destruct (String.eqb arg "--files-only"); [by right; right; left|done].
Qed.

Lemma backup_scope_step (scope arg : string) :
  scope ∈ ["full"; "database"; "files"] →
  (if String.eqb arg "--full" then "full"
   else if String.eqb arg "--db-only" then "database"
   else if String.eqb arg "--files-only" then "files" else scope)
    ∈ ["full"; "database"; "files"].
Proof.
  intros H. destruct (String.eqb arg "--full"); [by left|].
  by apply restore_scope_step.
Qed.

(** The option loops of [main] yield one of the three scopes whatever the
    arguments are, so the [case] on the scope always finds its branch. *)
Theorem the_scope_is_always_one_of_three args :
  parse_restore_type args ∈ ["full"; "database"; "files"] ∧
  parse_backup_type args ∈ ["full"; "database"; "files"].
Proof.
  unfold parse_restore_type, parse_backup_type.
  enough (∀ scope, scope ∈ ["full"; "database"; "files"] →
    foldl (λ restore_type arg,
             if String.eqb arg "--db-only" then "database"
             else if String.eqb arg "--files-only" then "files"
             else restore_type) scope args ∈ ["full"; "database"; "files"] ∧
    foldl (λ backup_type arg,
             if String.eqb arg "--full" then "full"
             else if String.eqb arg "--db-only" then "database"
             else if String.eqb arg "--files-only" then "files"
             else backup_type) scope args ∈ ["full"; "database"; "files"]) as H
    by (apply H; by left).
  induction args as [|arg args IH]; intros scope Hscope; [by split|].
  cbn [foldl]. split.
  - by apply IH, restore_scope_step.
  - by apply (IH _ (backup_scope_step _ arg Hscope)).
Qed.

(** The last scope option on the command line decides, whatever comes
    before it and whatever other words follow it; with no scope option
    the scope is full.  ([--full] is a scope option of [backup] only.) *)
Theorem the_last_scope_option_wins before after :
  Forall (λ a, a ∉ ["--full"; "--db-only"; "--files-only"]) after →
  parse_restore_type (before ++ "--db-only" :: after) = "database" ∧
  parse_restore_type (before ++ "--files-only" :: after) = "files" ∧
  parse_backup_type (before ++ "--db-only" :: after) = "database" ∧
  parse_backup_type (before ++ "--files-only" :: after) = "files" ∧
  parse_backup_type (before ++ "--full" :: after) = "full" ∧
  parse_restore_type after = "full" ∧ parse_backup_type after = "full".
Proof.
  intros Hafter.
  assert (∀ scope,
    foldl (λ restore_type arg,
             if String.eqb arg "--db-only" then "database"
             else if String.eqb arg "--files-only" then "files"
             else restore_type) scope after = scope ∧
    foldl (λ backup_type arg,
             if String.eqb arg "--full" then "full"
             else if String.eqb arg "--db-only" then "database"
             else if String.eqb arg "--files-only" then "files"
             else backup_type) scope after = scope) as Hkeep.
  { induction Hafter as [|a after Ha _ IH]; intros scope; [done|].
    cbn [foldl].
    assert (String.eqb a "--full" = false) as ->
      by (apply String.eqb_neq; intros ->; apply Ha; by left).
    assert (String.eqb a "--db-only" = false) as ->
      by (apply String.eqb_neq; intros ->; apply Ha; by right; left).
    assert (String.eqb a "--files-only" = false) as ->
      by (apply String.eqb_neq; intros ->; apply Ha; by right; right; left).
    apply IH. }
  unfold parse_restore_type, parse_backup_type.
  rewrite !foldl_app. cbn [foldl String.eqb Ascii.eqb Bool.eqb].
  repeat split; apply Hkeep.
Qed.

(** The [cleanup] command is a dry run, which ends with status 0 and
    changes no file, no directory and no cloud object, when [--dry-run] is
    its first argument; with anything else in that place, [--dry-run] later
    on the line included, it does and ends as [cleanup_backups false]
    does. *)
Theorem cleanup_is_a_dry_run_only_when_asked_first args w :
  let r := script E ("cleanup" :: args) w in
  let w0 := set_calls (λ l, l ++ ["main"]) w in
  (hd "" args = "--dry-run" →
     r.1 = 0 ∧ files r.2 = files w ∧ dirs r.2 = dirs w ∧ bucket r.2 = bucket w) ∧
  (hd "" args ≠ "--dry-run" →
     r.1 = status_code (cleanup_backups "false" w0).1 ∧
     r.2 = (cleanup_backups "false" w0).2).
Proof.
  intros r w0. subst r. unfold script, main, call.
  cbn [String.eqb Ascii.eqb Bool.eqb]. fold w0.
  split.
  - intros Hfirst. rewrite Hfirst. cbn [String.eqb Ascii.eqb Bool.eqb].
    destruct (CleanupProofs.cleanup_backups_run "true" w0 (or_introl eq_refl))
      as (Hst & Hfiles & Hdirs & Hbucket).
    cbv zeta in Hfiles, Hdirs, Hbucket.
    match type of Hfiles with _ = files (for_in _ _ ?w').2 =>
      destruct (CleanupProofs.cleanup_locals_dry "true" backup_types w' eq_refl)
        as (_ & Hf & Hd & Hb)
    end.
    destruct (cleanup_backups "true" w0) as [st w1].
    cbn [fst snd] in *. subst st. cbn [fst snd status_code].
    split; [done|]. split; [by rewrite Hfiles, Hf|]. split; [by rewrite Hdirs, Hd|].
    by rewrite (Hbucket eq_refl), Hb.
  - intros Hfirst%String.eqb_neq. rewrite Hfirst.
    by destruct (cleanup_backups "false" w0) as [[rc|rc|rc] w1].
Qed.

End CommandLine.

(** **** Directories *)

(** [ensure_backup_dirs] makes the four backup directories, keeps every
    directory and file that was there, and running it again changes
    nothing more. *)
Theorem ensure_backup_dirs_is_idempotent w :
  let r := ensure_backup_dirs w in
  r.1 = Done 0 ∧ files r.2 = files w ∧
  Forall (λ t, is_dir (BACKUP_BASE_PATH +:+ t) r.2 = true)
    ["/database"; "/files"; "/full"; "/logs"] ∧
  dirs w ⊆ dirs r.2 ∧
  dirs (ensure_backup_dirs r.2).2 = dirs r.2.
Proof.
  intros r. subst r. unfold ensure_backup_dirs, call, seq, mkdir_p, is_dir.
  cbn -[String.append BACKUP_BASE_PATH].
  split; [done|]. split; [done|]. split; [|split].
  - repeat constructor; apply bool_decide_eq_true_2;
      rewrite !elem_of_union, !elem_of_singleton; auto 10.
  - intros d Hd. rewrite !elem_of_union. auto 10.
  - apply set_eq. intros d. rewrite !elem_of_union, !elem_of_singleton. tauto.
Qed.

(** Whatever the file names are and whether it is a dry run or not,
    [cleanup_backups] changes no directory and no file outside the three
    backup directories. *)
Theorem cleanup_touches_only_the_backup_directories dry_run w p :
  Forall (λ t, String.prefix (backup_dir_of t +:+ "/") p = false) backup_types →
  let r := cleanup_backups dry_run w in
  files r.2 !! p = files w !! p ∧ dirs r.2 = dirs w.
Proof.
  intros Hout r. subst r.
  destruct (CleanupProofs.cleanup_backups_frame dry_run w) as (Hdirs & Hfiles).
  split; [by apply Hfiles|exact Hdirs].
Qed.

End RestoreProofs.

Module CloudProofs.
Import Text BackupRestore BackupRestoreSpec ScriptSpec TextProofs CleanupProofs
  FilesProofs.

Lemma prefix_split (p s : string) :
  String.prefix p s = true → ∃ rest, s = p +:+ rest.
Proof.
  revert s. induction p as [|c p IH]; intros s H; [by exists s|].
  destruct s as [|d s]; [done|]. cbn [String.prefix] in H.
  destruct (ascii_dec c d) as [->|]; [|done].
  destruct (IH s H) as [rest ->]. by exists rest.
Qed.

Lemma no_ifs_app (a b : string) :
  no_ifs (a +:+ b) = no_ifs a && no_ifs b.
Proof.
  unfold no_ifs. induction a as [|c a IH]; [done|].
  change (String c a +:+ b) with (String c (a +:+ b)). cbn.
  by rewrite IH, andb_assoc.
Qed.

Lemma string_of_list_ascii_snoc l c x :
  string_of_list_ascii (l ++ [c]) +:+ x = string_of_list_ascii l +:+ String c x.
Proof.
  induction l as [|d l IH]; [done|]. cbn [app string_of_list_ascii].
  change (String d ?a +:+ ?b) with (String d (a +:+ b)). by rewrite IH.
Qed.

(** The first field of a string that starts inside a field. *)
Lemma first_word_go cur s :
  cur ≠ [] →
  ∃ x, hd "" (words_go cur s) = string_of_list_ascii (rev cur) +:+ x ∧
       no_ifs x = true.
Proof.
  revert cur. induction s as [|c s IH]; intros cur Hcur.
  - exists "". split; [|done]. rewrite string_app_nil_r. by destruct cur.
  - cbn [words_go]. destruct (is_ifs c) eqn:Hc.
    + exists "". split; [|done]. rewrite string_app_nil_r. by destruct cur.
    + destruct (IH (c :: cur)) as (x & Hx & Hno); [done|].
      exists (String c x). split.
      * by rewrite Hx; cbn [rev]; rewrite string_of_list_ascii_snoc.
      * unfold no_ifs in *. cbn. by rewrite Hc, Hno.
Qed.

Lemma first_word p s :
  p ≠ "" → no_ifs p = true →
  ∃ x, hd "" (words (p +:+ s)) = p +:+ x ∧ no_ifs x = true.
Proof.
  intros Hp Hno. unfold words. rewrite words_go_app, app_nil_r by done.
  destruct (first_word_go (rev (list_ascii_of_string p)) s) as (x & Hx & Hx').
  - intros Hrev. apply Hp. rewrite <- (string_of_list_ascii_of_string p).
    by rewrite <- (rev_involutive (list_ascii_of_string p)), Hrev.
  - exists x. by rewrite Hx, rev_involutive, string_of_list_ascii_of_string.
Qed.

(** **** What the cloud part asks [aws] to delete *)

Lemma old_cloud_backups_prefixed w name :
  name ∈ words (unlines (old_cloud_backups w)) →
  ∃ x, name = (CLOUD_PREFIX +:+ "/") +:+ x.
Proof.
  unfold old_cloud_backups. destruct (bucket w) as [objects|]; [|by intros ?%elem_of_nil].
  cbv zeta.
  set (listed := filter (λ o : string * nat,
                           String.prefix (CLOUD_PREFIX +:+ "/") o.1 = true)
                   (map_to_list objects)).
  set (keys := head_but_last MAX_CLOUD_BACKUPS (merge_sort older_first listed).*1).
  assert (∀ key, key ∈ keys →
            ∃ x, hd "" (words key) = (CLOUD_PREFIX +:+ "/") +:+ x ∧ no_ifs x = true)
    as Hkeys.
  { intros key Hkey. unfold keys, head_but_last in Hkey.
    apply (subseteq_take _ _) in Hkey.
    apply list_elem_of_fmap in Hkey as ([key' t] & -> & Hin).
    rewrite merge_sort_Permutation in Hin. unfold listed in Hin.
    apply list_elem_of_filter in Hin as [Hpre _]. simpl in *.
    apply prefix_split in Hpre as [rest ->]. by apply first_word. }
  rewrite words_unlines.
  - intros (key & -> & Hkey)%list_elem_of_fmap.
    destruct (Hkeys key Hkey) as (x & -> & _). by exists x.
  - apply Forall_forall. intros name' (key & -> & Hkey)%list_elem_of_fmap.
    destruct (Hkeys key Hkey) as (x & -> & Hx). split; [done|].
    by rewrite no_ifs_app, Hx.
Qed.

Lemma cloud_loop_keeps dry names w key :
  (∀ name, name ∈ names → key ≠ CLOUD_PREFIX +:+ "/" +:+ name) →
  object (for_in names (λ backup,
            if_ (λ _, String.eqb dry "true")
              (echo ("Would delete from cloud: " +:+ backup))
              (aws_s3_rm backup;;
               log_info ("Deleted old cloud backup: " +:+ backup))) w).2 key
  = object w key.
Proof.
  revert w. induction names as [|n names IH]; intros w Hnames; [done|].
  cbn [for_in]. rewrite seq_run. unfold if_ at 1.
  destruct (String.eqb dry "true").
  - change (echo ?l w) with (Done 0, set_stdout (λ out, out ++ [l]) w). cbv beta iota.
    rewrite IH; [done|]. intros name ?. apply Hnames. by right.
  - rewrite seq_run. unfold aws_s3_rm at 1, log_info at 1, echo at 1. cbv beta iota.
    rewrite IH by (intros name ?; apply Hnames; by right).
    unfold object. cbn [bucket set_bucket set_stdout].
    destruct (bucket w) as [objects|]; [|done]. cbn.
    apply lookup_delete_ne. apply not_eq_sym, Hnames. by left.
Qed.

Lemma cleanup_cloud_keeps dry w key :
  String.prefix (CLOUD_PREFIX +:+ "/" +:+ CLOUD_PREFIX +:+ "/") key = false →
  object (cleanup_cloud dry w).2 key = object w key.
Proof.
  intros Hkey. unfold cleanup_cloud, if_. destruct (aws_lists_backups w); [|done].
  unfold local_capture, capture, print_lines. cbv beta iota zeta.
  cbn [fst snd stdout set_stdout app].
  etrans; [apply cloud_loop_keeps|done].
  intros name [x ->]%old_cloud_backups_prefixed ->.
  by rewrite <- !string_app_assoc, prefix_app in Hkey.
Qed.

(** The cloud part of the cleanup asks [aws s3 rm] for the listed key
    below the prefix once more, so, dry run or not, it removes no object
    whose key does not have the prefix twice: an object that
    [aws s3 ls edutech-backups/] lists as an old backup is never the one
    deleted. *)
Theorem cloud_cleanup_removes_nothing_it_lists dry_run w key :
  String.prefix (CLOUD_PREFIX +:+ "/" +:+ CLOUD_PREFIX +:+ "/") key = false →
  let r := cleanup_backups dry_run w in
  object r.2 key = object w key.
Proof.
  intros Hkey r. subst r.
  destruct (cleanup_backups_cases dry_run w) as [[_ Hw]|(_ & _ & _ & Hb)];
    cbv zeta in *;
    match goal with H : context [for_in _ _ ?w'] |- _ =>
      destruct (cleanup_locals_frame dry_run backup_types w')
        as (_ & _ & Hbucket & _)
    end.
  - unfold object. by rewrite Hw, Hbucket.
  - unfold object at 1. rewrite Hb.
    etrans; [apply (cleanup_cloud_keeps dry_run _ key Hkey)|].
    unfold object. by rewrite Hbucket.
Qed.

End CloudProofs.

(** * The further theorems at concrete runs of the backup script *)

Module ScriptRuns.
Import Text BackupRestore BackupRestoreSpec ScriptSpec TextProofs CleanupProofs
  BackupRestoreProofs FilesProofs RestoreProofs CloudProofs.

Lemma C1_witness :
  let r := restore_database naming_externals "b1" test_world in
  integrity_check naming_externals "corrupt" ≠ sound_report ∧
  r.1 = Done 0 ∧
  content <$> files r.2 !! DATABASE_PATH = Some "corrupt" ∧
  content <$> files r.2 !! safety_copy_path naming_externals test_world
    = Some "live".
Proof.
  assert (integrity_check naming_externals "corrupt" ≠ sound_report) as Hfailed
    by (intros H; vm_compute in H; discriminate).
  destruct (C1_restore_database_rolls_back_only_without_ok naming_externals "b1"
              test_world (mkFile "live" 5) (mkFile "corrupt" 1))
    as (Hsafe & _ & Hkept).
  - vm_compute. reflexivity.
  - vm_compute. reflexivity.
  - split; [exact Hfailed|].
    destruct (Hkept Hfailed) as [Hst Hdb].
    + vm_compute. reflexivity.
    + vm_compute. reflexivity.
    + split; [exact Hst|]. split; [exact Hdb|exact Hsafe].
Defined.

Lemma C8_witness :
  let r := backup_database naming_externals "b9" corrupt_world in
  integrity_check naming_externals (database_copy naming_externals corrupt_world)
    ≠ sound_report ∧
  r.1 = Done 0 ∧
  content <$> files r.2 !! database_backup_path "b9" = Some "corrupt" ∧
  last (stdout r.2) = Some (database_backup_path "b9").
Proof.
  assert (integrity_check naming_externals
            (database_copy naming_externals corrupt_world) ≠ sound_report)
    as Hfailed by (intros H; vm_compute in H; discriminate).
  split; [exact Hfailed|].
  destruct (proj2 (C8_backup_database_deletes_the_copy_only_without_ok
                     naming_externals "b9" corrupt_world) Hfailed)
    as (Hst & Hcopy & Hlast).
  - vm_compute. reflexivity.
  - split; [exact Hst|]. split; [|exact Hlast].
    rewrite Hcopy. vm_compute. reflexivity.
Defined.

Lemma restore_database_missing_backup_witness :
  let r := restore_database test_externals "zz" test_world in
  r.1 = Done 1 ∧ files r.2 = files test_world ∧
  api_online r.2 = api_online test_world ∧
  stdout r.2 = [RED +:+ "[ERROR]" +:+ NC +:+ " " +:+ "Database backup not found: "
                +:+ database_backup_path "zz"].
Proof.
  destruct (restore_database_missing_backup_changes_nothing test_externals "zz"
              test_world) as (Hst & Hfiles & _ & _ & Hapi & Hout).
  - vm_compute. reflexivity.
  - split; [exact Hst|]. split; [exact Hfiles|]. split; [exact Hapi|].
    apply Hout. vm_compute. reflexivity.
Defined.

Lemma restore_database_without_live_store_witness :
  let r := restore_database test_externals "b2" bare_world in
  r.1 = Exit 1 ∧ files r.2 = files bare_world ∧ api_online r.2 = false.
Proof.
  apply (restore_database_without_live_store_leaves_api_stopped test_externals "b2"
           bare_world (mkFile "good" 2)); vm_compute; reflexivity.
Defined.




Lemma restore_files_missing_archive_witness :
  let r := restore_files test_externals "zz" test_world in
  r.1 = Done 1 ∧ files r.2 = files test_world ∧ dirs r.2 = dirs test_world ∧
  stdout r.2 = [RED +:+ "[ERROR]" +:+ NC +:+ " " +:+ "Files backup not found: "
                +:+ files_backup_path "zz"].
Proof.
  destruct (restore_files_missing_archive_changes_nothing test_externals "zz"
              test_world) as (Hst & Hfiles & Hdirs & Hout).
  - vm_compute. reflexivity.
  - split; [exact Hst|]. split; [exact Hfiles|]. split; [exact Hdirs|].
    apply Hout. vm_compute. reflexivity.
Defined.

Lemma backup_files_without_the_directory_witness :
  let r := backup_files test_externals "b9" crowded_world in
  r.1 = Done 1 ∧ files r.2 = files crowded_world.
Proof.
  destruct (backup_files_without_the_directory_writes_nothing test_externals "b9"
              crowded_world) as (Hst & Hfiles & _).
  - vm_compute. reflexivity.
  - split; [exact Hst|exact Hfiles].
Defined.

Lemma backup_files_archives_witness :
  let r := backup_files test_externals "b9" test_world in
  r.1 = Done 0 ∧ last (stdout r.2) = Some (files_backup_path "b9").
Proof.
  destruct (backup_files_archives_the_directory test_externals "b9" test_world)
    as (Hst & _ & _ & Hlast).
  - vm_compute. reflexivity.
  - split; [exact Hst|exact Hlast].
Defined.

Lemma restore_files_round_trip_witness :
  let r := restore_files archive_externals "b9" emptied_world in
  files emptied_world !! (FILES_PATH +:+ "/" +:+ "a.png") = None ∧
  r.1 = Done 0 ∧
  files r.2 !! (FILES_PATH +:+ "/" +:+ "a.png") = Some (mkFile "img" 1) ∧
  files r.2 !! (FILES_PATH +:+ "/" +:+ "b.png") = None.
Proof.
  split; [vm_compute; reflexivity|].
  destruct (restore_files_gives_back_what_backup_files_archived archive_externals
              "b9" test_world emptied_world ["files"]) as (Hst & Hfiles).
  - vm_compute. reflexivity.
  - vm_compute. reflexivity.
  - vm_compute. reflexivity.
  - intros Hdir. vm_compute in Hdir. discriminate.
  - split; [exact Hst|]. split.
    + rewrite Hfiles. vm_compute. reflexivity.
    + rewrite Hfiles. vm_compute. reflexivity.
Defined.

Lemma the_last_scope_option_witness :
  parse_restore_type ["--files-only"; "--db-only"; "--cloud"] = "database" ∧
  parse_backup_type ["--db-only"; "--full"; "--cloud"] = "full".
Proof.
  destruct (the_last_scope_option_wins ["--files-only"] ["--cloud"])
    as (Hr & _ & _ & _ & _ & _).
  - repeat constructor. intros H%list_elem_of_In. simpl in H.
    decompose [or] H; discriminate || contradiction.
  - split; [exact Hr|].
    destruct (the_last_scope_option_wins ["--db-only"] ["--cloud"])
      as (_ & _ & _ & _ & Hb & _); [|exact Hb].
    repeat constructor. intros H%list_elem_of_In. simpl in H.
    decompose [or] H; discriminate || contradiction.
Defined.

Lemma cleanup_touches_only_witness :
  let r := cleanup_backups "false" crowded_world in
  files r.2 !! DATABASE_PATH = files crowded_world !! DATABASE_PATH ∧
  dirs r.2 = dirs crowded_world.
Proof.
  apply (cleanup_touches_only_the_backup_directories "false" crowded_world
           DATABASE_PATH).
  repeat constructor.
Defined.

Lemma cloud_cleanup_witness :
  length (old_cloud_backups cloudy_world) = 2 ∧
  object (cleanup_backups "false" cloudy_world).2 (CLOUD_PREFIX +:+ "/b0") = Some 0.
Proof.
  split; [vm_compute; reflexivity|].
  rewrite (cloud_cleanup_removes_nothing_it_lists "false" cloudy_world
             (CLOUD_PREFIX +:+ "/b0")).
  - vm_compute. reflexivity.
  - vm_compute. reflexivity.
Defined.

End ScriptRuns.
